(** * Clado SDK: request engine, poller and pagination iterator

    A shallow embedding of [utils.ts], [errors.ts] and [client.ts] of the
    Clado Deno SDK, with the properties of the request engine, of the
    parameter normaliser, of the backoff calculator, of the deep-research
    poller and of the pagination iterator.

    Modelling conventions.
    - A JavaScript value is a [JS] term; numbers that reach the control flow
      (statuses, offsets, limits, totals, milliseconds of the poller) are
      integers, [NaN] is written [None] where a computation can produce it.
    - A JavaScript object is the list of its own enumerable entries in
      [Object.entries] order, with pairwise distinct keys.
    - Delays of the backoff calculator are exact rationals ([Q]) in place of
      IEEE doubles.
    - The outside world (network, random source, clock) is an [Env] of
      oracles indexed by the number of earlier calls; a response body comes
      with what [JSON.parse] makes of its text. *)

From Stdlib Require Import String Ascii List ZArith QArith Qminmax Bool Lia.
From Stdlib Require Import DecimalString.
From Stdlib Require DecimalPos.
From Stdlib Require Import Qpower Lqa.
Import ListNotations.
Set Warnings "-register-all".
Open Scope string_scope.
Open Scope Z_scope.

(* ================================================================== *)
(** * JavaScript values and objects *)
(* ================================================================== *)

Inductive JS : Type :=
| JUndefined
| JNull
| JBool (b : bool)
| JNum (n : Z)
| JStr (s : string)
| JArr (items : list JS)
| JObj (fields : list (string * JS)).

(** A string-keyed object: its own enumerable entries, in [Object.entries]
    order. *)
Definition Dict (V : Type) := list (string * V).

Section Dict.
Context {V : Type}.

Definition keys (o : Dict V) : list string := map fst o.

(** [o[k]] for an own property ([None]: no such own property). *)
Fixpoint obj_get (o : Dict V) (k : string) : option V :=
  match o with
  | [] => None
  | (k', v) :: o' => if String.eqb k' k then Some v else obj_get o' k
  end.

(** [o[k] = v]: overwrite in place, or add the key at the end. *)
Fixpoint obj_set (o : Dict V) (k : string) (v : V) : Dict V :=
  match o with
  | [] => [(k, v)]
  | (k', v') :: o' =>
      if String.eqb k' k then (k', v) :: o' else (k', v') :: obj_set o' k v
  end.

(** [{...a, ...b}]: every entry of [b] assigned onto a copy of [a]. *)
Definition obj_spread (a b : Dict V) : Dict V :=
  fold_left (fun acc kv => obj_set acc (fst kv) (snd kv)) b a.
End Dict.

Definition Obj := Dict JS.

(** [v === undefined || v === null], the test behind [??]. *)
Definition nullish (v : JS) : bool :=
  match v with JUndefined | JNull => true | _ => false end.

(** [ToBoolean]. *)
Definition truthy (v : JS) : bool :=
  match v with
  | JUndefined | JNull => false
  | JBool b => b
  | JNum n => negb (n =? 0)
  | JStr s => negb (String.eqb s "")
  | JArr _ | JObj _ => true
  end.

Definition string_of_Z (n : Z) : string :=
  NilZero.string_of_int (Z.to_int n).

Fixpoint join (sep : string) (l : list string) : string :=
  match l with
  | [] => ""
  | [s] => s
  | s :: l' => s ++ sep ++ join sep l'
  end.

(** [String(v)], as a template literal applies it. *)
Fixpoint ToString (v : JS) : string :=
  match v with
  | JUndefined => "undefined"
  | JNull => "null"
  | JBool true => "true"
  | JBool false => "false"
  | JNum n => string_of_Z n
  | JStr s => s
  | JArr items =>
      join "," (map (fun x => if nullish x then "" else ToString x) items)
  | JObj _ => "[object Object]"
  end.

(** [v[k]] for a property name [k] that no prototype defines: [None] when
    the access throws a [TypeError] (on [undefined] and [null]). *)
Definition get_prop (v : JS) (k : string) : option JS :=
  match v with
  | JUndefined | JNull => None
  | JObj o => Some (match obj_get o k with Some x => x | None => JUndefined end)
  | _ => Some JUndefined
  end.

(* ================================================================== *)
(** * utils.ts: parameter normaliser *)
(* ================================================================== *)

Definition snakeCaseMap : list (string * string) :=
  [ ("searchId", "search_id");
    ("advancedFiltering", "advanced_filtering");
    ("linkedinUrl", "linkedin_url");
    ("enrichEmail", "enrich_email");
    ("enrichPhone", "enrich_phone");
    ("includePosts", "include_posts");
    ("includeExperience", "include_experience");
    ("includeEducation", "include_education");
    ("postUrl", "post_url");
    ("reactionType", "reaction_type") ].

Fixpoint table_get (t : list (string * string)) (k : string) : option string :=
  match t with
  | [] => None
  | (k', w) :: t' => if String.eqb k' k then Some w else table_get t' k
  end.

(** [snakeCaseMap] is an object literal, so [snakeCaseMap[key]] also finds
    what it inherits from [Object.prototype]; these are not nullish, and
    used as a property key they are turned into a string.  The members are
    those of V8; a runtime that removes the accessor [__proto__] from
    [Object.prototype] passes that one key through, and the statements
    below hold either way. *)
Definition Object_prototype_members : list string :=
  [ "constructor"; "__defineGetter__"; "__defineSetter__"; "hasOwnProperty";
    "__lookupGetter__"; "__lookupSetter__"; "isPrototypeOf";
    "propertyIsEnumerable"; "toString"; "valueOf"; "__proto__";
    "toLocaleString" ].

Definition inherited_as_key (name : string) : string :=
  if String.eqb name "__proto__" then "[object Object]"
  else if String.eqb name "constructor" then "function Object() { [native code] }"
  else "function " ++ name ++ "() { [native code] }".

Definition mem_string (s : string) (l : list string) : bool :=
  existsb (String.eqb s) l.

(** [snakeCaseMap[key] ?? key] *)
Definition snakeKey (key : string) : string :=
  match table_get snakeCaseMap key with
  | Some w => w
  | None =>
      if mem_string key Object_prototype_members then inherited_as_key key
      else key
  end.

(** The loop of [toSnakeCase] over [Object.entries(obj)], writing into
    [result]. *)
Definition toSnakeCase_loop (entries : Obj) (result : Obj) : Obj :=
  fold_left (fun result kv => obj_set result (snakeKey (fst kv)) (snd kv))
            entries result.

(** The value [toSnakeCase] returns, as a function of the entries read. *)
Definition toSnakeCase (obj : Obj) : Obj := toSnakeCase_loop obj [].

(** ** The same function on a store of objects

    Objects are referenced: the argument is a location of the store, the
    result a location allocated by the call. *)

Definition Heap := list Obj.
Definition Loc := nat.

Definition heap_get (h : Heap) (l : Loc) : option Obj := nth_error h l.

Definition heap_alloc (h : Heap) (o : Obj) : Heap * Loc :=
  ((h ++ [o])%list, length h).

Fixpoint heap_update (h : Heap) (l : Loc) (f : Obj -> Obj) : Heap :=
  match h, l with
  | [], _ => []
  | o :: h', O => f o :: h'
  | o :: h', S l' => o :: heap_update h' l' f
  end.

(** [None]: the argument is not an object of the store. *)
Definition toSnakeCase_heap (h : Heap) (obj : Loc) : option (Heap * Loc) :=
  match heap_get h obj with
  | None => None
  | Some entries =>
      let (h0, result) := heap_alloc h [] in
      Some (fold_left
              (fun h' kv =>
                 heap_update h' result
                   (fun r => obj_set r (snakeKey (fst kv)) (snd kv)))
              entries h0,
            result)
  end.

(* ================================================================== *)
(** * utils.ts: backoff calculator *)
(* ================================================================== *)

Definition DEFAULT_maxRetries : Z := 3.
Definition DEFAULT_initialDelayMs : Q := 1000.
Definition DEFAULT_maxDelayMs : Q := 30000.

(** [calculateBackoff] at the draw [r] of [Math.random()]. *)
Definition calculateBackoff_at (r : Q) (attempt : Z)
           (initialDelayMs maxDelayMs : Q) : Q :=
  let delay := (initialDelayMs * Qpower 2 attempt)%Q in
  let jitter := (delay * (1 # 10) * (r * 2 - 1))%Q in
  Qmin (delay + jitter) maxDelayMs.


(* ================================================================== *)
(** * errors.ts *)
(* ================================================================== *)

(** The class of the error: [CladoError] itself is [Generic]. *)
Inductive ErrorKind := Generic | Auth | RateLimit | NotFound | Validation.

(** A number that may be [NaN] ([None]). *)
Definition Num := option Z.

Definition string_of_Num (n : Num) : string :=
  match n with Some z => string_of_Z z | None => "NaN" end.

Record CladoError := {
  kind : ErrorKind;
  status : Z;
  message : string;
  retryAfter : option Num   (* the field of [CladoRateLimitError] *)
}.

(** [message ?? fallback], then the template literal of the base class. *)
Definition or_default (message : JS) (fallback : string) : JS :=
  if nullish message then JStr fallback else message.

Definition base_message (status : Z) (message : JS) : string :=
  "API request failed with status " ++ string_of_Z status ++ ": "
    ++ ToString message.

Definition new_CladoError (status : Z) (message : JS) : CladoError :=
  {| kind := Generic; status := status;
     message := base_message status message; retryAfter := None |}.

Definition new_CladoRateLimitError (retryAfter : Num) (message : JS)
  : CladoError :=
  {| kind := RateLimit; status := 429;
     message :=
       base_message 429
         (or_default message
            ("Rate limit exceeded, retry after " ++ string_of_Num retryAfter
               ++ "s"));
     retryAfter := Some retryAfter |}.

Definition new_CladoAuthError (message : JS) : CladoError :=
  {| kind := Auth; status := 401;
     message := base_message 401 (or_default message "Invalid or expired API key");
     retryAfter := None |}.

Definition new_CladoNotFoundError (message : JS) : CladoError :=
  {| kind := NotFound; status := 404;
     message := base_message 404 (or_default message "Resource not found");
     retryAfter := None |}.

Definition new_CladoValidationError (message : JS) : CladoError :=
  {| kind := Validation; status := 422;
     message := base_message 422 message; retryAfter := None |}.

(** What a [throw] carries: an error of this library, or any other [Error],
    kept by its message. *)
Inductive Exn :=
| Clado (e : CladoError)
| Foreign (message : string).

(* ================================================================== *)
(** * The outside world *)
(* ================================================================== *)

(** An absolute URL, before serialisation: what [new URL(path, baseUrl)]
    was built from, and the pairs of its [searchParams]. *)
Record Url := {
  url_base : string;
  url_path : string;
  url_query : list (string * string)
}.

(** The arguments of one [fetch] call. *)
Record FetchRequest := {
  fr_url : Url;
  fr_method : string;
  fr_headers : Dict string;
  fr_body : option JS        (* the value that [JSON.stringify] serialises *)
}.

(** What [JSON.parse] makes of a text. *)
Inductive Parsed :=
| ParseOk (value : JS)
| SyntaxError (reason : string).

(** [response.text()]: the text, together with what [JSON.parse] makes of
    it, or a failure to read the body. *)
Inductive Body :=
| BodyText (text : string) (json : Parsed)
| BodyFails (reason : string).

(** [JSON.parse(text)]: the empty text is never JSON. *)
Definition JSON_parse (text : string) (json : Parsed) : Parsed :=
  if String.eqb text "" then SyntaxError "Unexpected end of JSON input"
  else json.

Record Response := {
  rs_status : Z;
  rs_statusText : string;
  rs_headers : Dict string;
  rs_body : Body
}.

(** What a [fetch] call settles to: a response, or a rejection (connection
    refused, DNS failure, ...) with the message of its error. *)
Inductive Exchange :=
| Responded (response : Response)
| Rejected (reason : string).

(** The oracles.  [fetch n req] answers the call number [n] (from 0),
    [Math_random n] is the draw number [n], [Date_now n] the clock reading
    number [n]. *)
Record Env := {
  fetch : nat -> FetchRequest -> Exchange;
  Math_random : nat -> Q;
  Date_now : nat -> Z
}.

(** What a run does to the world, in order. *)
Inductive Event :=
| EvFetch (req : FetchRequest)
| EvSleep (ms : option Q)        (* [None]: [sleep(NaN)] *)
| EvRandom
| EvNow.

Definition Trace := list Event.

Definition is_fetch (e : Event) : bool :=
  match e with EvFetch _ => true | _ => false end.
Definition is_sleep (e : Event) : bool :=
  match e with EvSleep _ => true | _ => false end.
Definition is_random (e : Event) : bool :=
  match e with EvRandom => true | _ => false end.
Definition is_now (e : Event) : bool :=
  match e with EvNow => true | _ => false end.

Definition count (p : Event -> bool) (t : Trace) : nat :=
  length (filter p t).

(** The fetch requests of a trace, in order. *)
Fixpoint fetches (t : Trace) : list FetchRequest :=
  match t with
  | [] => []
  | EvFetch r :: t' => r :: fetches t'
  | _ :: t' => fetches t'
  end.

(** The sleeps of a trace, in order. *)
Fixpoint sleeps (t : Trace) : list (option Q) :=
  match t with
  | [] => []
  | EvSleep ms :: t' => ms :: sleeps t'
  | _ :: t' => sleeps t'
  end.

(** ** Computations: a state and error monad over the trace *)

Inductive Outcome (A : Type) :=
| Returned (a : A)
| Thrown (e : Exn)
| OutOfFuel          (* the loop is still running when the fuel ends *)
| IllTyped.          (* a value outside its declared TypeScript type *)
Arguments Returned {A} a.
Arguments Thrown {A} e.
Arguments OutOfFuel {A}.
Arguments IllTyped {A}.

Definition M (A : Type) := Trace -> Outcome A * Trace.

Definition ret {A} (a : A) : M A := fun t => (Returned a, t).
Definition throw {A} (e : Exn) : M A := fun t => (Thrown e, t).
Definition out_of_fuel {A} : M A := fun t => (OutOfFuel, t).

Definition bind {A B} (c : M A) (k : A -> M B) : M B :=
  fun t =>
    match c t with
    | (Returned a, t') => k a t'
    | (Thrown e, t') => (Thrown e, t')
    | (OutOfFuel, t') => (OutOfFuel, t')
    | (IllTyped, t') => (IllTyped, t')
    end.

Notation "x <- c ;; k" := (bind c (fun x => k))
  (at level 61, c at next level, right associativity).
Notation "c ;;; k" := (bind c (fun _ => k))
  (at level 61, right associativity).

Definition emit (e : Event) : M unit := fun t => (Returned tt, (t ++ [e])%list).

Section World.
Variable env : Env.

Definition do_fetch (req : FetchRequest) : M Exchange :=
  fun t => (Returned (fetch env (count is_fetch t) req),
            (t ++ [EvFetch req])%list).

Definition do_random : M Q :=
  fun t => (Returned (Math_random env (count is_random t)),
            (t ++ [EvRandom])%list).

Definition do_now : M Z :=
  fun t => (Returned (Date_now env (count is_now t)), (t ++ [EvNow])%list).

(** [sleep(ms)] *)
Definition sleep (ms : option Q) : M unit := emit (EvSleep ms).

(** [calculateBackoff]: one draw of [Math.random()]. *)
Definition calculateBackoff (attempt : Z) (initialDelayMs maxDelayMs : Q)
  : M Q :=
  r <- do_random ;;
  ret (calculateBackoff_at r attempt initialDelayMs maxDelayMs).
End World.

(* ================================================================== *)
(** * utils.ts: the request engine *)
(* ================================================================== *)

Definition code (c : ascii) : Z := Z.of_nat (nat_of_ascii c).

(** White space that [parseInt] skips, among the bytes of a header value. *)
Definition is_white_space (c : ascii) : bool :=
  let n := code c in
  ((9 <=? n) && (n <=? 13)) || (n =? 32) || (n =? 160).

Definition digit_of (c : ascii) : option Z :=
  let n := code c in
  if (48 <=? n) && (n <=? 57) then Some (n - 48) else None.

Fixpoint skip_white_space (s : string) : string :=
  match s with
  | String c s' => if is_white_space c then skip_white_space s' else s
  | EmptyString => EmptyString
  end.

(** The longest prefix of decimal digits, read onto [acc]; [None] is kept
    when there is no digit. *)
Fixpoint read_digits (s : string) (acc : Num) : Num :=
  match s with
  | String c s' =>
      match digit_of c with
      | Some d =>
          read_digits s'
            (Some (10 * (match acc with Some a => a | None => 0 end) + d))
      | None => acc
      end
  | EmptyString => acc
  end.

(** [parseInt(s, 10)] *)
Definition parseInt10 (s : string) : Num :=
  match skip_white_space s with
  | String "-" s' => option_map Z.opp (read_digits s' None)
  | String "+" s' => read_digits s' None
  | s' => read_digits s' None
  end.

Definition lower (c : ascii) : ascii :=
  let n := code c in
  if (65 <=? n) && (n <=? 90) then ascii_of_nat (nat_of_ascii c + 32) else c.

Fixpoint lowercase (s : string) : string :=
  match s with
  | String c s' => String (lower c) (lowercase s')
  | EmptyString => EmptyString
  end.

(** [headers.get(name)]: header names compare without case. *)
Fixpoint Headers_get (hs : Dict string) (name : string) : option string :=
  match hs with
  | [] => None
  | (k, v) :: hs' =>
      if String.eqb (lowercase k) (lowercase name) then Some v
      else Headers_get hs' name
  end.

(** [response.ok] *)
Definition ok (response : Response) : bool :=
  (200 <=? rs_status response) && (rs_status response <=? 299).

(** [a || b] on strings *)
Definition str_or (a b : string) : string :=
  if String.eqb a "" then b else a.

(** [a || b] *)
Definition js_or (a b : JS) : JS := if truthy a then a else b.

Record RequestOptions := {
  ro_method : option string;
  ro_body : JS;                        (* [JUndefined]: no body *)
  ro_headers : option (Dict string);
  ro_retry : option bool;
  ro_maxRetries : option Z             (* a whole number of retries *)
}.

(** [{}], the default of the [options] parameter. *)
Definition no_options : RequestOptions :=
  {| ro_method := None; ro_body := JUndefined; ro_headers := None;
     ro_retry := None; ro_maxRetries := None |}.

Definition or_else {A} (o : option A) (d : A) : A :=
  match o with Some a => a | None => d end.

Section Engine.
Variable env : Env.

Definition parseErrorResponse (response : Response) : JS :=
  match rs_body response with
  | BodyFails _ => JStr (rs_statusText response)
  | BodyText text json =>
      match JSON_parse text json with
      | SyntaxError _ => JStr (str_or text (rs_statusText response))
      | ParseOk json =>
          match get_prop json "detail", get_prop json "error",
                get_prop json "message" with
          | Some detail, Some error, Some message =>
              js_or detail (js_or error (js_or message (JStr text)))
          | _, _, _ =>
              (* the property access threw *)
              JStr (str_or text (rs_statusText response))
          end
      end
  end.

(** [requestHeaders], as [request] builds them. *)
Definition requestHeaders (apiKey : string) (headers : Dict string)
           (body : JS) : Dict string :=
  let requestHeaders :=
    obj_spread [("Authorization", "Bearer " ++ apiKey);
                ("Accept", "application/json")] headers in
  if truthy body then obj_set requestHeaders "Content-Type" "application/json"
  else requestHeaders.

(** [retryAfter] of the [case 429]. *)
Definition retryAfter_of (response : Response) : Num :=
  parseInt10
    (match Headers_get (rs_headers response) "Retry-After" with
     | Some v => str_or v "60"
     | None => "60"
     end).

(** [retryAfter * 1000] *)
Definition seconds_to_ms (n : Num) : option Q :=
  option_map (fun z => inject_Z (z * 1000)) n.

(** The [while] loop of [request]; one unit of fuel per iteration. *)
Fixpoint request_loop (fuel : nat) (req : FetchRequest) (retry : bool)
         (maxRetries : Z) (attempt : Z) (lastError : option Exn) : M JS :=
  if attempt <=? maxRetries then
    match fuel with
    | O => out_of_fuel
    | S fuel' =>
        let continue := request_loop fuel' req retry maxRetries (attempt + 1) in
        (* the [catch] clause *)
        let catch (error : Exn) : M JS :=
          match error with
          | Clado e => throw (Clado e)
          | Foreign reason =>
              if retry && (attempt <? maxRetries) then
                delay <- calculateBackoff env attempt DEFAULT_initialDelayMs
                           DEFAULT_maxDelayMs ;;
                sleep (Some delay) ;;;
                continue (Some (Foreign reason))
              else
                throw (Clado (new_CladoError 0
                                (JStr ("Network error: " ++ reason))))
          end in
        (* the [try] block *)
        exchange <- do_fetch env req ;;
        match exchange with
        | Rejected reason => catch (Foreign reason)
        | Responded response =>
            if ok response then
              match rs_body response with
              | BodyFails reason => catch (Foreign reason)
              | BodyText text json =>
                  if String.eqb text "" then ret (JObj [])
                  else
                    match JSON_parse text json with
                    | ParseOk value => ret value
                    | SyntaxError reason => catch (Foreign reason)
                    end
              end
            else
              let errorMessage := parseErrorResponse response in
              let status := rs_status response in
              if status =? 401 then
                catch (Clado (new_CladoAuthError errorMessage))
              else if status =? 404 then
                catch (Clado (new_CladoNotFoundError errorMessage))
              else if status =? 422 then
                catch (Clado (new_CladoValidationError errorMessage))
              else if status =? 429 then
                let retryAfter := retryAfter_of response in
                if retry && (attempt <? maxRetries) then
                  sleep (seconds_to_ms retryAfter) ;;;
                  continue lastError
                else
                  catch (Clado (new_CladoRateLimitError retryAfter
                                  errorMessage))
              else if (status >=? 500) && retry && (attempt <? maxRetries)
              then
                delay <- calculateBackoff env attempt DEFAULT_initialDelayMs
                           DEFAULT_maxDelayMs ;;
                sleep (Some delay) ;;;
                continue lastError
              else
                catch (Clado (new_CladoError status errorMessage))
        end
    end
  else
    throw (or_else lastError
             (Clado (new_CladoError 0 (JStr "Request failed after retries")))).

(** The argument of [fetch]. *)
Definition fetch_request (url : Url) (apiKey : string)
           (options : RequestOptions) : FetchRequest :=
  let body := ro_body options in
  {| fr_url := url;
     fr_method := or_else (ro_method options) "GET";
     fr_headers :=
       requestHeaders apiKey (or_else (ro_headers options) []) body;
     fr_body :=
       if truthy body then Some body else None |}.

(** [request]: the fuel given to the loop is the number of iterations
    that the budget allows; the loop never uses it up ([request_settles]). *)
Definition request (url : Url) (apiKey : string) (options : RequestOptions)
  : M JS :=
  let retry := or_else (ro_retry options) true in
  let maxRetries := or_else (ro_maxRetries options) DEFAULT_maxRetries in
  request_loop (Z.to_nat (maxRetries + 1)) (fetch_request url apiKey options)
               retry maxRetries 0 None.
End Engine.

(* ================================================================== *)
(** * utils.ts: URL builder *)
(* ================================================================== *)

(** [searchParams.append(k, v)] *)
Definition sp_append (q : list (string * string)) (k v : string)
  : list (string * string) := (q ++ [(k, v)])%list.

(** [searchParams.set(k, v)]: the first pair named [k] takes the value and
    the other pairs named [k] go; without such a pair, [append]. *)
Fixpoint sp_set (q : list (string * string)) (k v : string)
  : list (string * string) :=
  match q with
  | [] => [(k, v)]
  | (k', v') :: q' =>
      if String.eqb k' k
      then (k', v) :: filter (fun p => negb (String.eqb (fst p) k)) q'
      else (k', v') :: sp_set q' k v
  end.

(** [searchParams.get(k)]: the value of the first pair named [k]. *)
Definition sp_get (q : list (string * string)) (k : string) : option string :=
  obj_get q k.

Definition buildUrl_entry (q : list (string * string)) (kv : string * JS)
  : list (string * string) :=
  let (key, value) := kv in
  if nullish value then q
  else
    match value with
    | JArr items =>
        fold_left (fun q item => sp_append q key (ToString item)) items q
    | _ => sp_set q key (ToString value)
    end.

(** The base and the path are kept as they are given, the parsing of
    [new URL(path, baseUrl)] is not modelled; [url_query] holds the pairs
    that the loop puts in [searchParams]. *)
Definition buildUrl (baseUrl path : string) (params : option Obj) : Url :=
  {| url_base := baseUrl;
     url_path := path;
     url_query :=
       match params with
       | Some params => fold_left buildUrl_entry params []
       | None => []
       end |}.

(* ================================================================== *)
(** * client.ts *)
(* ================================================================== *)

Record CladoClient := {
  apiKey : string;
  baseUrl : string
}.

(** [a === b] against a string literal *)
Definition is_string (v : JS) (s : string) : bool :=
  match v with JStr s' => String.eqb s' s | _ => false end.

Record WaitForDeepResearchOptions := {
  pollInterval : option Z;
  timeout : option Z
}.

(** The pages of a generator run: the items yielded, in order, and how the
    run ended. *)
Definition Gen := Trace -> (list JS * Outcome unit) * Trace.

Definition yield_then (items : list JS) (rest : Gen) : Gen :=
  fun t => let '((more, out), t') := rest t in ((items ++ more)%list, out, t').

Definition gen_bind {A} (c : M A) (k : A -> Gen) : Gen :=
  fun t =>
    match c t with
    | (Returned a, t') => k a t'
    | (Thrown e, t') => ([], Thrown e, t')
    | (OutOfFuel, t') => ([], OutOfFuel, t')
    | (IllTyped, t') => ([], IllTyped, t')
    end.

Definition gen_end (out : Outcome unit) : Gen := fun t => ([], out, t).

(** [options.limit ?? 30]; [None]: not a number. *)
Definition limit_of (options : Obj) : option Z :=
  match obj_get options "limit" with
  | None | Some JUndefined | Some JNull => Some 30
  | Some (JNum n) => Some n
  | Some _ => None
  end.

(** [offset + length >= total]; [None]: [total] is not a number.  Against
    [undefined] the comparison is false. *)
Definition reaches_total (reached : Z) (total : JS) : option bool :=
  match total with
  | JNum n => Some (reached >=? n)
  | JUndefined => Some false
  | _ => None
  end.

Section Client.
Variable env : Env.
Variable client : CladoClient.

Definition searchPeople (options : Obj) : M JS :=
  let params := toSnakeCase options in
  let url := buildUrl (baseUrl client) "/api/search" (Some params) in
  request env url (apiKey client) no_options.

Definition getDeepResearchStatus (jobId : string) : M JS :=
  let url :=
    buildUrl (baseUrl client) ("/api/search/deep_research/" ++ jobId) None in
  request env url (apiKey client) no_options.

(** The [while (true)] of [waitForDeepResearch]; one unit of fuel per
    poll. *)
Fixpoint waitForDeepResearch_loop (fuel : nat) (jobId : string)
         (pollInterval timeout startTime : Z) : M JS :=
  match fuel with
  | O => out_of_fuel
  | S fuel' =>
      status <- getDeepResearchStatus jobId ;;
      match get_prop status "status", get_prop status "error" with
      | Some st, Some error =>
          if is_string st "completed" then ret status
          else if is_string st "failed" then
            throw (Clado (new_CladoError 500
                            (or_default error "Deep research job failed")))
          else
            now <- do_now env ;;
            if now - startTime >? timeout then
              throw (Clado (new_CladoError 408
                              (JStr ("Deep research job timed out after "
                                       ++ string_of_Z timeout ++ "ms"))))
            else
              sleep (Some (inject_Z pollInterval)) ;;;
              waitForDeepResearch_loop fuel' jobId pollInterval timeout
                                       startTime
      | _, _ =>
          throw (Foreign "Cannot read properties of null (reading 'status')")
      end
  end.

Definition waitForDeepResearch (fuel : nat) (jobId : string)
           (options : WaitForDeepResearchOptions) : M JS :=
  let pollInterval := or_else (pollInterval options) 2000 in
  let timeout := or_else (timeout options) 300000 in
  startTime <- do_now env ;;
  waitForDeepResearch_loop fuel jobId pollInterval timeout startTime.

(** The object literal [{...options, searchId, offset, limit}] of
    [searchPeopleAll]. *)
Definition page_options (options : Obj) (searchId : JS) (offset limit : Z)
  : Obj :=
  obj_set (obj_set (obj_set (obj_spread [] options) "searchId" searchId)
                   "offset" (JNum offset))
          "limit" (JNum limit).

(** The [while (true)] of [searchPeopleAll]; one unit of fuel per page. *)
Fixpoint searchPeopleAll_loop (fuel : nat) (options : Obj) (limit : Z)
         (searchId : JS) (offset : Z) : Gen :=
  match fuel with
  | O => gen_end OutOfFuel
  | S fuel' =>
      gen_bind (searchPeople (page_options options searchId offset limit))
        (fun response =>
           match get_prop response "results", get_prop response "total",
                 get_prop response "search_id" with
           | Some (JArr results), Some total, Some search_id =>
               yield_then results
                 (let length := Z.of_nat (List.length results) in
                  match reaches_total (offset + length) total with
                  | None => gen_end IllTyped
                  | Some reached =>
                      if (length <? limit) || reached
                      then gen_end (Returned tt)
                      else
                        searchPeopleAll_loop fuel' options limit search_id
                                             (offset + length)
                  end)
           | Some (JStr _), _, _ => gen_end IllTyped   (* [results] is an array *)
           | Some _, _, _ =>
               gen_end (Thrown (Foreign "response.results is not iterable"))
           | None, _, _ =>
               gen_end (Thrown (Foreign
                 "Cannot read properties of null (reading 'results')"))
           end)
  end.

Definition searchPeopleAll (fuel : nat) (options : Obj) : Gen :=
  match limit_of options with
  | None => gen_end IllTyped
  | Some limit => searchPeopleAll_loop fuel options limit JUndefined 0
  end.
End Client.

(* ================================================================== *)
(** * Statements used by the theorems *)
(* ================================================================== *)

(* ------------------------------------------------------------------ *)
(** ** Views of the code *)

(** What one iteration of [request_loop] decides from the exchange it got;
    [request_loop_iteration] proves that the loop does exactly this. *)
Inductive Verdict :=
| VReturn (value : JS)
| VThrow (e : CladoError)
| VRetryAfter (retryAfter : Num)            (* sleep [retryAfter] seconds *)
| VBackoff (newLastError : option Exn).     (* sleep per [calculateBackoff] *)

Definition verdict (exchange : Exchange) (retry : bool)
           (maxRetries attempt : Z) : Verdict :=
  let may_retry := retry && (attempt <? maxRetries) in
  let foreign reason :=
    if may_retry then VBackoff (Some (Foreign reason))
    else VThrow (new_CladoError 0 (JStr ("Network error: " ++ reason))) in
  match exchange with
  | Rejected reason => foreign reason
  | Responded response =>
      if ok response then
        match rs_body response with
        | BodyFails reason => foreign reason
        | BodyText text json =>
            if String.eqb text "" then VReturn (JObj [])
            else
              match JSON_parse text json with
              | ParseOk value => VReturn value
              | SyntaxError reason => foreign reason
              end
        end
      else
        let errorMessage := parseErrorResponse response in
        let status := rs_status response in
        if status =? 401 then VThrow (new_CladoAuthError errorMessage)
        else if status =? 404 then VThrow (new_CladoNotFoundError errorMessage)
        else if status =? 422 then VThrow (new_CladoValidationError errorMessage)
        else if status =? 429 then
          if may_retry then VRetryAfter (retryAfter_of response)
          else VThrow (new_CladoRateLimitError (retryAfter_of response)
                                               errorMessage)
        else if (status >=? 500) && may_retry then VBackoff None
        else VThrow (new_CladoError status errorMessage)
  end.

(** The events of a retry with backoff, after the fetch: the draw of
    [Math.random()] and the sleep of the delay computed from it. *)
Definition backoff_events (env : Env) (t : Trace) (attempt : Z) : Trace :=
  [EvRandom;
   EvSleep (Some (calculateBackoff_at (Math_random env (count is_random t))
                    attempt DEFAULT_initialDelayMs DEFAULT_maxDelayMs))].

(** The kind of error that the classifier gives to a status. *)
Definition classify (status : Z) : ErrorKind :=
  if status =? 401 then Auth
  else if status =? 404 then NotFound
  else if status =? 422 then Validation
  else if status =? 429 then RateLimit
  else Generic.

(** What [buildUrl] puts in the query for a parameter value, as the
    first value under its key. *)
Definition query_value (v : JS) : option string :=
  if nullish v then None
  else
    match v with
    | JArr [] => None
    | JArr (item :: _) => Some (ToString item)
    | _ => Some (ToString v)
    end.

(** A query parameter of a request. *)
Definition query_param (req : FetchRequest) (k : string) : option string :=
  sp_get (url_query (fr_url req)) k.

(** The fetch request of [getDeepResearchStatus]. *)
Definition status_request (client : CladoClient) (jobId : string)
  : FetchRequest :=
  fetch_request
    (buildUrl (baseUrl client) ("/api/search/deep_research/" ++ jobId) None)
    (apiKey client) no_options.

(** The fetch request of [searchPeople]. *)
Definition search_request (client : CladoClient) (options : Obj)
  : FetchRequest :=
  fetch_request
    (buildUrl (baseUrl client) "/api/search" (Some (toSnakeCase options)))
    (apiKey client) no_options.

(** The fetch request of the page of [searchPeopleAll] at a cursor. *)
Definition page_request (client : CladoClient) (options : Obj)
           (searchId : JS) (offset limit : Z) : FetchRequest :=
  search_request client (page_options options searchId offset limit).

(** The events of [k] polls that found the job running: the fetch, the
    clock reading of the timeout check, the sleep. *)
Fixpoint waiting_polls (req : FetchRequest) (pollInterval : Z) (k : nat)
  : Trace :=
  match k with
  | O => []
  | S k' =>
      EvFetch req :: EvNow :: EvSleep (Some (inject_Z pollInterval))
        :: waiting_polls req pollInterval k'
  end.

(* ------------------------------------------------------------------ *)
(** ** Predicates of the statements *)

(** A run that came to an end: it returned or threw. *)
Definition settled {A} (o : Outcome A) : Prop :=
  match o with
  | Returned _ | Thrown _ => True
  | OutOfFuel | IllTyped => False
  end.

(** Every exchange answers with the HTTP status [code]. *)
Definition always_status (env : Env) (code : Z) : Prop :=
  forall n req, exists response,
    fetch env n req = Responded response /\ rs_status response = code.

(** The exchange number [n] answers the request [req] with a 200 whose
    body parses to [payload]. *)
Definition answers_to (env : Env) (n : nat) (req : FetchRequest)
           (payload : JS) : Prop :=
  exists response text,
    fetch env n req = Responded response /\
    ok response = true /\
    rs_body response = BodyText text (ParseOk payload) /\
    text <> "".

(** The exchange number [n] answers so, whatever the request. *)
Definition answers (env : Env) (n : nat) (payload : JS) : Prop :=
  forall req, answers_to env n req payload.

(** The renaming contract of the normaliser, read literally: every entry
    of the input is found in the result under its wire name when the key is
    in the table, under its own name otherwise. *)
Definition renamed_as_stated (obj result : Obj) : Prop :=
  forall k v, In (k, v) obj ->
    match table_get snakeCaseMap k with
    | Some wire => obj_get result wire = Some v
    | None => obj_get result k = Some v
    end.

(** The composition of the request headers, read literally: the value of
    the caller wins for every header name; without one, [Authorization],
    [Accept] and, with a body, [Content-Type] have their defaults. *)
Definition headers_as_stated (apiKey : string) (headers : Dict string)
           (body : JS) (sent : Dict string) : Prop :=
  forall name,
    obj_get sent name =
    match obj_get headers name with
    | Some v => Some v
    | None =>
        if String.eqb name "Authorization" then Some ("Bearer " ++ apiKey)
        else if String.eqb name "Accept" then Some "application/json"
        else if String.eqb name "Content-Type" then
          if truthy body then Some "application/json" else None
        else None
    end.

(** The job status of a status payload. *)
Definition status_is (payload : JS) (s : string) : Prop :=
  exists st, get_prop payload "status" = Some st /\ is_string st s = true.

(** A status payload of a job that is neither completed nor failed. *)
Definition nonterminal (payload : JS) : Prop :=
  exists st, get_prop payload "status" = Some st /\
             is_string st "completed" = false /\
             is_string st "failed" = false.

(** A number in the query of a request, as a server reads it. *)
Definition nat_param (req : FetchRequest) (k : string) (default : nat) : nat :=
  match query_param req k with
  | Some s =>
      match parseInt10 s with
      | Some z => Z.to_nat z
      | None => default
      end
  | None => default
  end.

(** The page of [items] at an offset, of at most [limit] items. *)
Definition page (items : list JS) (offset limit : nat) : list JS :=
  firstn limit (skipn offset items).

(** [env] reports the total of [items] and returns pages of up to [limit]
    items, with the token [search_id]. *)
Definition serves_pages (env : Env) (items : list JS) (search_id : string)
  : Prop :=
  forall n req, exists payload,
    answers_to env n req payload /\
    get_prop payload "results" =
      Some (JArr (page items (nat_param req "offset" 0)
                       (nat_param req "limit" 30))) /\
    get_prop payload "total" = Some (JNum (Z.of_nat (List.length items))) /\
    get_prop payload "search_id" = Some (JStr search_id).

(* ------------------------------------------------------------------ *)
(** ** Scripted worlds, for the examples *)

Definition dquote : string := String (ascii_of_nat 34) "".

(** A JSON text for a value (strings without escapes). *)
Fixpoint demo_stringify (v : JS) : string :=
  match v with
  | JUndefined | JNull => "null"
  | JBool true => "true"
  | JBool false => "false"
  | JNum n => string_of_Z n
  | JStr s => dquote ++ s ++ dquote
  | JArr items => "[" ++ join "," (map demo_stringify items) ++ "]"
  | JObj fields =>
      "{" ++ join ","
               (map (fun kv => dquote ++ fst kv ++ dquote ++ ":"
                                 ++ demo_stringify (snd kv)) fields)
          ++ "}"
  end.

(** A world with the given network: every draw of [Math.random()] is 0.5
    (no jitter), and the clock advances one second per reading. *)
Definition demo_env (script : nat -> FetchRequest -> Exchange) : Env :=
  {| fetch := script;
     Math_random := fun _ => (1 # 2)%Q;
     Date_now := fun n => 1000 * Z.of_nat n |}.

(** A response with a JSON body. *)
Definition respond (status : Z) (statusText : string)
           (headers : Dict string) (payload : JS) : Exchange :=
  Responded {| rs_status := status; rs_statusText := statusText;
               rs_headers := headers;
               rs_body := BodyText (demo_stringify payload) (ParseOk payload) |}.

Definition demo_url : Url :=
  {| url_base := "https://search.clado.ai"; url_path := "/api/credits";
     url_query := [] |}.

(** A client, and the default options of the poller. *)
Definition demo_client : CladoClient :=
  {| apiKey := "lk_test"; baseUrl := "https://search.clado.ai" |}.

Definition default_wait : WaitForDeepResearchOptions :=
  {| pollInterval := None; timeout := None |}.

(** The options [{ retry: false }]. *)
Definition no_retry : RequestOptions :=
  {| ro_method := None; ro_body := JUndefined; ro_headers := None;
     ro_retry := Some false; ro_maxRetries := None |}.

(** The server of the unit test of the retry budget: always 500. *)
Definition server_error : JS := JObj [("detail", JStr "Internal server error")].
Definition env_always_500 : Env :=
  demo_env (fun _ _ => respond 500 "Internal Server Error" [] server_error).

(** A server that answers 429 with [Retry-After: 2] to the even calls and
    500 to the odd ones. *)
Definition env_429_then_500 : Env :=
  demo_env (fun n _ =>
    if Nat.even n
    then respond 429 "Too Many Requests" [("retry-after", "2")]
                 (JObj [("detail", JStr "Rate limit exceeded")])
    else respond 500 "Internal Server Error" [] server_error).

(** A 200 answer whose body is an HTML page. *)
Definition env_html_page : Env :=
  demo_env (fun _ _ =>
    Responded {| rs_status := 200; rs_statusText := "OK"; rs_headers := [];
                 rs_body := BodyText "<html>Bad gateway</html>"
                              (SyntaxError "Unexpected token '<'") |}).

(** A 429 answer whose [Retry-After] is an HTTP date (RFC 9110 allows a
    date as well as a number of seconds). *)
Definition env_retry_after_date : Env :=
  demo_env (fun _ _ =>
    respond 429 "Too Many Requests"
            [("Retry-After", "Wed, 21 Oct 2026 07:28:00 GMT")]
            (JObj [("detail", JStr "Rate limit exceeded")])).

(** The job of the example: pending, then in progress, then completed
    with one result. *)
Definition job_payload (status : string) (more : Obj) : JS :=
  JObj (("job_id", JStr "job-1") :: ("status", JStr status) :: more).

Definition job_script (n : nat) : JS :=
  match n with
  | 0%nat => job_payload "pending" []
  | 1%nat => job_payload "in_progress" []
  | _ => job_payload "completed" [("total", JNum 1)]
  end.

Definition env_job : Env :=
  demo_env (fun n _ => respond 200 "OK" [] (job_script n)).

(** A job that has failed, and whose status carries no error text. *)
Definition env_failed_job : Env :=
  demo_env (fun _ _ => respond 200 "OK" [] (job_payload "failed" [])).

(** The server of the pagination test: it holds [items], and answers a
    search request with the page at the [offset] and of the [limit] of the
    query, the total and a search token. *)
Definition page_payload (items : list JS) (search_id : string)
           (req : FetchRequest) : JS :=
  JObj [("results",
         JArr (page items (nat_param req "offset" 0) (nat_param req "limit" 30)));
        ("total", JNum (Z.of_nat (List.length items)));
        ("query", JStr (or_else (query_param req "query") ""));
        ("search_id", JStr search_id)].

Definition paging_server (items : list JS) (search_id : string)
  : nat -> FetchRequest -> Exchange :=
  fun _ req => respond 200 "OK" [] (page_payload items search_id req).

(** Thirty-one people, the options of the test, and its server. *)
Definition people : list JS :=
  map (fun n => JObj [("profile", JObj [("id", JNum (Z.of_nat n))])])
      (seq 1 31).

Definition engineers : Obj := [("query", JStr "engineers"); ("limit", JNum 30)].

Definition env_people : Env := demo_env (paging_server people "abc-123").

(* ================================================================== *)
(** * Statements of the further properties *)
(* ================================================================== *)

(** The pairs that one parameter contributes to the query. *)
Definition param_pairs (kv : string * JS) : list (string * string) :=
  let (key, value) := kv in
  if nullish value then []
  else
    match value with
    | JArr items => map (fun item => (key, ToString item)) items
    | _ => [(key, ToString value)]
    end.

(** The pairs of a query under the name [k], in order. *)
Definition occurrences (k : string) (q : list (string * string))
  : list (string * string) :=
  filter (fun p => String.eqb (fst p) k) q.

(** An error as the classifier builds it: the kind goes with the status,
    only a rate-limit error carries a retry-after value, and the message is
    the one of the base class. *)
Definition well_formed_error (e : CladoError) : Prop :=
  kind e = classify (status e) /\
  (retryAfter e <> None <-> kind e = RateLimit) /\
  exists detail, message e = base_message (status e) detail.

(** Every [fetch] is rejected: no response is ever obtained. *)
Definition always_rejected (env : Env) : Prop :=
  forall n req, exists reason, fetch env n req = Rejected reason.

(** Every exchange answers 429 with [Retry-After: seconds]. *)
Definition always_rate_limited (env : Env) (seconds : Z) : Prop :=
  forall n req, exists response,
    fetch env n req = Responded response /\
    rs_status response = 429 /\
    Headers_get (rs_headers response) "Retry-After"
    = Some (string_of_Z seconds).

(** The sleep of [ms] that a run of the request [req], started at the
    trace [t] with the attempt number [first], makes after its events
    [before] is accounted for.  Either the fetch just made got a 429
    response, and [ms] is the [Retry-After] of that response in
    milliseconds; or [Math.random()] was just drawn after a fetch, and [ms]
    is the backoff delay computed from that draw and the number of the
    attempt, which is at most [maxDelayMs]. *)
Definition sleep_accounted (env : Env) (req : FetchRequest) (first : Z)
           (t before : Trace) (ms : option Q) : Prop :=
  (exists earlier response,
      before = (earlier ++ [EvFetch req])%list /\
      fetch env (count is_fetch (t ++ earlier)%list) req = Responded response /\
      rs_status response = 429 /\
      ms = seconds_to_ms (retryAfter_of response)) \/
  (exists earlier,
      before = (earlier ++ [EvFetch req; EvRandom])%list /\
      ms = Some (calculateBackoff_at
                   (Math_random env (count is_random (t ++ earlier)%list))
                   (first + Z.of_nat (count is_fetch earlier))
                   DEFAULT_initialDelayMs DEFAULT_maxDelayMs) /\
      exists q, ms = Some q /\ (q <= DEFAULT_maxDelayMs)%Q).

(** A network that is down, and one that limits the rate. *)
Definition env_offline : Env :=
  demo_env (fun _ _ => Rejected "connection refused").

Definition env_rate_limited : Env :=
  demo_env (fun _ _ =>
    respond 429 "Too Many Requests" [("Retry-After", "7")]
            (JObj [("detail", JStr "Rate limit exceeded")])).

(* ------------------------------------------------------------------ *)
(** ** client.ts: the constructor and the other methods *)

Definition DEFAULT_BASE_URL : string := "https://search.clado.ai".

Record CladoClientOptions := {
  co_apiKey : option string;
  co_baseUrl : option string
}.

(** [if (s)] on a string that may be [undefined]. *)
Definition given (s : option string) : bool :=
  match s with
  | Some s => negb (String.eqb s "")
  | None => false
  end.

(** [new CladoClient(options)]; [CLADO_API_KEY] is what
    [Deno.env.get("CLADO_API_KEY")] returns. *)
Definition new_CladoClient (CLADO_API_KEY : option string)
           (options : CladoClientOptions) : Exn + CladoClient :=
  let with_key key :=
    inr {| apiKey := key;
           baseUrl := or_else (co_baseUrl options) DEFAULT_BASE_URL |} in
  if given (co_apiKey options) then with_key (or_else (co_apiKey options) "")
  else
    let envKey := CLADO_API_KEY in
    if negb (given envKey) then
      inl (Foreign "API key not provided and CLADO_API_KEY env var is not set")
    else with_key (or_else envKey "").

(** [{ method: "POST", body }] *)
Definition post_options (body : JS) : RequestOptions :=
  {| ro_method := Some "POST"; ro_body := body; ro_headers := None;
     ro_retry := None; ro_maxRetries := None |}.

(** An optional argument, as a value. *)
Definition optional (options : option Obj) : JS :=
  match options with
  | Some o => JObj o
  | None => JUndefined
  end.

Section ClientMethods.
Variable env : Env.
Variable client : CladoClient.

Definition initiateDeepResearch (options : Obj) : M JS :=
  let url := buildUrl (baseUrl client) "/api/search/deep_research" None in
  request env url (apiKey client) (post_options (JObj options)).

Definition cancelDeepResearch (jobId : string) : M JS :=
  let url :=
    buildUrl (baseUrl client)
             ("/api/search/deep_research/" ++ jobId ++ "/cancel") None in
  request env url (apiKey client) (post_options JUndefined).

Definition continueDeepResearch (jobId : string) (options : option Obj)
  : M JS :=
  let url :=
    buildUrl (baseUrl client)
             ("/api/search/deep_research/" ++ jobId ++ "/continue") None in
  request env url (apiKey client) (post_options (optional options)).

Definition getContactInfo (options : Obj) : M JS :=
  let params := toSnakeCase options in
  let url := buildUrl (baseUrl client) "/api/enrich/contact" (Some params) in
  request env url (apiKey client) no_options.

Definition scrapeLinkedInProfile (options : Obj) : M JS :=
  let params := toSnakeCase options in
  let url := buildUrl (baseUrl client) "/api/enrich/linkedin" (Some params) in
  request env url (apiKey client) no_options.

Definition getLinkedInProfile (options : Obj) : M JS :=
  let params :=
    obj_set (obj_spread [] (toSnakeCase options)) "database" (JBool true) in
  let url := buildUrl (baseUrl client) "/api/enrich/linkedin" (Some params) in
  request env url (apiKey client) no_options.

Definition getPostReactions (options : Obj) : M JS :=
  let params := toSnakeCase options in
  let url := buildUrl (baseUrl client) "/api/enrich/reactions" (Some params) in
  request env url (apiKey client) no_options.

Definition getCredits : M JS :=
  let url := buildUrl (baseUrl client) "/api/credits" None in
  request env url (apiKey client) no_options.
End ClientMethods.

(** The calls of the client that make one request. *)
Inductive ApiCall :=
| SearchPeople (options : Obj)
| InitiateDeepResearch (options : Obj)
| GetDeepResearchStatus (jobId : string)
| CancelDeepResearch (jobId : string)
| ContinueDeepResearch (jobId : string) (options : option Obj)
| GetContactInfo (options : Obj)
| ScrapeLinkedInProfile (options : Obj)
| GetLinkedInProfile (options : Obj)
| GetPostReactions (options : Obj)
| GetCredits.

Definition perform (env : Env) (client : CladoClient) (call : ApiCall)
  : M JS :=
  match call with
  | SearchPeople options => searchPeople env client options
  | InitiateDeepResearch options => initiateDeepResearch env client options
  | GetDeepResearchStatus jobId => getDeepResearchStatus env client jobId
  | CancelDeepResearch jobId => cancelDeepResearch env client jobId
  | ContinueDeepResearch jobId options =>
      continueDeepResearch env client jobId options
  | GetContactInfo options => getContactInfo env client options
  | ScrapeLinkedInProfile options => scrapeLinkedInProfile env client options
  | GetLinkedInProfile options => getLinkedInProfile env client options
  | GetPostReactions options => getPostReactions env client options
  | GetCredits => getCredits env client
  end.

(** What every request of the client has on the wire: the headers that
    [request] gives it, and a method that goes with its body. *)
Definition on_the_wire (client : CladoClient) (r : FetchRequest) : Prop :=
  obj_get (fr_headers r) "Authorization" = Some ("Bearer " ++ apiKey client) /\
  obj_get (fr_headers r) "Accept" = Some "application/json" /\
  obj_get (fr_headers r) "Content-Type" =
    match fr_body r with
    | Some _ => Some "application/json"
    | None => None
    end /\
  keys (fr_headers r) =
    match fr_body r with
    | Some _ => ["Authorization"; "Accept"; "Content-Type"]
    | None => ["Authorization"; "Accept"]
    end /\
  (fr_method r = "GET" /\ fr_body r = None \/ fr_method r = "POST").

(* ------------------------------------------------------------------ *)
(** ** The pages of the iterator *)

(** The requests of [k] successive full pages from a cursor: after the
    first, the cursor carries the token of the server. *)
Fixpoint page_requests (client : CladoClient) (options : Obj) (limit : Z)
         (search_id : string) (searchId : JS) (offset : Z) (k : nat)
  : list FetchRequest :=
  match k with
  | O => []
  | S k' =>
      page_request client options searchId offset limit
        :: page_requests client options limit search_id (JStr search_id)
                         (offset + limit) k'
  end.

(** Ten people to a page. *)
Definition engineers_by_ten : Obj :=
  [("query", JStr "engineers"); ("limit", JNum 10)].

(** No one to a page. *)
Definition engineers_by_zero : Obj :=
  [("query", JStr "engineers"); ("limit", JNum 0)].

(* ------------------------------------------------------------------ *)
(** ** A job that is gone *)

(** The status endpoint answers 404. *)
Definition env_job_gone : Env :=
  demo_env (fun _ _ =>
    respond 404 "Not Found" [] (JObj [("detail", JStr "Job not found")])).

(* ================================================================== *)
(** * examples/error_handling.ts: the wrapper service *)
(* ================================================================== *)

Record CladoService := {
  sv_client : CladoClient;
  sv_maxRetries : Z
}.

(** [new CladoService(apiKey, maxRetries)] *)
Definition new_CladoService (CLADO_API_KEY : option string)
           (apiKey : option string) (maxRetries : option Z)
  : Exn + CladoService :=
  match new_CladoClient CLADO_API_KEY
          {| co_apiKey := apiKey; co_baseUrl := None |} with
  | inl e => inl e
  | inr client =>
      inr {| sv_client := client; sv_maxRetries := or_else maxRetries 3 |}
  end.

(** [try { c } catch (error) { handler }] *)
Definition try_catch {A} (c : M A) (handler : Exn -> M A) : M A :=
  fun t =>
    match c t with
    | (Thrown error, t') => handler error t'
    | done => done
    end.

(** [error instanceof K], for a subclass [K] of [CladoError]. *)
Definition is_a (e : CladoError) (k : ErrorKind) : bool :=
  match kind e, k with
  | Generic, Generic | Auth, Auth | RateLimit, RateLimit
  | NotFound, NotFound | Validation, Validation => true
  | _, _ => false
  end.

(** [error.retryAfter * 1000]; without the field, [NaN]. *)
Definition retryAfter_ms (e : CladoError) : option Q :=
  match retryAfter e with
  | Some seconds => seconds_to_ms seconds
  | None => None
  end.

(** The [for] loop of [withRetry]; one unit of fuel per iteration. *)
Fixpoint withRetry_loop (fuel : nat) (maxRetries : Z) (fn : M JS) (i : Z)
         (lastError : option Exn) : M JS :=
  if i <=? maxRetries then
    match fuel with
    | O => out_of_fuel
    | S fuel' =>
        try_catch fn
          (fun error =>
             let continue :=
               withRetry_loop fuel' maxRetries fn (i + 1) (Some error) in
             match error with
             | Clado e =>
                 if is_a e Auth || is_a e Validation then throw error
                 else if is_a e RateLimit then
                   sleep (retryAfter_ms e) ;;;
                   continue
                 else if (status e >=? 500) && (i <? maxRetries) then
                   sleep (Some (inject_Z (2 ^ i * 1000))) ;;;
                   continue
                 else throw error
             | Foreign _ => throw error
             end)
    end
  else
    throw (or_else lastError (Foreign "Unknown error after retries")).

Definition withRetry (maxRetries : Z) (fn : M JS) : M JS :=
  withRetry_loop (Z.to_nat (maxRetries + 1)) maxRetries fn 0 None.

Section Service.
Variable env : Env.
Variable service : CladoService.

Definition CladoService_searchPeople (query : string) (limit : option Z)
  : M JS :=
  withRetry (sv_maxRetries service)
    (searchPeople env (sv_client service)
       [("query", JStr query); ("limit", JNum (or_else limit 30));
        ("advancedFiltering", JBool true)]).

Definition CladoService_getProfile (linkedinUrl : string) : M JS :=
  withRetry (sv_maxRetries service)
    (scrapeLinkedInProfile env (sv_client service)
       [("linkedinUrl", JStr linkedinUrl); ("includePosts", JBool false)]).
End Service.

(** The calls of the service. *)
Inductive ServiceCall :=
| ServiceSearchPeople (query : string) (limit : option Z)
| ServiceGetProfile (linkedinUrl : string).

Definition serve (env : Env) (service : CladoService) (call : ServiceCall)
  : M JS :=
  match call with
  | ServiceSearchPeople query limit =>
      CladoService_searchPeople env service query limit
  | ServiceGetProfile linkedinUrl =>
      CladoService_getProfile env service linkedinUrl
  end.

Definition demo_service : CladoService :=
  {| sv_client := demo_client; sv_maxRetries := 3 |}.

(* ================================================================== *)
(** * examples/working_with_profiles.ts: profile analysis *)
(* ================================================================== *)

(** The fields of the API types that [getCompanyHistory],
    [getHighestDegree] and [analyzePostEngagement] read.  [None] is a field
    that is absent, [undefined] or [null]; the numbers are integers. *)
Record Experience := {
  company_name : option string
}.

Record Education := {
  degree : option string;
  school_name : option string
}.

Record Post := {
  totalReactionCount : option Z;
  commentsCount : option Z
}.

(** [[...new Set(items)]]: the items in the order of their first
    occurrence. *)
Definition Set_values (items : list string) : list string :=
  fold_left (fun set x => if mem_string x set then set else (set ++ [x])%list)
            items [].

Definition getCompanyHistory (experience : option (list Experience))
  : list string :=
  match experience with
  | None => []
  | Some experience =>
      Set_values
        (map (fun name => or_else name "")
             (filter given (map company_name experience)))
  end.

Definition degreeRank : list (string * Z) :=
  [("Doctor", 5); ("PhD", 5); ("Master", 4); ("MBA", 4); ("Bachelor", 3);
   ("Associate", 2)].

(** [s.includes(key)] *)
Fixpoint includes (s key : string) : bool :=
  String.prefix key s ||
  match s with
  | String _ s' => includes s' key
  | EmptyString => false
  end.

(** [Object.entries(degreeRank).find(([key]) => degree?.includes(key))?.[1]
    ?? 0] *)
Definition rank_of (degree : option string) : Z :=
  match find (fun entry =>
                match degree with
                | Some d => includes d (fst entry)
                | None => false
                end) degreeRank with
  | Some entry => snd entry
  | None => 0
  end.

Definition getHighestDegree (education : option (list Education))
  : option Education :=
  match education with
  | None | Some [] => None
  | Some (first :: rest) =>
      Some (fold_left
              (fun highest current =>
                 let currentRank := rank_of (degree current) in
                 let highestRank := rank_of (degree highest) in
                 if currentRank >? highestRank then current else highest)
              (first :: rest) first)
  end.

(** [Math.round(total / n)] for integers and [n > 0]: the nearest integer,
    the upper one of two. *)
Definition Math_round_div (total n : Z) : Z := (2 * total + n) / (2 * n).

Record Engagement := {
  totalPosts : Z;
  avgReactions : Z;
  avgComments : Z;
  topPost : option Post
}.

Definition analyzePostEngagement (posts : option (list Post)) : Engagement :=
  match posts with
  | None | Some [] =>
      {| totalPosts := 0; avgReactions := 0; avgComments := 0;
         topPost := None |}
  | Some (first :: rest) =>
      let posts := first :: rest in
      let totalReactions :=
        fold_left (fun sum p => sum + or_else (totalReactionCount p) 0)
                  posts 0 in
      let totalComments :=
        fold_left (fun sum p => sum + or_else (commentsCount p) 0) posts 0 in
      let topPost :=
        fold_left
          (fun top current =>
             if or_else (totalReactionCount current) 0
                >? or_else (totalReactionCount top) 0
             then current else top)
          posts first in
      let length := Z.of_nat (List.length posts) in
      {| totalPosts := length;
         avgReactions := Math_round_div totalReactions length;
         avgComments := Math_round_div totalComments length;
         topPost := Some topPost |}
  end.

(** The sum of a count over the posts. *)
Definition total_of (f : Post -> option Z) (posts : list Post) : Z :=
  fold_right (fun p sum => or_else (f p) 0 + sum) 0 posts.

(** The text [title] occurs in the degree. *)
Definition mentions (degree : option string) (title : string) : Prop :=
  exists d before after,
    degree = Some d /\ d = (before ++ title ++ after)%string.

(** [rank] ranks a degree by the titles that occur in it: a doctorate 5, a
    master's degree 4, a bachelor's degree 3, an associate degree 2, and
    0 otherwise; the higher title decides. *)
Definition ranks_by_title (rank : option string -> Z) : Prop :=
  forall degree,
    let m := mentions degree in
    (m "Doctor" \/ m "PhD" -> rank degree = 5) /\
    (~ (m "Doctor" \/ m "PhD") ->
     (m "Master" \/ m "MBA" -> rank degree = 4) /\
     (~ (m "Master" \/ m "MBA") ->
      (m "Bachelor" -> rank degree = 3) /\
      (~ m "Bachelor" ->
       (m "Associate" -> rank degree = 2) /\
       (~ m "Associate" -> rank degree = 0)))).

(** [x] is the first of the greatest elements of [l] under [f]. *)
Definition first_greatest {A} (f : A -> Z) (x : A) (l : list A) : Prop :=
  exists before after,
    l = (before ++ x :: after)%list /\
    (forall y, In y before -> f y < f x) /\
    (forall y, In y after -> f y <= f x).

(** [n] is [total / count] rounded to the nearest integer. *)
Definition nearest (n total count : Z) : Prop :=
  2 * count * n - count <= 2 * total < 2 * count * n + count.

Definition demo_education : list Education :=
  [ {| degree := Some "Bachelor of Science"; school_name := Some "MIT" |};
    {| degree := None; school_name := Some "Coursera" |};
    {| degree := Some "PhD in Physics"; school_name := Some "ETH" |};
    {| degree := Some "Doctor of Philosophy"; school_name := Some "Oxford" |} ].

Definition demo_posts : list Post :=
  [ {| totalReactionCount := Some 3; commentsCount := Some 1 |};
    {| totalReactionCount := None; commentsCount := Some 2 |};
    {| totalReactionCount := Some 8; commentsCount := None |};
    {| totalReactionCount := Some 8; commentsCount := Some 4 |} ].

(* ================================================================== *)
(** * examples/error_handling.ts: the handlers *)
(* ================================================================== *)

(** What the handlers print on the console is not part of the trace. *)

(** [v.k], as a computation: the [TypeError] of a read on [undefined] or
    [null] is thrown. *)
Definition read (v : JS) (k : string) : M JS :=
  match get_prop v k with
  | Some x => ret x
  | None =>
      throw (Foreign ("Cannot read properties of null (reading '" ++ k ++ "')"))
  end.

(** [v ?? undefined] *)
Definition or_undefined (v : JS) : JS := if nullish v then JUndefined else v.

(** [{ pollInterval: 2000, timeout: 60000 }] *)
Definition one_minute : WaitForDeepResearchOptions :=
  {| pollInterval := Some 2000; timeout := Some 60000 |}.

Section Handlers.
Variable env : Env.
Variable client : CladoClient.

Definition searchWithFullErrorHandling (query : string) : M JS :=
  let search :=
    searchPeople env client [("query", JStr query); ("limit", JNum 10)] in
  try_catch search
    (fun error =>
       match error with
       | Clado e =>
           if is_a e RateLimit then
             sleep (retryAfter_ms e) ;;;
             search
           else if is_a e Auth then throw error
           else if is_a e Validation then throw error
           else if is_a e NotFound then ret JNull
           else throw error
       | Foreign _ => throw error
       end).

(** [{ name: response.profile.name, headline: response.profile.headline }] *)
Definition profile_data (response : JS) : M (Dict JS) :=
  profile <- read response "profile" ;;
  name <- read profile "name" ;;
  headline <- read profile "headline" ;;
  ret [("name", name); ("headline", headline)].

Definition _getProfileWithGracefulDegradation (linkedinUrl : string) : M JS :=
  try_catch
    (profile <- scrapeLinkedInProfile env client
                  [("linkedinUrl", JStr linkedinUrl);
                   ("includePosts", JBool true)] ;;
     result <- profile_data profile ;;
     try_catch
       (contact <- getContactInfo env client
                     [("linkedinUrl", JStr linkedinUrl);
                      ("enrichEmail", JBool true);
                      ("enrichPhone", JBool true)] ;;
        email <- read contact "email" ;;
        phone <- read contact "phone" ;;
        ret (JObj (obj_set (obj_set result "email" (or_undefined email))
                           "phone" (or_undefined phone))))
       (fun _ => ret (JObj result)))
    (fun error =>
       match error with
       | Clado e =>
           if status e >=? 500 then
             try_catch
               (cached <- getLinkedInProfile env client
                            [("linkedinUrl", JStr linkedinUrl)] ;;
                result <- profile_data cached ;;
                ret (JObj result))
               (fun _ => ret JNull)
           else ret JNull
       | Foreign _ => ret JNull
       end).

(** The [catch] clause of [_runDeepResearchSafely], at the value that
    [jobId] has when the error is raised. *)
Definition runDeepResearchSafely_catch (jobId : JS) (error : Exn) : M JS :=
  match error with
  | Clado e =>
      (if status e =? 408 then
         if truthy jobId then
           try_catch
             (cancelDeepResearch env client (ToString jobId) ;;; ret tt)
             (fun _ => ret tt)
         else ret tt
       else ret tt) ;;;
      ret JNull
  | Foreign _ => ret JNull
  end.

(** [jobId] is [null] until the job is started; one unit of fuel per poll
    of the job. *)
Definition _runDeepResearchSafely (fuel : nat) (query : string) : M JS :=
  fun t =>
    match initiateDeepResearch env client
            [("query", JStr query); ("limit", JNum 20)] t with
    | (Returned job, t1) =>
        match get_prop job "job_id" with
        | Some jobId =>
            try_catch
              (waitForDeepResearch env client fuel (ToString jobId)
                                   one_minute)
              (runDeepResearchSafely_catch jobId) t1
        | None =>
            runDeepResearchSafely_catch JNull
              (Foreign "Cannot read properties of null (reading 'job_id')")
              t1
        end
    | (Thrown error, t1) => runDeepResearchSafely_catch JNull error t1
    | other => other
    end.
End Handlers.

(** The requests of [_runDeepResearchSafely]. *)
Definition research_request (client : CladoClient) (query : string)
  : FetchRequest :=
  fetch_request (buildUrl (baseUrl client) "/api/search/deep_research" None)
                (apiKey client)
                (post_options (JObj [("query", JStr query);
                                     ("limit", JNum 20)])).

Definition cancel_request (client : CladoClient) (jobId : string)
  : FetchRequest :=
  fetch_request
    (buildUrl (baseUrl client)
              ("/api/search/deep_research/" ++ jobId ++ "/cancel") None)
    (apiKey client) (post_options JUndefined).

(** What a handler may end in: [null], or a value of the given kind. *)
Definition null_or (P : JS -> Prop) (out : Outcome JS) : Prop :=
  match out with
  | Returned v => v = JNull \/ P v
  | Thrown _ | IllTyped => False
  | OutOfFuel => True
  end.

(** An object with a name and a headline. *)
Definition has_profile_data (v : JS) : Prop :=
  exists o, v = JObj o /\ In "name" (keys o) /\ In "headline" (keys o).

(** A job that starts and then stays in progress, under a clock that
    advances two minutes per reading. *)
Definition env_slow_job : Env :=
  {| fetch := fun n _ =>
       match n with
       | O => respond 200 "OK" [] (JObj [("job_id", JStr "job-1");
                                          ("status", JStr "pending")])
       | _ => respond 200 "OK" [] (JObj [("job_id", JStr "job-1");
                                          ("status", JStr "processing")])
       end;
     Math_random := fun _ => (1 # 2)%Q;
     Date_now := fun n => 120000 * Z.of_nat n |}.

(** A server that does not have what is asked for. *)
Definition env_not_found : Env :=
  demo_env (fun _ _ =>
    respond 404 "Not Found" [] (JObj [("detail", JStr "No such profile")])).


(* ================================================================== *)
(** * Objects *)
(* ================================================================== *)

Section DictFacts.
Context {V : Type}.
Implicit Types (o : Dict V) (k : string) (v : V).

Lemma obj_get_set_same o k v : obj_get (obj_set o k v) k = Some v.
Proof.
  induction o as [|[k' v'] o IH]; simpl.
  - now rewrite String.eqb_refl.
  - destruct (String.eqb k' k) eqn:E; simpl; rewrite E; auto.
Qed.

Lemma obj_get_set_other o k k' v :
  k <> k' -> obj_get (obj_set o k v) k' = obj_get o k'.
Proof.
  intros Hne. induction o as [|[k0 v0] o IH]; simpl.
  - destruct (String.eqb_spec k k'); [contradiction | reflexivity].
  - destruct (String.eqb_spec k0 k) as [->|Hk]; simpl.
    + destruct (String.eqb_spec k k'); [contradiction | reflexivity].
    + destruct (String.eqb k0 k'); auto.
Qed.

Lemma keys_obj_set o k v :
  forall k', In k' (keys (obj_set o k v)) <-> In k' (keys o) \/ k' = k.
Proof.
  intros k'. induction o as [|[k0 v0] o IH]; simpl.
  - intuition.
  - destruct (String.eqb_spec k0 k) as [->|Hk]; simpl.
    + intuition.
    + rewrite IH. intuition.
Qed.

Lemma obj_get_None_not_key o k : obj_get o k = None <-> ~ In k (keys o).
Proof.
  induction o as [|[k0 v0] o IH]; simpl.
  - intuition.
  - destruct (String.eqb_spec k0 k) as [->|Hk].
    + split; [discriminate | intros H; exfalso; apply H; now left].
    + rewrite IH. intuition.
Qed.

Lemma obj_get_In o k v :
  NoDup (keys o) -> In (k, v) o -> obj_get o k = Some v.
Proof.
  induction o as [|[k0 v0] o IH]; simpl; intros Hnd Hin; [contradiction|].
  inversion Hnd as [|? ? Hnotin Hnd']; subst.
  destruct Hin as [Heq|Hin].
  - inversion Heq; subst. now rewrite String.eqb_refl.
  - destruct (String.eqb_spec k0 k) as [->|Hk]; auto.
    exfalso. apply Hnotin. apply in_map_iff. now exists (k, v).
Qed.
Lemma NoDup_obj_set o k v : NoDup (keys o) -> NoDup (keys (obj_set o k v)).
Proof.
  induction o as [|[k0 v0] o IH]; simpl; intros Hnd.
  - repeat constructor. intros [].
  - inversion Hnd as [|? ? Hnotin Hnd']; subst.
    destruct (String.eqb_spec k0 k) as [->|Hne]; simpl.
    + now constructor.
    + constructor; auto. intros Hin.
      apply keys_obj_set in Hin. destruct Hin; auto.
Qed.

Lemma NoDup_obj_spread (b : Dict V) : forall a : Dict V,
  NoDup (keys a) -> NoDup (keys (obj_spread a b)).
Proof.
  unfold obj_spread. induction b as [|[k v] b IH]; intros a Hnd; simpl; auto.
  apply IH. now apply NoDup_obj_set.
Qed.

Lemma keys_obj_spread (b : Dict V) : forall (a : Dict V) k,
  In k (keys (obj_spread a b)) <-> In k (keys a) \/ In k (keys b).
Proof.
  unfold obj_spread. induction b as [|[k0 v0] b IH]; intros a k; simpl.
  - intuition.
  - rewrite IH, keys_obj_set. intuition.
Qed.

Lemma obj_get_Some_In o k v : obj_get o k = Some v -> In (k, v) o.
Proof.
  induction o as [|[k0 v0] o IH]; simpl; [discriminate|].
  destruct (String.eqb_spec k0 k) as [->|Hne]; intros H.
  - inversion H; subst. now left.
  - right. auto.
Qed.

(** A list in which the key [k] only ever carries [v]. *)
Lemma obj_get_all_same o k v :
  In (k, v) o -> (forall v', In (k, v') o -> v' = v) -> obj_get o k = Some v.
Proof.
  induction o as [|[k0 v0] o IH]; simpl; intros Hin Hall; [contradiction|].
  destruct (String.eqb_spec k0 k) as [->|Hne].
  - f_equal. apply Hall. now left.
  - apply IH; auto. destruct Hin as [Heq|Hin]; auto.
    inversion Heq; contradiction.
Qed.
End DictFacts.

(* ================================================================== *)
(** * Parameter normaliser *)
(* ================================================================== *)

(** The lookup of the result: the last entry whose translated key is the
    one asked for wins, earlier ones and the initial content are shadowed. *)
Lemma toSnakeCase_loop_get entries : forall result w,
  obj_get (toSnakeCase_loop entries result) w =
  match obj_get (rev (map (fun kv => (snakeKey (fst kv), snd kv)) entries)) w
  with
  | Some v => Some v
  | None => obj_get result w
  end.
Proof.
  unfold toSnakeCase_loop.
  induction entries as [|[k v] entries IH]; intros result w; simpl.
  - reflexivity.
  - rewrite IH.
    set (renamed := rev (map (fun kv => (snakeKey (fst kv), snd kv)) entries)).
    assert (Happ : forall (a b : Obj) x,
               obj_get (a ++ b)%list x =
               match obj_get a x with Some y => Some y | None => obj_get b x end).
    { induction a as [|[ka va] a IHa]; intros b x; simpl; auto.
      destruct (String.eqb ka x); auto. }
    rewrite Happ. destruct (obj_get renamed w); auto.
    simpl. destruct (String.eqb_spec (snakeKey k) w) as [<-|Hne].
    + apply obj_get_set_same.
    + now apply obj_get_set_other.
Qed.

Lemma toSnakeCase_loop_keys entries : forall result w,
  In w (keys (toSnakeCase_loop entries result)) <->
  In w (keys result) \/ In w (map snakeKey (keys entries)).
Proof.
  unfold toSnakeCase_loop.
  induction entries as [|[k v] entries IH]; intros result w; simpl.
  - intuition.
  - rewrite IH, keys_obj_set. intuition.
Qed.

Lemma NoDup_toSnakeCase obj : NoDup (keys (toSnakeCase obj)).
Proof.
  unfold toSnakeCase, toSnakeCase_loop.
  assert (H : forall result, NoDup (keys result) ->
              NoDup (keys (fold_left
                             (fun result kv =>
                                obj_set result (snakeKey (fst kv)) (snd kv))
                             obj result))).
  { induction obj as [|kv obj IH]; intros result Hnd; simpl; auto.
    apply IH. now apply NoDup_obj_set. }
  apply H. constructor.
Qed.

(** The entry of a key that alone has its wire name is found under that
    name. *)
Lemma toSnakeCase_get_alone obj k v :
  NoDup (keys obj) ->
  In (k, v) obj ->
  (forall k', In k' (keys obj) -> snakeKey k' = snakeKey k -> k' = k) ->
  obj_get (toSnakeCase obj) (snakeKey k) = Some v.
Proof.
  intros Hnd Hin Halone. unfold toSnakeCase.
  rewrite toSnakeCase_loop_get.
  rewrite (obj_get_all_same _ (snakeKey k) v); auto.
  - apply in_rev. rewrite rev_involutive. apply in_map_iff. now exists (k, v).
  - intros v' Hin'. apply in_rev in Hin'. apply in_map_iff in Hin'.
    destruct Hin' as [[k' v''] [Heq Hin']]. simpl in Heq.
    inversion Heq; subst.
    assert (k' = k).
    { apply Halone; auto. apply in_map_iff. now exists (k', v'). }
    subst.
    pose proof (obj_get_In obj k v Hnd Hin) as H1.
    pose proof (obj_get_In obj k v' Hnd Hin') as H2. congruence.
Qed.

Lemma table_get_In t k w : table_get t k = Some w -> In (k, w) t.
Proof.
  induction t as [|[k0 w0] t IH]; simpl; [discriminate|].
  destruct (String.eqb_spec k0 k) as [->|]; intros H.
  - inversion H. now left.
  - right; auto.
Qed.

(** Where the wire name of a key comes from. *)
Lemma snakeKey_cases k :
  (exists w, In (k, w) snakeCaseMap /\ snakeKey k = w) \/
  (In k Object_prototype_members /\ snakeKey k = inherited_as_key k) \/
  snakeKey k = k.
Proof.
  unfold snakeKey. destruct (table_get snakeCaseMap k) as [w|] eqn:E.
  - left. exists w. split; auto. now apply table_get_In.
  - destruct (mem_string k Object_prototype_members) eqn:M; auto.
    right. left. split; auto.
    unfold mem_string in M. apply existsb_exists in M.
    destruct M as [x [Hin Heq]]. apply String.eqb_eq in Heq. now subst.
Qed.

(** Solves [snakeKey k = "..." -> ...] by going through the table and the
    members of [Object.prototype]. *)
Ltac snakeKey_preimage k :=
  let H := fresh "H" in
  intros H;
  destruct (snakeKey_cases k) as [[w [Hin Hw]]|[[Hin Hw]|Hw]];
  [ rewrite Hw in H; subst w; simpl in Hin;
    repeat (destruct Hin as [Hin|Hin]; [inversion Hin; subst; auto|]);
    try contradiction; try discriminate
  | rewrite Hw in H; simpl in Hin;
    repeat (destruct Hin as [Hin|Hin];
            [subst k; vm_compute in H; discriminate|]);
    contradiction
  | rewrite Hw in H; auto ].

Lemma snakeKey_offset k : snakeKey k = "offset" -> k = "offset".
Proof. snakeKey_preimage k. Qed.

Lemma snakeKey_limit k : snakeKey k = "limit" -> k = "limit".
Proof. snakeKey_preimage k. Qed.

Lemma snakeKey_search_id k :
  snakeKey k = "search_id" -> k = "searchId" \/ k = "search_id".
Proof. snakeKey_preimage k. Qed.

Lemma snakeKey_own k :
  mem_string k Object_prototype_members = false ->
  snakeKey k = or_else (table_get snakeCaseMap k) k.
Proof. unfold snakeKey. intros ->. now destruct (table_get snakeCaseMap k). Qed.

Lemma heap_update_last (h : Heap) o f :
  heap_update (h ++ [o])%list (length h) f = (h ++ [f o])%list.
Proof. induction h; simpl; congruence. Qed.

Lemma toSnakeCase_heap_eq h l obj :
  heap_get h l = Some obj ->
  toSnakeCase_heap h l = Some ((h ++ [toSnakeCase obj])%list, length h).
Proof.
  unfold toSnakeCase_heap, heap_alloc, toSnakeCase, toSnakeCase_loop.
  intros ->. do 2 f_equal.
  generalize (@nil (string * JS)) as result.
  induction obj as [|kv obj IH]; intros result; simpl; auto.
  now rewrite heap_update_last, IH.
Qed.

(** C9, as stated, fails: with the keys [search_id] and [searchId] both
    present, the entry of [search_id], a key outside the table, is not
    found with its own value: the later entry [searchId] is written
    over it. *)
Lemma toSnakeCase_collision_overwrites :
  let obj := [("search_id", JNum 2); ("searchId", JNum 1)] in
  NoDup (keys obj) /\
  toSnakeCase obj = [("search_id", JNum 1)] /\
  ~ renamed_as_stated obj (toSnakeCase obj).
Proof.
  simpl. split; [|split].
  - repeat constructor; simpl; intuition discriminate.
  - reflexivity.
  - intros H. specialize (H "search_id" (JNum 2) (or_introl eq_refl)).
    vm_compute in H. discriminate.
Qed.

(** A key that names a member of [Object.prototype] is not passed through:
    the table lookup finds the inherited member, and the key of the result
    is that member turned into a string. *)
Example toSnakeCase_inherited_member :
  toSnakeCase [("toString", JNum 1); ("query", JStr "x")] =
  [("function toString() { [native code] }", JNum 1); ("query", JStr "x")].
Proof. reflexivity. Qed.

(** C9 (amended): for every input object none of whose keys is a member of
    [Object.prototype] and no two of whose keys have the same wire name,
    [toSnakeCase] returns a new object in which each key of the translation
    table is renamed to its snake_case form and every other key is found
    unchanged with its value ([undefined] included), with no further key;
    the input object and every other object of the store are left as they
    were. *)
Theorem toSnakeCase_renames_without_collision (h : Heap) (l : Loc) (obj : Obj) :
  heap_get h l = Some obj ->
  NoDup (keys obj) ->
  (forall k, In k (keys obj) -> mem_string k Object_prototype_members = false) ->
  (forall k1 k2, In k1 (keys obj) -> In k2 (keys obj) ->
                 snakeKey k1 = snakeKey k2 -> k1 = k2) ->
  exists h' result,
    toSnakeCase_heap h l = Some (h', result) /\
    result <> l /\
    heap_get h result = None /\
    heap_get h' l = Some obj /\
    (forall l', l' <> result -> heap_get h' l' = heap_get h l') /\
    heap_get h' result = Some (toSnakeCase obj) /\
    renamed_as_stated obj (toSnakeCase obj) /\
    (forall w, In w (keys (toSnakeCase obj)) ->
               exists k, In k (keys obj) /\
                         w = or_else (table_get snakeCaseMap k) k).
Proof.
  intros Hl Hnd Hproto Hinj.
  exists (h ++ [toSnakeCase obj])%list, (length h).
  assert (Hlt : (l < length h)%nat).
  { apply nth_error_Some. unfold heap_get in Hl. congruence. }
  unfold heap_get in *.
  repeat split.
  - now apply toSnakeCase_heap_eq.
  - lia.
  - apply nth_error_None. lia.
  - rewrite nth_error_app1; auto.
  - intros l' Hl'. destruct (Nat.lt_ge_cases l' (length h)) as [Hlt'|Hge].
    + now rewrite nth_error_app1.
    + rewrite nth_error_app2 by lia.
      destruct (l' - length h)%nat as [|n] eqn:E; [lia|].
      simpl. rewrite (proj2 (nth_error_None h l')) by lia.
      now destruct n.
  - rewrite nth_error_app2 by lia. now rewrite Nat.sub_diag.
  - intros k v Hin.
    assert (Hk : In k (keys obj)) by (apply in_map_iff; now exists (k, v)).
    assert (Hget : obj_get (toSnakeCase obj) (snakeKey k) = Some v)
      by (apply toSnakeCase_get_alone; auto).
    rewrite (snakeKey_own k (Hproto k Hk)) in Hget.
    destruct (table_get snakeCaseMap k); exact Hget.
  - intros w Hw. apply toSnakeCase_loop_keys in Hw. destruct Hw as [[]|Hw].
    apply in_map_iff in Hw. destruct Hw as [k [<- Hk]].
    exists k. split; auto. apply snakeKey_own. now apply Hproto.
Qed.

Lemma toSnakeCase_renames_without_collision_witness :
  let obj := [("searchId", JStr "abc"); ("query", JStr "engineers");
              ("limit", JUndefined)] in
  exists h' result,
    toSnakeCase_heap [obj] 0%nat = Some (h', result) /\
    result <> 0%nat /\
    heap_get [obj] result = None /\
    heap_get h' 0%nat = Some obj /\
    (forall l', l' <> result -> heap_get h' l' = heap_get [obj] l') /\
    heap_get h' result = Some (toSnakeCase obj) /\
    renamed_as_stated obj (toSnakeCase obj) /\
    (forall w, In w (keys (toSnakeCase obj)) ->
               exists k, In k (keys obj) /\
                         w = or_else (table_get snakeCaseMap k) k).
Proof.
  intros obj.
  apply (toSnakeCase_renames_without_collision [obj] 0%nat obj).
  - reflexivity.
  - repeat constructor; simpl; intuition discriminate.
  - simpl. intros k [<-|[<-|[<-|[]]]]; reflexivity.
  - simpl. intros k1 k2 [<-|[<-|[<-|[]]]] [<-|[<-|[<-|[]]]];
      vm_compute; congruence.
Defined.

(* ================================================================== *)
(** * Backoff calculator *)
(* ================================================================== *)

(** The jittered value is the exponential scaled by a factor between 0.9
    and 1.1. *)
Lemma jittered_delay (r : Q) (attempt : Z) (initialDelayMs : Q) :
  let delay := (initialDelayMs * Qpower 2 attempt)%Q in
  (delay + delay * (1 # 10) * (r * 2 - 1) ==
   delay * (1 + (1 # 10) * (2 * r - 1)))%Q.
Proof. simpl. ring. Qed.

(** C5, as stated, fails: there is no attempt, base, ceiling and draw at
    which the returned delay is above the ceiling. *)
Lemma calculateBackoff_never_above_ceiling :
  ~ exists (r : Q) (attempt : Z) (base ceiling : Q),
      (0 <= r)%Q /\ (r < 1)%Q /\
      (ceiling < base * Qpower 2 attempt)%Q /\
      (ceiling < calculateBackoff_at r attempt base ceiling)%Q.
Proof.
  intros (r & attempt & base & ceiling & _ & _ & _ & Habove).
  unfold calculateBackoff_at in Habove.
  apply Qlt_not_le in Habove. apply Habove. apply Q.le_min_r.
Qed.

(** C5 (amended): for every attempt, base, ceiling and jitter draw,
    [calculateBackoff] returns the smaller of the ceiling and the jittered
    exponential [base * 2^attempt * (1 + 0.1 * (2r - 1))]: the clamp is
    applied after the jitter is added, so the result is never above the
    ceiling. *)
Theorem calculateBackoff_clamps_after_jitter
        (r : Q) (attempt : Z) (base ceiling : Q) :
  (calculateBackoff_at r attempt base ceiling ==
   Qmin (base * Qpower 2 attempt * (1 + (1 # 10) * (2 * r - 1))) ceiling)%Q /\
  (calculateBackoff_at r attempt base ceiling <= ceiling)%Q.
Proof.
  unfold calculateBackoff_at. split.
  - rewrite <- (jittered_delay r attempt base). reflexivity.
  - apply Q.le_min_r.
Qed.

(** The case of the unit test: attempt 10, base 1000, ceiling 5000 gives
    the ceiling itself at every draw of [Math.random()]. *)
Lemma calculateBackoff_attempt10 (r : Q) :
  (0 <= r)%Q -> (calculateBackoff_at r 10 1000 5000 == 5000)%Q.
Proof.
  intros Hr. unfold calculateBackoff_at.
  apply Q.min_r.
  change (Qpower 2 10) with (1024 # 1)%Q.
  assert (H : (1000 * (1024 # 1) + 1000 * (1024 # 1) * (1 # 10) * (r * 2 - 1)
               == 921600 + 204800 * r)%Q) by ring.
  rewrite H.
  apply Qle_trans with (921600 + 204800 * 0)%Q.
  - vm_compute. discriminate.
  - apply Qplus_le_r. apply Qmult_le_l; [reflexivity | exact Hr].
Qed.

(* ================================================================== *)
(** * Request engine *)
(* ================================================================== *)

Lemma count_app p (t1 t2 : Trace) :
  count p (t1 ++ t2)%list = (count p t1 + count p t2)%nat.
Proof. unfold count. now rewrite filter_app, length_app. Qed.

Lemma count_cons p e (t : Trace) :
  count p (e :: t) = ((if p e then 1 else 0) + count p t)%nat.
Proof. unfold count. simpl. now destruct (p e). Qed.

(** Runs the draw and the sleep of a retry with backoff. *)
Ltac run_backoff Hrand :=
  repeat unfold bind, calculateBackoff, do_random, sleep, emit, ret;
  cbv beta iota; rewrite Hrand, <- !app_assoc; reflexivity.

Section EngineFacts.
Variable env : Env.

(** One iteration of the loop: the fetch, then what [verdict] says. *)
Lemma request_loop_iteration fuel req retry maxRetries attempt lastError t :
  attempt <= maxRetries ->
  request_loop env (S fuel) req retry maxRetries attempt lastError t =
  let t1 := (t ++ [EvFetch req])%list in
  match verdict (fetch env (count is_fetch t) req) retry maxRetries
                attempt with
  | VReturn value => (Returned value, t1)
  | VThrow e => (Thrown (Clado e), t1)
  | VRetryAfter retryAfter =>
      request_loop env fuel req retry maxRetries (attempt + 1) lastError
                   (t1 ++ [EvSleep (seconds_to_ms retryAfter)])%list
  | VBackoff newLastError =>
      request_loop env fuel req retry maxRetries (attempt + 1)
                   (match newLastError with
                    | Some e => Some e
                    | None => lastError
                    end)
                   (t1 ++ backoff_events env t attempt)%list
  end.
Proof.
  intros Hle. apply Z.leb_le in Hle.
  assert (Hrand : count is_random (t ++ [EvFetch req])%list
                  = count is_random t).
  { rewrite count_app. cbn. apply Nat.add_0_r. }
  unfold backoff_events. cbn [request_loop]. rewrite Hle.
  unfold bind at 1. unfold do_fetch at 1. unfold verdict.
  destruct (fetch env (count is_fetch t) req) as [response|reason].
  2:{ destruct (retry && (attempt <? maxRetries)); [|reflexivity].
      run_backoff Hrand. }
  destruct (ok response).
  - destruct (rs_body response) as [text json|reason].
    + destruct (String.eqb text ""); [reflexivity|].
      destruct (JSON_parse text json) as [value|reason]; [reflexivity|].
      destruct (retry && (attempt <? maxRetries)); [|reflexivity].
      run_backoff Hrand.
    + destruct (retry && (attempt <? maxRetries)); [|reflexivity].
      run_backoff Hrand.
  - destruct (rs_status response =? 401); [reflexivity|].
    destruct (rs_status response =? 404); [reflexivity|].
    destruct (rs_status response =? 422); [reflexivity|].
    destruct (rs_status response =? 429).
    + destruct (retry && (attempt <? maxRetries)); reflexivity.
    + rewrite <- andb_assoc.
      destruct (rs_status response >=? 500); simpl; [|reflexivity].
      destruct (retry && (attempt <? maxRetries)); [|reflexivity].
      run_backoff Hrand.
Qed.

Lemma request_loop_exhausted fuel req retry maxRetries attempt lastError t :
  maxRetries < attempt ->
  request_loop env fuel req retry maxRetries attempt lastError t =
  (Thrown (or_else lastError
             (Clado (new_CladoError 0 (JStr "Request failed after retries")))),
   t).
Proof.
  intros Hlt. apply Z.leb_gt in Hlt.
  destruct fuel; cbn [request_loop]; rewrite Hlt; reflexivity.
Qed.
End EngineFacts.

(** Case analysis on a scrutinee that is not itself a case analysis. *)
Ltac break_inner :=
  match goal with
  | |- context [match ?x with _ => _ end] =>
      lazymatch x with
      | context [match _ with _ => _ end] => fail
      | _ => destruct x
      end
  end.

Section RetryBudget.
Variable env : Env.
Variables (req : FetchRequest) (retry : bool) (maxRetries : Z).

(** A retry is only decided while attempts remain. *)
Lemma verdict_retry_has_budget exchange attempt :
  match verdict exchange retry maxRetries attempt with
  | VRetryAfter _ | VBackoff _ => retry = true /\ attempt < maxRetries
  | _ => True
  end.
Proof.
  unfold verdict. cbv zeta.
  destruct (retry && (attempt <? maxRetries)) eqn:E.
  - apply andb_true_iff in E. destruct E as [Hr E]. apply Z.ltb_lt in E.
    repeat break_inner; auto.
  - destruct exchange as [response|reason]; rewrite ?andb_false_r;
      repeat break_inner; auto.
Qed.

(** The loop only adds events: fetches of the one request [req], at most
    one per remaining attempt, and one sleep per retry; it comes to an
    end within the fuel that [request] gives it. *)
Lemma request_loop_bounded fuel : forall attempt lastError t,
  let run := request_loop env fuel req retry maxRetries attempt lastError t in
  exists evs,
    snd run = (t ++ evs)%list /\
    (forall r, In r (fetches evs) -> r = req) /\
    (count is_fetch evs <= Z.to_nat (maxRetries + 1 - attempt))%nat /\
    (count is_sleep evs <= Z.to_nat (maxRetries - attempt))%nat /\
    ((Z.to_nat (maxRetries + 1 - attempt) <= fuel)%nat ->
     settled (fst run) /\
     (attempt <= maxRetries ->
      count is_fetch evs = S (count is_sleep evs))).
Proof.
  induction fuel as [|fuel IH]; intros attempt lastError t run;
    destruct (Z.le_gt_cases attempt maxRetries) as [Hle|Hgt].
  - exists []. subst run. cbn [request_loop].
    rewrite (proj2 (Z.leb_le _ _) Hle). rewrite app_nil_r.
    repeat split; unfold count; simpl; try lia; contradiction.
  - exists []. subst run. rewrite request_loop_exhausted by lia.
    rewrite app_nil_r. repeat split; unfold count; simpl; try lia;
      contradiction.
  - subst run. rewrite request_loop_iteration by assumption.
    pose proof (verdict_retry_has_budget
                  (fetch env (count is_fetch t) req) attempt) as Hbudget.
    cbv zeta.
    destruct (verdict (fetch env (count is_fetch t) req) retry
                      maxRetries attempt) as [value|e|retryAfter|newLast].
    + exists [EvFetch req]. cbn. repeat split; auto; try lia.
      intros r [<-|[]]; reflexivity.
    + exists [EvFetch req]. cbn. repeat split; auto; try lia.
      intros r [<-|[]]; reflexivity.
    + destruct Hbudget as [_ Hlt].
      destruct (IH (attempt + 1) lastError
                   ((t ++ [EvFetch req]) ++
                    [EvSleep (seconds_to_ms retryAfter)])%list)
        as (evs & Hsnd & Hreq & Hf & Hs & Hend).
      exists (EvFetch req :: EvSleep (seconds_to_ms retryAfter) :: evs).
      split; [rewrite Hsnd, <- !app_assoc; reflexivity|].
      split; [intros r [<-|Hr]; auto|].
      rewrite !count_cons. cbn [is_fetch is_sleep].
      split; [lia|]. split; [lia|]. intros Hfuel.
      destruct Hend as [Hset Hcnt]; [lia|].
      split; [exact Hset|]. intros _. rewrite Hcnt by lia. reflexivity.
    + destruct Hbudget as [_ Hlt].
      destruct (IH (attempt + 1)
                   (match newLast with Some e => Some e | None => lastError end)
                   ((t ++ [EvFetch req]) ++ backoff_events env t attempt)%list)
        as (evs & Hsnd & Hreq & Hf & Hs & Hend).
      exists (EvFetch req :: (backoff_events env t attempt ++ evs))%list.
      split; [rewrite Hsnd, <- !app_assoc; reflexivity|].
      split; [intros r [<-|Hr]; auto|].
      unfold backoff_events. cbn [app].
      rewrite !count_cons. cbn [is_fetch is_sleep].
      split; [lia|]. split; [lia|]. intros Hfuel.
      destruct Hend as [Hset Hcnt]; [lia|].
      split; [exact Hset|]. intros _. rewrite Hcnt by lia. reflexivity.
  - exists []. subst run. rewrite request_loop_exhausted by lia.
    rewrite app_nil_r. repeat split; unfold count; simpl; try lia;
      contradiction.
Qed.

(** A response with status 500 is retried with backoff while attempts
    remain, and raised as a plain [CladoError] with that status after. *)
Lemma verdict_500 response attempt :
  rs_status response = 500 ->
  verdict (Responded response) retry maxRetries attempt =
  if retry && (attempt <? maxRetries) then VBackoff None
  else VThrow (new_CladoError 500 (parseErrorResponse response)).
Proof.
  intros H. unfold verdict, ok. rewrite H. reflexivity.
Qed.

(** Against a server that always answers 500, the loop makes one attempt
    per remaining unit of budget and one more, then raises. *)
Lemma request_loop_always_500 :
  retry = true ->
  always_status env 500 ->
  forall (k fuel : nat) attempt lastError t,
    attempt + Z.of_nat k = maxRetries ->
    (k < fuel)%nat ->
    exists e evs,
      request_loop env fuel req retry maxRetries attempt lastError t =
      (Thrown (Clado e), (t ++ evs)%list) /\
      kind e = Generic /\ status e = 500 /\
      count is_fetch evs = S k /\ count is_sleep evs = k.
Proof.
  intros Hretry Hnet.
  induction k as [|k IH]; intros fuel attempt lastError t Hk Hfuel;
    (destruct fuel as [|fuel]; [lia|]);
    rewrite request_loop_iteration by lia;
    destruct (Hnet (count is_fetch t) req) as (response & -> & Hst);
    rewrite (verdict_500 response attempt Hst), Hretry; cbv zeta.
  - rewrite (proj2 (Z.ltb_ge _ _)) by lia. cbn [andb].
    eexists _, [EvFetch req]. repeat split; reflexivity.
  - rewrite (proj2 (Z.ltb_lt _ _)) by lia. cbn [andb].
    destruct (IH fuel (attempt + 1) lastError
                 ((t ++ [EvFetch req]) ++ backoff_events env t attempt)%list)
      as (e & evs & Heq & Hkind & Hstatus & Hf & Hs); [lia | lia |].
    exists e, ([EvFetch req] ++ backoff_events env t attempt ++ evs)%list.
    rewrite Hretry in Heq. rewrite Heq, <- !app_assoc. repeat split; auto.
    + rewrite !count_app, Hf. reflexivity.
    + rewrite !count_app, Hs. reflexivity.
Qed.
End RetryBudget.

(** A call always comes to an end: it returns or throws within its fuel. *)
Lemma request_settles env url apiKey options t :
  settled (fst (request env url apiKey options t)).
Proof.
  unfold request.
  destruct (request_loop_bounded env (fetch_request url apiKey options)
              (or_else (ro_retry options) true)
              (or_else (ro_maxRetries options) DEFAULT_maxRetries)
              (Z.to_nat (or_else (ro_maxRetries options) DEFAULT_maxRetries + 1))
              0 None t) as (evs & _ & _ & _ & _ & Hend).
  apply Hend. lia.
Qed.



(** The run of the unit test, in full: four fetches, three sleeps of the
    backoff calculator, and the message of the error. *)
Example request_always_500_run :
  let run := request env_always_500 demo_url "lk_test" no_options [] in
  fst run =
  Thrown (Clado {| kind := Generic; status := 500;
                   message := "API request failed with status 500: Internal server error";
                   retryAfter := None |}) /\
  map is_fetch (snd run) =
  [true; false; false; true; false; false; true; false; false; true].
Proof. vm_compute. split; reflexivity. Qed.

(** Rate limits and server errors in turn draw on the same budget: four
    attempts in all, with the sleeps of the two 429 answers (2 s each)
    around the one of the backoff calculator (attempt 1: 2000 ms at the
    draw 0.5), and the error of the last answer. *)
Example request_mixed_429_500_run :
  let run := request env_429_then_500 demo_url "lk_test" no_options [] in
  (exists e, fst run = Thrown (Clado e) /\ kind e = Generic /\ status e = 500) /\
  count is_fetch (snd run) = 4%nat /\
  map (option_map Qred) (sleeps (snd run)) =
  [Some 2000%Q; Some 2000%Q; Some 2000%Q].
Proof.
  vm_compute. split; [eexists; repeat split | split; reflexivity].
Qed.

(* ------------------------------------------------------------------ *)
(** ** Responses that are not JSON *)

(** A successful response whose non-empty body is not JSON is handled by
    the [catch] clause like a network failure. *)
Lemma verdict_unparseable response text reason retry maxRetries attempt :
  ok response = true ->
  rs_body response = BodyText text (SyntaxError reason) ->
  text <> "" ->
  verdict (Responded response) retry maxRetries attempt =
  if retry && (attempt <? maxRetries) then VBackoff (Some (Foreign reason))
  else VThrow (new_CladoError 0 (JStr ("Network error: " ++ reason))).
Proof.
  intros Hok Hbody Htext. unfold verdict, JSON_parse. rewrite Hok, Hbody.
  destruct (String.eqb_spec text ""); [contradiction | reflexivity].
Qed.

(** C2 (the code at the failing input): a 200 answer with an HTML page as
    body and the default options.  The call is retried three times with
    backoff and then raises an error with status 0 and the message of a
    network error; the status 200 of the response is lost. *)
Lemma request_unparseable_success_is_network_error :
  let run := request env_html_page demo_url "lk_test" no_options [] in
  fst run =
  Thrown (Clado {| kind := Generic; status := 0;
                   message := "API request failed with status 0: Network error: Unexpected token '<'";
                   retryAfter := None |}) /\
  count is_fetch (snd run) = 4%nat /\
  count is_sleep (snd run) = 3%nat.
Proof. vm_compute. repeat split; reflexivity. Qed.

(* ------------------------------------------------------------------ *)
(** ** Rate limits *)

(** On a 429 the one value [retryAfter_of response] is used for the sleep
    before the retry and for the error raised when the budget is spent. *)
Lemma verdict_429 response retry maxRetries attempt :
  rs_status response = 429 ->
  verdict (Responded response) retry maxRetries attempt =
  if retry && (attempt <? maxRetries)
  then VRetryAfter (retryAfter_of response)
  else VThrow (new_CladoRateLimitError (retryAfter_of response)
                                       (parseErrorResponse response)).
Proof. intros H. unfold verdict, ok. rewrite H. reflexivity. Qed.

Lemma retryAfter_of_absent response :
  Headers_get (rs_headers response) "Retry-After" = None ->
  retryAfter_of response = Some 60.
Proof. unfold retryAfter_of. now intros ->. Qed.

Lemma retryAfter_of_empty response :
  Headers_get (rs_headers response) "Retry-After" = Some "" ->
  retryAfter_of response = Some 60.
Proof. unfold retryAfter_of. now intros ->. Qed.

(** Evaluates the character codes of the goal. *)
Ltac eval_codes :=
  repeat match goal with
         | |- context [code ?c] =>
             let v := eval vm_compute in (code c) in change (code c) with v
         end.

(** [parseInt] reads back the decimal writing of an integer. *)
Lemma read_digits_step c s acc k :
  digit_of c = Some k ->
  read_digits (String c s) acc =
  read_digits s (Some (10 * (match acc with Some a => a | None => 0 end) + k)).
Proof. intros H. cbn [read_digits]. now rewrite H. Qed.

Lemma read_digits_acc d : forall a : positive,
  read_digits (NilEmpty.string_of_uint d) (Some (Z.pos a)) =
  Some (Z.pos (Pos.of_uint_acc d a)).
Proof.
  induction d; intros a; cbn [NilEmpty.string_of_uint Pos.of_uint_acc];
    [reflexivity | ..];
    erewrite read_digits_step by reflexivity;
    rewrite <- IHd; f_equal; f_equal; eval_codes; lia.
Qed.

Lemma read_digits_uint d : forall acc,
  acc = None \/ acc = Some 0 ->
  read_digits (NilEmpty.string_of_uint d) acc =
  match d with
  | Decimal.Nil => acc
  | _ => Some (Z.of_N (Pos.of_uint d))
  end.
Proof.
  induction d; intros acc Hacc; cbn [NilEmpty.string_of_uint Pos.of_uint];
    [reflexivity | ..];
    erewrite read_digits_step by reflexivity;
    eval_codes;
    (destruct Hacc as [-> | ->]; cbn [Z.mul Z.add Z.sub Z.opp Z.pos_sub]);
    try apply read_digits_acc.
  all: rewrite IHd by auto; now destruct d.
Qed.

Lemma parseInt10_uint d :
  d <> Decimal.Nil ->
  parseInt10 (NilEmpty.string_of_uint d) = Some (Z.of_N (Pos.of_uint d)).
Proof.
  intros Hd.
  assert (H : parseInt10 (NilEmpty.string_of_uint d) =
              read_digits (NilEmpty.string_of_uint d) None)
    by (destruct d; [contradiction | ..]; reflexivity).
  rewrite H, read_digits_uint by auto. now destruct d.
Qed.

Lemma parseInt10_string_of_Z n : parseInt10 (string_of_Z n) = Some n.
Proof.
  unfold string_of_Z. destruct n as [|p|p]; [reflexivity | |].
  - cbn [Z.to_int NilZero.string_of_int].
    pose proof (DecimalPos.Unsigned.to_uint_nonnil p) as Hnil.
    replace (NilZero.string_of_uint (Pos.to_uint p))
      with (NilEmpty.string_of_uint (Pos.to_uint p))
      by (destruct (Pos.to_uint p); [contradiction | ..]; reflexivity).
    rewrite parseInt10_uint by assumption.
    now rewrite DecimalPos.Unsigned.of_to.
  - cbn [Z.to_int NilZero.string_of_int].
    pose proof (DecimalPos.Unsigned.to_uint_nonnil p) as Hnil.
    replace (NilZero.string_of_uint (Pos.to_uint p))
      with (NilEmpty.string_of_uint (Pos.to_uint p))
      by (destruct (Pos.to_uint p); [contradiction | ..]; reflexivity).
    change (parseInt10 (String "-" (NilEmpty.string_of_uint (Pos.to_uint p))))
      with (option_map Z.opp
              (read_digits (NilEmpty.string_of_uint (Pos.to_uint p)) None)).
    rewrite read_digits_uint by auto.
    pose proof (DecimalPos.Unsigned.of_to p) as Hof.
    destruct (Pos.to_uint p); [contradiction | ..];
      rewrite Hof; reflexivity.
Qed.

(** A [Retry-After] header that is the decimal writing of an integer gives
    that integer. *)
Lemma retryAfter_of_seconds response seconds :
  Headers_get (rs_headers response) "Retry-After"
  = Some (string_of_Z seconds) ->
  retryAfter_of response = Some seconds.
Proof.
  unfold retryAfter_of, str_or. intros ->.
  destruct (String.eqb_spec (string_of_Z seconds) "") as [E|_].
  - pose proof (parseInt10_string_of_Z seconds) as H.
    rewrite E in H. discriminate.
  - apply parseInt10_string_of_Z.
Qed.

Example parseInt10_examples :
  parseInt10 "120" = Some 120 /\ parseInt10 " 7" = Some 7 /\
  parseInt10 "12abc" = Some 12 /\ parseInt10 "-5" = Some (-5) /\
  parseInt10 "1.5" = Some 1 /\ parseInt10 "soon" = None /\
  parseInt10 "Wed, 21 Oct 2026 07:28:00 GMT" = None.
Proof. repeat split; reflexivity. Qed.

(** C6 (the code at the failing input): a 429 answer whose [Retry-After]
    header is an HTTP date.  The header does not parse as an integer, and
    the retry-after value is [NaN], not 60: with retrying disabled the
    error carries [retryAfter = NaN]; with the default options each of the
    three retries sleeps [NaN] milliseconds, and the same error follows. *)
Lemma request_retry_after_unparseable_is_NaN :
  let rate_limited :=
    {| kind := RateLimit; status := 429;
       message := "API request failed with status 429: Rate limit exceeded";
       retryAfter := Some None |} in
  request env_retry_after_date demo_url "lk_test" no_retry [] =
  (Thrown (Clado rate_limited),
   [EvFetch (fetch_request demo_url "lk_test" no_retry)]) /\
  let run := request env_retry_after_date demo_url "lk_test" no_options [] in
  fst run = Thrown (Clado rate_limited) /\
  sleeps (snd run) = [None; None; None] /\
  count is_fetch (snd run) = 4%nat.
Proof. vm_compute. repeat split; reflexivity. Qed.

(* ------------------------------------------------------------------ *)
(** ** Errors that are not retried *)

Lemma verdict_typed response retry maxRetries attempt :
  In (rs_status response) [401; 404; 422] ->
  exists e,
    verdict (Responded response) retry maxRetries attempt = VThrow e /\
    status e = rs_status response /\
    kind e = classify (rs_status response).
Proof.
  unfold verdict, ok, classify.
  intros [H|[H|[H|[]]]]; rewrite <- H; simpl; eexists; repeat split.
Qed.



(* ------------------------------------------------------------------ *)
(** ** Request headers *)

Lemma obj_spread_get {V} (b : Dict V) : forall (a : Dict V) k,
  NoDup (keys b) ->
  obj_get (obj_spread a b) k =
  match obj_get b k with
  | Some v => Some v
  | None => obj_get a k
  end.
Proof.
  unfold obj_spread.
  induction b as [|[k0 v0] b IH]; intros a k Hnd; simpl; auto.
  inversion Hnd as [|? ? Hnotin Hnd']; subst.
  rewrite IH by assumption.
  destruct (String.eqb_spec k0 k) as [->|Hne].
  - rewrite (proj2 (obj_get_None_not_key b k) Hnotin).
    apply obj_get_set_same.
  - simpl. destruct (obj_get b k); auto. now apply obj_get_set_other.
Qed.

(** C8, as stated, fails: with a body, a [Content-Type] of the caller does
    not take precedence; the request is sent with [application/json]. *)
Lemma requestHeaders_content_type_forced :
  let headers := [("Content-Type", "text/plain")] in
  let body := JObj [("query", JStr "engineers")] in
  obj_get (requestHeaders "lk_test" headers body) "Content-Type"
  = Some "application/json" /\
  ~ headers_as_stated "lk_test" headers body
      (requestHeaders "lk_test" headers body).
Proof.
  simpl. split; [reflexivity|].
  intros H. specialize (H "Content-Type"). vm_compute in H. discriminate.
Qed.

(** C8 (amended): the headers sent on every network exchange of a call
    are: with a truthy body, [Content-Type: application/json], whatever the
    caller supplied under that name; for every other name (and for
    [Content-Type] without a truthy body) the value supplied by the caller
    if there is one, which so takes precedence over the defaults
    [Authorization: Bearer <credential>] and [Accept: application/json];
    and nothing else. *)
Theorem request_headers_composition (env : Env) (url : Url) (apiKey : string)
        (options : RequestOptions) (t : Trace) :
  let headers := or_else (ro_headers options) [] in
  let body := ro_body options in
  let sent := requestHeaders apiKey headers body in
  NoDup (keys headers) ->
  (forall name,
      obj_get sent name =
      if truthy body && String.eqb name "Content-Type"
      then Some "application/json"
      else
        match obj_get headers name with
        | Some v => Some v
        | None =>
            if String.eqb name "Authorization" then Some ("Bearer " ++ apiKey)
            else if String.eqb name "Accept" then Some "application/json"
            else None
        end) /\
  exists evs,
    snd (request env url apiKey options t) = (t ++ evs)%list /\
    forall req, In req (fetches evs) -> fr_headers req = sent.
Proof.
  intros headers body sent Hnd. split.
  - intros name. unfold sent, requestHeaders.
    assert (Hdefault :
              obj_get (obj_spread [("Authorization", "Bearer " ++ apiKey);
                                   ("Accept", "application/json")] headers)
                      name =
              match obj_get headers name with
              | Some v => Some v
              | None =>
                  if String.eqb name "Authorization"
                  then Some ("Bearer " ++ apiKey)
                  else if String.eqb name "Accept" then Some "application/json"
                  else None
              end).
    { rewrite obj_spread_get by assumption.
      destruct (obj_get headers name); auto. cbn [obj_get].
      rewrite (String.eqb_sym "Authorization"), (String.eqb_sym "Accept").
      reflexivity. }
    destruct (truthy body); simpl.
    + destruct (String.eqb_spec name "Content-Type") as [->|Hne].
      * apply obj_get_set_same.
      * rewrite obj_get_set_other by congruence. exact Hdefault.
    + exact Hdefault.
  - destruct (request_loop_bounded env (fetch_request url apiKey options)
                (or_else (ro_retry options) true)
                (or_else (ro_maxRetries options) DEFAULT_maxRetries)
                (Z.to_nat (or_else (ro_maxRetries options) DEFAULT_maxRetries
                           + 1)) 0 None t)
      as (evs & Hsnd & Hreq & _).
    exists evs. split; [exact Hsnd|].
    intros req Hin. rewrite (Hreq req Hin). reflexivity.
Qed.

Lemma request_headers_composition_witness :
  let options :=
    {| ro_method := Some "POST";
       ro_body := JObj [("query", JStr "engineers")];
       ro_headers := Some [("Accept", "text/csv"); ("X-Trace", "1")];
       ro_retry := None; ro_maxRetries := None |} in
  let sent := requestHeaders "lk_test" [("Accept", "text/csv"); ("X-Trace", "1")]
                             (JObj [("query", JStr "engineers")]) in
  obj_get sent "Accept" = Some "text/csv" /\
  obj_get sent "Content-Type" = Some "application/json" /\
  exists evs,
    snd (request env_always_500 demo_url "lk_test" options []) = evs /\
    forall req, In req (fetches evs) -> fr_headers req = sent.
Proof.
  intros options sent.
  destruct (request_headers_composition env_always_500 demo_url "lk_test"
              options []) as [Hget (evs & Hsnd & Hreq)].
  - simpl. repeat constructor; simpl; intuition discriminate.
  - split; [|split].
    + apply (Hget "Accept").
    + apply (Hget "Content-Type").
    + exists evs. split; [exact Hsnd | exact Hreq].
Defined.

(* ================================================================== *)
(** * Job poller *)
(* ================================================================== *)

(** A call with the default options whose first exchange answers 200 with
    a JSON body returns the parsed body after this one fetch. *)
Lemma request_ok env url apiKey t payload :
  answers_to env (count is_fetch t) (fetch_request url apiKey no_options)
             payload ->
  request env url apiKey no_options t =
  (Returned payload, (t ++ [EvFetch (fetch_request url apiKey no_options)])%list).
Proof.
  intros (response & text & Hfetch & Hok & Hbody & Htext).
  unfold request. simpl or_else.
  change (Z.to_nat (DEFAULT_maxRetries + 1)) with 4%nat.
  rewrite request_loop_iteration by (unfold DEFAULT_maxRetries; lia).
  rewrite Hfetch. unfold verdict, JSON_parse. rewrite Hok, Hbody.
  destruct (String.eqb_spec text ""); [contradiction | reflexivity].
Qed.

Section Poller.
Variable env : Env.
Variable client : CladoClient.
Variable jobId : string.
Variables pollInterval timeout startTime : Z.

Let req := status_request client jobId.
Let loop fuel := waitForDeepResearch_loop env client fuel jobId pollInterval
                                          timeout startTime.

Lemma count_waiting_polls k :
  count is_fetch (waiting_polls req pollInterval k) = k /\
  count is_sleep (waiting_polls req pollInterval k) = k /\
  count is_now (waiting_polls req pollInterval k) = k.
Proof.
  induction k as [|k (IHf & IHs & IHn)]; simpl; auto.
  rewrite !count_cons. cbn [is_fetch is_sleep is_now]. lia.
Qed.

(** One poll, on a payload that carries a status. *)
Lemma poll_iteration fuel t payload st error :
  answers env (count is_fetch t) payload ->
  get_prop payload "status" = Some st ->
  get_prop payload "error" = Some error ->
  loop (S fuel) t =
  let t1 := (t ++ [EvFetch req])%list in
  if is_string st "completed" then (Returned payload, t1)
  else if is_string st "failed" then
    (Thrown (Clado (new_CladoError 500
                      (or_default error "Deep research job failed"))), t1)
  else if Date_now env (count is_now t) - startTime >? timeout then
    (Thrown (Clado (new_CladoError 408
                      (JStr ("Deep research job timed out after "
                               ++ string_of_Z timeout ++ "ms")))),
     (t1 ++ [EvNow])%list)
  else
    loop fuel (t1 ++ [EvNow; EvSleep (Some (inject_Z pollInterval))])%list.
Proof.
  intros Hans Hst Herr. unfold loop. cbn [waitForDeepResearch_loop].
  unfold bind at 1. unfold getDeepResearchStatus.
  rewrite (request_ok env _ _ t payload (Hans _)). rewrite Hst, Herr.
  fold req. cbv zeta.
  destruct (is_string st "completed"); [reflexivity|].
  destruct (is_string st "failed"); [reflexivity|].
  assert (Hnow : forall r,
             count is_now (t ++ [EvFetch r])%list = count is_now t).
  { intros r. rewrite count_app. cbn. apply Nat.add_0_r. }
  repeat unfold bind, do_now, sleep, emit. unfold req. cbv beta iota.
  rewrite Hnow.
  destruct (Date_now env (count is_now t) - startTime >? timeout);
    [reflexivity|].
  rewrite <- !app_assoc. reflexivity.
Qed.

Lemma get_prop_both payload st :
  get_prop payload "status" = Some st ->
  exists error, get_prop payload "error" = Some error.
Proof. destruct payload; simpl; try discriminate; eauto. Qed.

(** [k] polls that find the job running and within the timeout lead to
    the poll number [k]. *)
Lemma waiting_polls_run (payloads : nat -> JS) (k : nat) :
  forall fuel t,
    (forall j, (j < k)%nat ->
               answers env (count is_fetch t + j) (payloads j) /\
               nonterminal (payloads j) /\
               Date_now env (count is_now t + j) - startTime <= timeout) ->
    loop (k + fuel) t = loop fuel (t ++ waiting_polls req pollInterval k)%list.
Proof.
  revert payloads.
  induction k as [|k IH]; intros payloads fuel t Hrun.
  - simpl. now rewrite app_nil_r.
  - destruct (Hrun 0%nat) as (Hans & (st & Hst & Hc & Hf) & Htime); [lia|].
    rewrite Nat.add_0_r in Hans, Htime.
    destruct (get_prop_both _ _ Hst) as (error & Herr).
    change (S k + fuel)%nat with (S (k + fuel)).
    rewrite (poll_iteration _ t _ st error Hans Hst Herr).
    cbv zeta. rewrite Hc, Hf.
    rewrite Z.gtb_ltb, (proj2 (Z.ltb_ge _ _)) by lia.
    change (S k) with (1 + k)%nat.
    rewrite (IH (fun j => payloads (S j)) fuel).
    + rewrite <- !app_assoc. reflexivity.
    + intros j Hj. destruct (Hrun (S j)) as (Hans' & Hnt & Htime'); [lia|].
      rewrite !count_app. cbn [count filter is_fetch is_now length].
      replace (count is_fetch t + 1 + 0 + j)%nat
        with (count is_fetch t + S j)%nat by lia.
      replace (count is_now t + 0 + 1 + j)%nat
        with (count is_now t + S j)%nat by lia.
      auto.
Qed.
End Poller.

Lemma is_string_failed_not_completed st :
  is_string st "failed" = true -> is_string st "completed" = false.
Proof.
  destruct st; simpl; try discriminate.
  intros H. apply String.eqb_eq in H. now subst.
Qed.



(** The timeout of the poller: with a timeout of 1500 ms and a clock that
    advances one second per reading, a job that stays pending times out at
    the second poll. *)
Example waitForDeepResearch_times_out :
  let env := demo_env (fun _ _ => respond 200 "OK" [] (job_payload "pending" [])) in
  let run := waitForDeepResearch env demo_client 5 "job-1"
               {| pollInterval := Some 100; timeout := Some 1500 |} [] in
  fst run =
  Thrown (Clado {| kind := Generic; status := 408;
                   message := "API request failed with status 408: Deep research job timed out after 1500ms";
                   retryAfter := None |}) /\
  map is_fetch (snd run) = [false; true; false; false; true; false].
Proof. vm_compute. split; reflexivity. Qed.

(** A failed job without an error text raises the default message. *)
Example waitForDeepResearch_failed_default :
  let env := demo_env (fun _ _ => respond 200 "OK" [] (job_payload "failed" [])) in
  fst (waitForDeepResearch env demo_client 5 "job-1" default_wait []) =
  Thrown (Clado {| kind := Generic; status := 500;
                   message := "API request failed with status 500: Deep research job failed";
                   retryAfter := None |}).
Proof. vm_compute. reflexivity. Qed.

(* ================================================================== *)
(** * URL builder *)
(* ================================================================== *)

Lemma sp_get_set_same q k v : sp_get (sp_set q k v) k = Some v.
Proof.
  unfold sp_get. induction q as [|[k0 v0] q IH]; simpl.
  - now rewrite String.eqb_refl.
  - destruct (String.eqb k0 k) eqn:E; simpl; rewrite E; auto.
Qed.

Lemma sp_get_filter_other q k k' :
  k' <> k ->
  sp_get (filter (fun p => negb (String.eqb (fst p) k')) q) k = sp_get q k.
Proof.
  intros Hne. unfold sp_get. induction q as [|[k0 v0] q IH]; simpl; auto.
  destruct (String.eqb_spec k0 k') as [->|Hk]; simpl.
  - destruct (String.eqb_spec k' k); [contradiction | exact IH].
  - destruct (String.eqb k0 k); auto.
Qed.

Lemma sp_get_set_other q k k' v :
  k' <> k -> sp_get (sp_set q k' v) k = sp_get q k.
Proof.
  intros Hne. induction q as [|[k0 v0] q IH]; simpl.
  - unfold sp_get. simpl.
    destruct (String.eqb_spec k' k); [contradiction | reflexivity].
  - destruct (String.eqb_spec k0 k') as [->|Hk].
    + unfold sp_get in *. simpl.
      destruct (String.eqb_spec k' k); [contradiction|].
      now apply sp_get_filter_other.
    + unfold sp_get in *. simpl. destruct (String.eqb k0 k); auto.
Qed.

Lemma sp_get_append q k k' v :
  sp_get (sp_append q k' v) k =
  match sp_get q k with
  | Some x => Some x
  | None => if String.eqb k' k then Some v else None
  end.
Proof.
  unfold sp_get, sp_append. induction q as [|[k0 v0] q IH]; simpl; auto.
  destruct (String.eqb k0 k); auto.
Qed.

Lemma sp_get_append_items items : forall q k k',
  sp_get (fold_left (fun q item => sp_append q k' (ToString item)) items q) k =
  match sp_get q k with
  | Some x => Some x
  | None =>
      if String.eqb k' k then
        match items with
        | [] => None
        | item :: _ => Some (ToString item)
        end
      else None
  end.
Proof.
  induction items as [|item items IH]; intros q k k'; simpl.
  - destruct (sp_get q k); auto. now destruct (String.eqb k' k).
  - rewrite IH, sp_get_append.
    destruct (sp_get q k); auto.
    destruct (String.eqb k' k); auto.
Qed.

(** One entry of the parameters: other keys of the query are untouched,
    and a key not yet in the query gets the value of the entry. *)
Lemma buildUrl_entry_get q key value k :
  sp_get (buildUrl_entry q (key, value)) k =
  if String.eqb key k then
    match sp_get q k, value with
    | Some x, (JUndefined | JNull | JArr _) => Some x
    | _, _ => query_value value
    end
  else sp_get q k.
Proof.
  unfold buildUrl_entry, query_value.
  destruct (String.eqb_spec key k) as [->|Hne].
  - destruct value; simpl;
      try (rewrite sp_get_set_same; now destruct (sp_get q k));
      try now destruct (sp_get q k).
    rewrite sp_get_append_items, String.eqb_refl.
    now destruct (sp_get q k).
  - destruct value; simpl; auto; try now apply sp_get_set_other.
    rewrite sp_get_append_items.
    destruct (sp_get q k); auto.
    destruct (String.eqb_spec key k); [contradiction | reflexivity].
Qed.

Lemma buildUrl_fold_other params : forall q k,
  ~ In k (keys params) ->
  sp_get (fold_left buildUrl_entry params q) k = sp_get q k.
Proof.
  induction params as [|[key value] params IH]; intros q k Hnotin;
    cbn [fold_left]; auto.
  rewrite IH by (intros H; apply Hnotin; now right).
  rewrite buildUrl_entry_get.
  destruct (String.eqb_spec key k) as [->|]; auto.
  exfalso. apply Hnotin. now left.
Qed.

(** The query of the URL, key by key: the parameter of that name, unless
    it is absent, [undefined], [null] or an empty array. *)
Lemma buildUrl_query base path params k :
  NoDup (keys params) ->
  sp_get (url_query (buildUrl base path (Some params))) k =
  match obj_get params k with
  | Some v => query_value v
  | None => None
  end.
Proof.
  unfold buildUrl. simpl.
  assert (H : forall q, sp_get q k = None -> NoDup (keys params) ->
              sp_get (fold_left buildUrl_entry params q) k =
              match obj_get params k with
              | Some v => query_value v
              | None => None
              end).
  { induction params as [|[key value] params IH]; intros q Hq Hnd;
      cbn [fold_left obj_get]; auto.
    inversion Hnd as [|? ? Hnotin Hnd']; subst.
    destruct (String.eqb_spec key k) as [->|Hne].
    - rewrite buildUrl_fold_other by assumption.
      rewrite buildUrl_entry_get, String.eqb_refl, Hq. reflexivity.
    - apply IH; auto. rewrite buildUrl_entry_get.
      destruct (String.eqb_spec key k); [contradiction | exact Hq]. }
  apply H. reflexivity.
Qed.

(* ================================================================== *)
(** * Pagination iterator *)
(* ================================================================== *)

Section PageOptions.
Variables (options : Obj) (searchId : JS) (offset limit : Z).

Let po := page_options options searchId offset limit.

Lemma NoDup_page_options : NoDup (keys po).
Proof.
  unfold po, page_options.
  repeat apply NoDup_obj_set. apply NoDup_obj_spread. constructor.
Qed.

Lemma keys_page_options k :
  In k (keys po) ->
  In k (keys options) \/ k = "searchId" \/ k = "offset" \/ k = "limit".
Proof.
  unfold po, page_options. rewrite !keys_obj_set, keys_obj_spread.
  simpl. intuition.
Qed.

Lemma page_options_get :
  obj_get po "searchId" = Some searchId /\
  obj_get po "offset" = Some (JNum offset) /\
  obj_get po "limit" = Some (JNum limit).
Proof.
  unfold po, page_options. repeat split.
  - rewrite !obj_get_set_other by discriminate. apply obj_get_set_same.
  - rewrite obj_get_set_other by discriminate. apply obj_get_set_same.
  - apply obj_get_set_same.
Qed.

(** The parameters that the page request carries: the offset and the
    limit of the iterator, and its search token; the [offset] and the
    [searchId] of the caller's options are overwritten. *)
Lemma page_request_query client :
  ~ In "search_id" (keys options) ->
  let req := page_request client options searchId offset limit in
  query_param req "offset" = Some (string_of_Z offset) /\
  query_param req "limit" = Some (string_of_Z limit) /\
  query_param req "search_id" = query_value searchId.
Proof.
  intros Hno req.
  destruct page_options_get as (Hsid & Hoff & Hlim).
  pose proof NoDup_page_options as Hnd.
  unfold req, query_param, page_request, search_request, fetch_request.
  cbn [fr_url]. fold po.
  rewrite !buildUrl_query by apply NoDup_toSnakeCase.
  change "offset" with (snakeKey "offset") at 1.
  change "limit" with (snakeKey "limit") at 1.
  change "search_id" with (snakeKey "searchId").
  rewrite (toSnakeCase_get_alone po "offset" (JNum offset)); auto.
  rewrite (toSnakeCase_get_alone po "limit" (JNum limit)); auto.
  rewrite (toSnakeCase_get_alone po "searchId" searchId); auto.
  - now apply obj_get_Some_In.
  - intros k' Hin Hk'. apply snakeKey_search_id in Hk'.
    destruct Hk' as [->| ->]; auto.
    apply keys_page_options in Hin.
    destruct Hin as [Hin|[Hin|[Hin|Hin]]];
      [contradiction | discriminate | discriminate | discriminate].
  - now apply obj_get_Some_In.
  - intros k' _ Hk'. now apply snakeKey_limit.
  - now apply obj_get_Some_In.
  - intros k' _ Hk'. now apply snakeKey_offset.
Qed.
End PageOptions.

Lemma snd_yield_then items (rest : Gen) t :
  snd (yield_then items rest t) = snd (rest t).
Proof. unfold yield_then. now destruct (rest t) as [[more out] t']. Qed.

Section Iterator.
Variable env : Env.
Variable client : CladoClient.

(** A call with the default options starts with a fetch of its request,
    and only adds events. *)
Lemma request_trace url t :
  exists evs,
    snd (request env url (apiKey client) no_options t) =
    (t ++ EvFetch (fetch_request url (apiKey client) no_options) :: evs)%list.
Proof.
  set (req := fetch_request url (apiKey client) no_options).
  unfold request. simpl or_else. fold req.
  change (Z.to_nat (DEFAULT_maxRetries + 1)) with 4%nat.
  rewrite request_loop_iteration by (unfold DEFAULT_maxRetries; lia).
  cbv zeta.
  destruct (verdict (fetch env (count is_fetch t) req) true
                    DEFAULT_maxRetries 0) as [value|e|retryAfter|newLast].
  - now exists [].
  - now exists [].
  - match goal with
    | |- context [request_loop env ?f ?r ?b ?m ?a ?l ?t0] =>
        destruct (request_loop_bounded env r b m f a l t0) as (evs & Hsnd & _)
    end.
    rewrite Hsnd, <- !app_assoc. eexists. reflexivity.
  - match goal with
    | |- context [request_loop env ?f ?r ?b ?m ?a ?l ?t0] =>
        destruct (request_loop_bounded env r b m f a l t0) as (evs & Hsnd & _)
    end.
    rewrite Hsnd, <- !app_assoc. eexists. reflexivity.
Qed.

(** The iterator only adds events. *)
Lemma searchPeopleAll_loop_trace fuel options limit :
  forall searchId offset t,
  exists evs,
    snd (searchPeopleAll_loop env client fuel options limit searchId offset t)
    = (t ++ evs)%list.
Proof.
  induction fuel as [|fuel IH]; intros searchId offset t.
  - exists []. simpl. now rewrite app_nil_r.
  - cbn [searchPeopleAll_loop]. unfold gen_bind, searchPeople.
    destruct (request_trace
                (buildUrl (baseUrl client) "/api/search"
                   (Some (toSnakeCase
                            (page_options options searchId offset limit))))
                t) as (evs1 & Hsnd).
    destruct (request env _ (apiKey client) no_options t) as [out t'].
    simpl in Hsnd. subst t'.
    destruct out as [response| | |]; try (eexists; reflexivity).
    destruct (get_prop response "results") as [[]|];
      try (eexists; reflexivity).
    destruct (get_prop response "total") as [total|];
      try (eexists; reflexivity).
    destruct (get_prop response "search_id") as [token|];
      try (eexists; reflexivity).
    rewrite snd_yield_then.
    destruct (reaches_total _ total) as [reached|];
      try (eexists; reflexivity).
    destruct (_ || reached); try (eexists; reflexivity).
    match goal with
    | |- context [searchPeopleAll_loop env client fuel options limit ?s ?o ?t0] =>
        destruct (IH s o t0) as (evs & Hevs)
    end.
    rewrite Hevs, <- app_assoc. eexists. reflexivity.
Qed.

(** A step of the iterator starts with the fetch of the page at its
    cursor. *)
Lemma searchPeopleAll_loop_first_fetch fuel options limit searchId offset t :
  exists evs,
    snd (searchPeopleAll_loop env client (S fuel) options limit searchId
                              offset t)
    = (t ++ EvFetch (page_request client options searchId offset limit)
         :: evs)%list.
Proof.
  cbn [searchPeopleAll_loop]. unfold gen_bind, searchPeople.
  destruct (request_trace
              (buildUrl (baseUrl client) "/api/search"
                 (Some (toSnakeCase
                          (page_options options searchId offset limit))))
              t) as (evs1 & Hsnd).
  fold (search_request client (page_options options searchId offset limit))
    in Hsnd.
  fold (page_request client options searchId offset limit) in Hsnd.
  destruct (request env _ (apiKey client) no_options t) as [out t'].
  simpl in Hsnd. subst t'.
  destruct out as [response| | |]; try (eexists; reflexivity).
  destruct (get_prop response "results") as [[]|];
    try (eexists; reflexivity).
  destruct (get_prop response "total") as [total|];
    try (eexists; reflexivity).
  destruct (get_prop response "search_id") as [token|];
    try (eexists; reflexivity).
  rewrite snd_yield_then.
  destruct (reaches_total _ total) as [reached|];
    try (eexists; reflexivity).
  destruct (_ || reached); try (eexists; reflexivity).
  match goal with
  | |- context [searchPeopleAll_loop env client fuel options limit ?s ?o ?t0] =>
      destruct (searchPeopleAll_loop_trace fuel options limit s o t0)
        as (evs & Hevs)
  end.
  rewrite Hevs, <- app_assoc. eexists. reflexivity.
Qed.

(** One page: the request at the cursor, the items of the page, and the
    end of the sequence or the next cursor. *)
Lemma searchPeopleAll_page fuel options limit searchId offset t
      payload results total token :
  answers_to env (count is_fetch t)
             (page_request client options searchId offset limit) payload ->
  get_prop payload "results" = Some (JArr results) ->
  get_prop payload "total" = Some (JNum total) ->
  get_prop payload "search_id" = Some token ->
  searchPeopleAll_loop env client (S fuel) options limit searchId offset t =
  let t1 :=
    (t ++ [EvFetch (page_request client options searchId offset limit)])%list
  in
  let length := Z.of_nat (List.length results) in
  if (length <? limit) || (offset + length >=? total)
  then ((results, Returned tt), t1)
  else
    yield_then results
      (searchPeopleAll_loop env client fuel options limit token
                            (offset + length)) t1.
Proof.
  intros Hans Hres Htotal Htoken.
  cbn [searchPeopleAll_loop]. unfold gen_bind, searchPeople.
  unfold page_request, search_request in Hans.
  rewrite (request_ok env _ _ t payload Hans).
  rewrite Hres, Htotal, Htoken. cbn [reaches_total]. cbv zeta.
  destruct ((Z.of_nat (List.length results) <? limit)
            || (offset + Z.of_nat (List.length results) >=? total)).
  - unfold yield_then, gen_end. now rewrite app_nil_r.
  - reflexivity.
Qed.
End Iterator.

Lemma demo_stringify_object_nonempty fields :
  demo_stringify (JObj fields) <> "".
Proof. simpl. discriminate. Qed.

Lemma paging_server_serves_pages items search_id :
  serves_pages (demo_env (paging_server items search_id)) items search_id.
Proof.
  intros n req. exists (page_payload items search_id req).
  repeat split.
  eexists _, _. repeat split. apply demo_stringify_object_nonempty.
Qed.

(** C4: one step of the iterator fetches the page at the cursor and yields
    its items in the order of the server; the sequence ends exactly when
    the page has fewer items than the limit or the offset plus the items of
    the page reaches the total of the server, and otherwise goes on with
    the token of the server and the offset advanced by the number of items
    yielded.  Against a server that holds 31 items, reports 31 as total and
    returns pages of up to [limit] items, the iteration with limit 30 yields
    the 31 items in order with exactly two fetches, at offsets 0 and 30. *)
Theorem searchPeopleAll_pages (env : Env) (client : CladoClient)
        (options : Obj) :
  (forall fuel limit searchId offset t payload results total token,
      answers_to env (count is_fetch t)
                 (page_request client options searchId offset limit) payload ->
      get_prop payload "results" = Some (JArr results) ->
      get_prop payload "total" = Some (JNum total) ->
      get_prop payload "search_id" = Some token ->
      searchPeopleAll_loop env client (S fuel) options limit searchId offset t =
      let t1 :=
        (t ++ [EvFetch (page_request client options searchId offset limit)])%list
      in
      let length := Z.of_nat (List.length results) in
      if (length <? limit) || (offset + length >=? total)
      then ((results, Returned tt), t1)
      else
        yield_then results
          (searchPeopleAll_loop env client fuel options limit token
                                (offset + length)) t1) /\
  (forall items search_id fuel t,
      List.length items = 31%nat ->
      serves_pages env items search_id ->
      obj_get options "limit" = Some (JNum 30) ->
      ~ In "search_id" (keys options) ->
      (2 <= fuel)%nat ->
      searchPeopleAll env client fuel options t =
      ((items, Returned tt),
       (t ++ [EvFetch (page_request client options JUndefined 0 30);
              EvFetch (page_request client options (JStr search_id) 30 30)])%list)).
Proof.
  split; [intros; eapply searchPeopleAll_page; eassumption|].
  intros items search_id fuel t Hlen Hserver Hlimit Hno Hfuel.
  unfold searchPeopleAll, limit_of. rewrite Hlimit.
  destruct fuel as [|[|fuel]]; try lia.
  (* first page *)
  set (req0 := page_request client options JUndefined 0 30).
  destruct (Hserver (count is_fetch t) req0)
    as (payload0 & Hans0 & Hres0 & Htot0 & Htok0).
  destruct (page_request_query options JUndefined 0 30 client Hno)
    as (Hoff0 & Hlim0 & _).
  fold req0 in Hoff0, Hlim0.
  assert (Hpage0 : page items (nat_param req0 "offset" 0)
                        (nat_param req0 "limit" 30) = firstn 30 items).
  { unfold nat_param. rewrite Hoff0, Hlim0. reflexivity. }
  rewrite Hpage0 in Hres0.
  rewrite (searchPeopleAll_page env client _ options 30 JUndefined 0 t
             payload0 _ _ _ Hans0 Hres0 Htot0 Htok0).
  cbv zeta. rewrite length_firstn, Hlen.
  change (Z.of_nat (Nat.min 30 31)) with 30.
  change ((30 <? 30) || (0 + 30 >=? Z.of_nat 31)) with false. cbv iota.
  (* second page *)
  set (req1 := page_request client options (JStr search_id) (0 + 30) 30).
  set (t1 := (t ++ [EvFetch req0])%list).
  assert (Hcount : count is_fetch t1 = S (count is_fetch t)).
  { unfold t1. rewrite count_app. cbn. lia. }
  destruct (Hserver (count is_fetch t1) req1)
    as (payload1 & Hans1 & Hres1 & Htot1 & Htok1).
  destruct (page_request_query options (JStr search_id) (0 + 30) 30 client Hno)
    as (Hoff1 & Hlim1 & _).
  fold req1 in Hoff1, Hlim1.
  assert (Hpage1 : page items (nat_param req1 "offset" 0)
                        (nat_param req1 "limit" 30) = skipn 30 items).
  { unfold nat_param. rewrite Hoff1, Hlim1.
    change (page items 30 30 = skipn 30 items). unfold page.
    apply firstn_all2. rewrite length_skipn, Hlen. cbn. lia. }
  rewrite Hpage1 in Hres1.
  unfold yield_then.
  rewrite (searchPeopleAll_page env client _ options 30 (JStr search_id)
             (0 + 30) t1 payload1 _ _ _ Hans1 Hres1 Htot1 Htok1).
  cbv zeta. rewrite length_skipn, Hlen.
  change (Z.of_nat (31 - 30)) with 1.
  change ((1 <? 30) || (0 + 30 + 1 >=? Z.of_nat 31)) with true. cbv iota.
  rewrite firstn_skipn. unfold t1. rewrite <- app_assoc. reflexivity.
Qed.

Lemma searchPeopleAll_pages_witness :
  searchPeopleAll env_people demo_client 2 engineers [] =
  ((people, Returned tt),
   [EvFetch (page_request demo_client engineers JUndefined 0 30);
    EvFetch (page_request demo_client engineers (JStr "abc-123") 30 30)]).
Proof.
  apply (proj2 (searchPeopleAll_pages env_people demo_client engineers)
               people "abc-123" 2%nat []).
  - reflexivity.
  - apply paging_server_serves_pages.
  - reflexivity.
  - simpl. intuition discriminate.
  - lia.
Defined.

(** The two requests of that run, as the server sees them. *)
Example searchPeopleAll_requests :
  let first := page_request demo_client engineers JUndefined 0 30 in
  let second := page_request demo_client engineers (JStr "abc-123") 30 30 in
  url_query (fr_url first) =
  [("query", "engineers"); ("limit", "30"); ("offset", "0")] /\
  url_query (fr_url second) =
  [("query", "engineers"); ("limit", "30"); ("search_id", "abc-123");
   ("offset", "30")].
Proof. split; reflexivity. Qed.

(** The offset and the limit of a page request are those of the iterator,
    whatever the options of the caller. *)
Lemma page_request_cursor client options searchId offset limit :
  let req := page_request client options searchId offset limit in
  query_param req "offset" = Some (string_of_Z offset) /\
  query_param req "limit" = Some (string_of_Z limit).
Proof.
  intros req.
  destruct (page_options_get options searchId offset limit)
    as (_ & Hoff & Hlim).
  pose proof (NoDup_page_options options searchId offset limit) as Hnd.
  unfold req, query_param, page_request, search_request, fetch_request.
  cbn [fr_url].
  rewrite !buildUrl_query by apply NoDup_toSnakeCase.
  change "offset" with (snakeKey "offset") at 1.
  change "limit" with (snakeKey "limit") at 1.
  rewrite (toSnakeCase_get_alone _ "offset" (JNum offset)); auto.
  rewrite (toSnakeCase_get_alone _ "limit" (JNum limit)); auto.
  - now apply obj_get_Some_In.
  - intros k' _ Hk'. now apply snakeKey_limit.
  - now apply obj_get_Some_In.
  - intros k' _ Hk'. now apply snakeKey_offset.
Qed.

(** C10, as stated, fails for an options object that carries a raw
    [search_id] key after its [searchId]: the iterator's [searchId] takes
    the place of the caller's, the key [search_id] stays, and the normaliser
    writes its value over the [undefined] of [searchId]; the first request
    carries the token of the caller. *)
Lemma searchPeopleAll_raw_search_id_sent :
  let options := [("query", JStr "engineers"); ("searchId", JStr "a");
                  ("search_id", JStr "b")] in
  exists req evs,
    snd (searchPeopleAll env_people demo_client 1 options [])
    = EvFetch req :: evs /\
    req = page_request demo_client options JUndefined 0 30 /\
    url_query (fr_url req)
    = [("query", "engineers"); ("search_id", "b"); ("offset", "0");
       ("limit", "30")] /\
    query_param req "search_id" = Some "b".
Proof.
  intros options.
  destruct (searchPeopleAll_loop_first_fetch env_people demo_client 0 options
              30 JUndefined 0 []) as (evs & Hevs).
  exists (page_request demo_client options JUndefined 0 30), evs.
  split; [exact Hevs|]. repeat split.
Qed.

(** C10: whatever the options object, in particular whatever [offset] and
    [searchId] the caller put in it, the first page request of
    [searchPeopleAll] has offset 0, and the request at any cursor carries
    the offset of the cursor: the variables of the iterator overwrite the
    entries of the caller.  When the options have no key [search_id] (the
    declared type has none), the first request has no search token and the
    request at any cursor carries the token of the cursor. *)
Theorem searchPeopleAll_first_request (env : Env) (client : CladoClient)
        (options : Obj) (limit : Z) (fuel : nat) (t : Trace) :
  limit_of options = Some limit ->
  (exists req evs,
      snd (searchPeopleAll env client (S fuel) options t)
      = (t ++ EvFetch req :: evs)%list /\
      req = page_request client options JUndefined 0 limit /\
      query_param req "offset" = Some "0" /\
      (~ In "search_id" (keys options) ->
       query_param req "search_id" = None)) /\
  (forall searchId offset,
      let req := page_request client options searchId offset limit in
      query_param req "offset" = Some (string_of_Z offset) /\
      (~ In "search_id" (keys options) ->
       query_param req "search_id" = query_value searchId)).
Proof.
  intros Hlimit. split.
  - destruct (page_request_cursor client options JUndefined 0 limit)
      as (Hoff & _).
    destruct (searchPeopleAll_loop_first_fetch env client fuel options limit
                JUndefined 0 t) as (evs & Hevs).
    exists (page_request client options JUndefined 0 limit), evs.
    unfold searchPeopleAll. rewrite Hlimit.
    repeat split; auto.
    intros Hno.
    now destruct (page_request_query options JUndefined 0 limit client Hno)
      as (_ & _ & Hsid).
  - intros searchId offset.
    destruct (page_request_cursor client options searchId offset limit)
      as (Hoff & _).
    split; [exact Hoff|].
    intros Hno.
    now destruct (page_request_query options searchId offset limit client Hno)
      as (_ & _ & Hsid).
Qed.

Lemma searchPeopleAll_first_request_witness :
  let options := [("query", JStr "engineers"); ("offset", JNum 50);
                  ("searchId", JStr "earlier-search")] in
  exists req evs,
    snd (searchPeopleAll env_people demo_client 1 options [])
    = EvFetch req :: evs /\
    query_param req "offset" = Some "0" /\
    query_param req "search_id" = None.
Proof.
  intros options.
  destruct (searchPeopleAll_first_request env_people demo_client options 30
              0 []) as [(req & evs & Hsnd & _ & Hoff & Hsid) _].
  - reflexivity.
  - exists req, evs. repeat split; try assumption.
    apply Hsid. simpl. intuition discriminate.
Defined.

(* ================================================================== *)
(** * Further properties: the URL builder *)
(* ================================================================== *)

Lemma sp_set_fresh q k v :
  ~ In k (map fst q) -> sp_set q k v = (q ++ [(k, v)])%list.
Proof.
  induction q as [|[k0 v0] q IH]; simpl; intros Hfresh; auto.
  destruct (String.eqb_spec k0 k) as [->|Hne].
  - exfalso. apply Hfresh. now left.
  - f_equal. apply IH. intros H. apply Hfresh. now right.
Qed.

Lemma sp_append_items key items : forall q,
  fold_left (fun q item => sp_append q key (ToString item)) items q =
  (q ++ map (fun item => (key, ToString item)) items)%list.
Proof.
  induction items as [|item items IH]; intros q; simpl.
  - now rewrite app_nil_r.
  - rewrite IH. unfold sp_append. now rewrite <- app_assoc.
Qed.

Lemma buildUrl_entry_fresh q key value :
  ~ In key (map fst q) ->
  buildUrl_entry q (key, value) = (q ++ param_pairs (key, value))%list.
Proof.
  intros Hfresh. unfold buildUrl_entry, param_pairs.
  destruct value; simpl; rewrite ?app_nil_r; auto using sp_set_fresh.
  apply sp_append_items.
Qed.

Lemma param_pairs_keys key value k :
  In k (map fst (param_pairs (key, value))) -> k = key.
Proof.
  unfold param_pairs. destruct value; simpl; try tauto;
    try (intros [H|[]]; now subst).
  rewrite map_map. simpl. intros H. apply in_map_iff in H.
  now destruct H as (x & <- & _).
Qed.

Lemma buildUrl_fold_in_order params : forall q,
  NoDup (keys params) ->
  (forall k, In k (keys params) -> ~ In k (map fst q)) ->
  fold_left buildUrl_entry params q = (q ++ flat_map param_pairs params)%list.
Proof.
  induction params as [|[key value] params IH]; intros q Hnd Hfresh.
  - simpl. now rewrite app_nil_r.
  - inversion Hnd as [|? ? Hnotin Hnd']; subst.
    cbn [fold_left flat_map].
    rewrite buildUrl_entry_fresh by (apply Hfresh; now left).
    rewrite IH; auto.
    + now rewrite <- app_assoc.
    + intros k Hk Hin. rewrite map_app in Hin. apply in_app_or in Hin.
      destruct Hin as [Hin|Hin].
      * apply (Hfresh k); [now right | exact Hin].
      * apply param_pairs_keys in Hin. subst. contradiction.
Qed.

(** X1: the pairs that [buildUrl] puts in the query are those of the
    parameters in the order of the object: a parameter that is [undefined]
    or [null] gives nothing, an array one pair per element in the order of
    the array, any other value one pair with the value turned into a
    string. *)
Theorem buildUrl_query_in_order (base path : string) (params : Obj) :
  NoDup (keys params) ->
  url_query (buildUrl base path (Some params)) = flat_map param_pairs params.
Proof.
  intros Hnd. unfold buildUrl. cbn [url_query].
  rewrite buildUrl_fold_in_order; auto.
Qed.

Lemma buildUrl_query_in_order_witness :
  url_query (buildUrl "https://api.example.com" "/api/search"
               (Some [("query", JStr "test"); ("limit", JUndefined);
                      ("companies", JArr [JStr "Google"; JStr "Meta"]);
                      ("legacy", JBool false); ("offset", JNum 10)]))
  = [("query", "test"); ("companies", "Google"); ("companies", "Meta");
     ("legacy", "false"); ("offset", "10")].
Proof.
  apply (buildUrl_query_in_order "https://api.example.com" "/api/search").
  repeat constructor; simpl; intuition discriminate.
Defined.

Lemma occurrences_param_pairs_other key value k :
  key <> k -> occurrences k (param_pairs (key, value)) = [].
Proof.
  intros Hne. unfold occurrences.
  assert (H : forall l, (forall p, In p l -> fst p = key) ->
                        filter (fun p : string * string => String.eqb (fst p) k) l = []).
  { induction l as [|p l IH]; intros Hall; simpl; auto.
    rewrite (Hall p (or_introl eq_refl)).
    destruct (String.eqb_spec key k); [contradiction|].
    apply IH. intros. apply Hall. now right. }
  apply H. intros p Hp. apply (param_pairs_keys key value).
  now apply in_map.
Qed.

Lemma occurrences_param_pairs_same key value :
  occurrences key (param_pairs (key, value)) = param_pairs (key, value).
Proof.
  unfold occurrences.
  assert (H : forall l, (forall p, In p l -> fst p = key) ->
                        filter (fun p : string * string => String.eqb (fst p) key) l = l).
  { induction l as [|p l IH]; intros Hall; simpl; auto.
    rewrite (Hall p (or_introl eq_refl)), String.eqb_refl.
    f_equal. apply IH. intros. apply Hall. now right. }
  apply H. intros p Hp. apply (param_pairs_keys key value).
  now apply in_map.
Qed.

Lemma occurrences_app k a b :
  occurrences k (a ++ b)%list = (occurrences k a ++ occurrences k b)%list.
Proof. apply filter_app. Qed.

(** X2: in the query, a parameter name occurs once per element of an array
    value, in the order of the elements, once for any other value, and not
    at all when the parameter is absent, [undefined] or [null]. *)
Theorem buildUrl_occurrences (base path : string) (params : Obj) (k : string) :
  NoDup (keys params) ->
  occurrences k (url_query (buildUrl base path (Some params))) =
  match obj_get params k with
  | None | Some JUndefined | Some JNull => []
  | Some (JArr items) => map (fun item => (k, ToString item)) items
  | Some v => [(k, ToString v)]
  end.
Proof.
  intros Hnd. unfold buildUrl. cbn [url_query].
  rewrite buildUrl_fold_in_order by auto. cbn [app].
  induction params as [|[key value] params IH]; [reflexivity|].
  inversion Hnd as [|? ? Hnotin Hnd']; subst.
  cbn [flat_map obj_get]. rewrite occurrences_app.
  destruct (String.eqb_spec key k) as [->|Hne].
  - rewrite occurrences_param_pairs_same.
    rewrite IH by assumption.
    rewrite (proj2 (obj_get_None_not_key params k) Hnotin), app_nil_r.
    unfold param_pairs. now destruct value.
  - rewrite occurrences_param_pairs_other by assumption.
    apply IH. assumption.
Qed.

Lemma buildUrl_occurrences_witness :
  occurrences "companies"
    (url_query (buildUrl "https://api.example.com" "/api/search"
                  (Some [("query", JStr "test");
                         ("companies", JArr [JStr "Google"; JStr "Meta"])])))
  = [("companies", "Google"); ("companies", "Meta")].
Proof.
  apply (buildUrl_occurrences "https://api.example.com" "/api/search"
           [("query", JStr "test");
            ("companies", JArr [JStr "Google"; JStr "Meta"])] "companies").
  repeat constructor; simpl; intuition discriminate.
Defined.

(* ================================================================== *)
(** * Further properties: the parameter normaliser *)
(* ================================================================== *)

Lemma snakeKey_idempotent k : snakeKey (snakeKey k) = snakeKey k.
Proof.
  destruct (snakeKey_cases k) as [[w [Hin Hw]]|[[Hin Hw]|Hw]]; rewrite Hw.
  - simpl in Hin.
    repeat (destruct Hin as [Hin|Hin]; [inversion Hin; subst; reflexivity|]).
    contradiction.
  - simpl in Hin.
    repeat (destruct Hin as [Hin|Hin]; [subst k; reflexivity|]).
    contradiction.
  - exact Hw.
Qed.

Lemma obj_set_fresh {V} (o : Dict V) k v :
  ~ In k (keys o) -> obj_set o k v = (o ++ [(k, v)])%list.
Proof.
  induction o as [|[k0 v0] o IH]; simpl; intros Hfresh; auto.
  destruct (String.eqb_spec k0 k) as [->|Hne].
  - exfalso. apply Hfresh. now left.
  - f_equal. apply IH. intros H. apply Hfresh. now right.
Qed.

(** An object whose keys are their own wire names is copied as it is. *)
Lemma toSnakeCase_loop_fixed entries : forall result,
  NoDup (keys entries) ->
  (forall k, In k (keys entries) -> snakeKey k = k /\ ~ In k (keys result)) ->
  toSnakeCase_loop entries result = (result ++ entries)%list.
Proof.
  unfold toSnakeCase_loop.
  induction entries as [|[k v] entries IH]; intros result Hnd Hkeys.
  - simpl. now rewrite app_nil_r.
  - inversion Hnd as [|? ? Hnotin Hnd']; subst.
    destruct (Hkeys k (or_introl eq_refl)) as [Hk Hfresh].
    cbn [fold_left fst snd]. rewrite Hk, obj_set_fresh by assumption.
    rewrite IH; auto.
    + now rewrite <- app_assoc.
    + intros k' Hk'. destruct (Hkeys k' (or_intror Hk')) as [Hs Hf].
      split; auto. unfold keys. rewrite map_app. intros Hin.
      apply in_app_or in Hin. destruct Hin as [Hin|[Hin|[]]]; auto.
      simpl in Hin. subst. contradiction.
Qed.

(** X3: normalising twice is normalising once: the object that
    [toSnakeCase] returns is left as it is by [toSnakeCase], key by key
    and in the same order. *)
Theorem toSnakeCase_idempotent (obj : Obj) :
  toSnakeCase (toSnakeCase obj) = toSnakeCase obj.
Proof.
  unfold toSnakeCase at 1.
  rewrite toSnakeCase_loop_fixed; auto.
  - apply NoDup_toSnakeCase.
  - intros k Hk. split; [|intros []].
    apply toSnakeCase_loop_keys in Hk. destruct Hk as [[]|Hk].
    apply in_map_iff in Hk. destruct Hk as (k0 & <- & _).
    apply snakeKey_idempotent.
Qed.

(* ================================================================== *)
(** * Further properties: the backoff calculator *)
(* ================================================================== *)

(** X4: for a draw of [Math.random()] in [0, 1) and a base that is not
    negative, the delay lies between the exponential less 10 % and the
    exponential plus 10 %, each clamped to the ceiling; for base 1000 and
    ceiling 30000 the attempts 0, 1 and 2 give delays in [900, 1100],
    [1800, 2200] and [3600, 4400]. *)
Theorem calculateBackoff_within_jitter (r : Q) (attempt : Z) (base ceiling : Q) :
  (0 <= r)%Q -> (r < 1)%Q -> (0 <= base)%Q ->
  let delay := (base * Qpower 2 attempt)%Q in
  (Qmin ((9 # 10) * delay) ceiling
     <= calculateBackoff_at r attempt base ceiling)%Q /\
  (calculateBackoff_at r attempt base ceiling
     <= Qmin ((11 # 10) * delay) ceiling)%Q /\
  (900 <= calculateBackoff_at r 0 1000 30000 <= 1100)%Q /\
  (1800 <= calculateBackoff_at r 1 1000 30000 <= 2200)%Q /\
  (3600 <= calculateBackoff_at r 2 1000 30000 <= 4400)%Q.
Proof.
  intros Hr0 Hr1 Hbase delay.
  assert (Hbounds : forall a b c,
             (0 <= b)%Q ->
             (Qmin ((9 # 10) * (b * Qpower 2 a)) c
                <= calculateBackoff_at r a b c)%Q /\
             (calculateBackoff_at r a b c
                <= Qmin ((11 # 10) * (b * Qpower 2 a)) c)%Q).
  { intros a b c Hb. unfold calculateBackoff_at.
    assert (Hpow : (0 <= Qpower 2 a)%Q) by (apply Qpower_0_le; lra).
    set (d := (b * Qpower 2 a)%Q).
    assert (Hd : (0 <= d)%Q) by (unfold d; nra).
    split; apply Q.min_le_compat_r; nra. }
  split; [apply Hbounds; assumption|].
  split; [apply Hbounds; assumption|].
  assert (Hclamp : forall a lo hi,
             (lo == Qmin ((9 # 10) * (1000 * Qpower 2 a)) 30000)%Q ->
             (hi == Qmin ((11 # 10) * (1000 * Qpower 2 a)) 30000)%Q ->
             (lo <= calculateBackoff_at r a 1000 30000 <= hi)%Q).
  { intros a lo hi Hlo Hhi. rewrite Hlo, Hhi. apply Hbounds. lra. }
  split; [|split]; apply Hclamp; vm_compute; reflexivity.
Qed.

Lemma calculateBackoff_within_jitter_witness :
  (900 <= calculateBackoff_at (1 # 4) 0 1000 30000 <= 1100)%Q.
Proof.
  destruct (calculateBackoff_within_jitter (1 # 4) 0 1000 30000)
    as (_ & _ & H & _);
    [vm_compute; discriminate | reflexivity | vm_compute; discriminate
    | exact H].
Defined.

(* ================================================================== *)
(** * Further properties: error details *)
(* ================================================================== *)

Lemma parseErrorResponse_truthy response text json :
  rs_body response = BodyText text json ->
  text <> "" ->
  truthy (parseErrorResponse response) = true.
Proof.
  intros Hbody Htext. unfold parseErrorResponse, JSON_parse. rewrite Hbody.
  assert (Hneq : String.eqb text "" = false)
    by (destruct (String.eqb_spec text ""); congruence).
  assert (Htruthy : truthy (JStr text) = true) by (simpl; now rewrite Hneq).
  assert (Hor : forall a b, truthy b = true -> truthy (js_or a b) = true).
  { intros a b Hb. unfold js_or. now destruct (truthy a) eqn:E. }
  rewrite Hneq.
  destruct json as [value|reason].
  - destruct (get_prop value "detail"), (get_prop value "error"),
      (get_prop value "message"); unfold str_or; rewrite ?Hneq; auto.
  - unfold str_or. now rewrite Hneq.
Qed.

(** X5: the detail of a failed response.  Without a readable, non-empty
    body it is the status phrase.  With a non-empty body it is a truthy
    value, so that a detail that is a string is not empty (a truthy value
    that is not a string, an empty array say, is kept as it is): a truthy
    [detail] field of a JSON object wins over [error] and [message], and a
    body that is not JSON, or JSON without any of the three fields, gives
    the raw text. *)
Theorem parseErrorResponse_detail (response : Response) :
  match rs_body response with
  | BodyFails _ => parseErrorResponse response = JStr (rs_statusText response)
  | BodyText text json =>
      (text = "" ->
       parseErrorResponse response = JStr (rs_statusText response)) /\
      (text <> "" ->
       truthy (parseErrorResponse response) = true /\
       (forall s, parseErrorResponse response = JStr s -> s <> "") /\
       (forall o d, json = ParseOk (JObj o) ->
                    obj_get o "detail" = Some d -> truthy d = true ->
                    parseErrorResponse response = d) /\
       (forall o, json = ParseOk (JObj o) ->
                  obj_get o "detail" = None -> obj_get o "error" = None ->
                  obj_get o "message" = None ->
                  parseErrorResponse response = JStr text) /\
       (forall reason, json = SyntaxError reason ->
                       parseErrorResponse response = JStr text))
  end.
Proof.
  destruct (rs_body response) as [text json|reason] eqn:Hbody;
    [|unfold parseErrorResponse; now rewrite Hbody].
  split.
  - intros ->. unfold parseErrorResponse, JSON_parse. now rewrite Hbody.
  - intros Htext.
    pose proof (parseErrorResponse_truthy response text json Hbody Htext)
      as Htruthy.
    assert (Hneq : String.eqb text "" = false)
      by (destruct (String.eqb_spec text ""); congruence).
    split; [exact Htruthy|]. split.
    { intros s Hs. rewrite Hs in Htruthy. cbn in Htruthy.
      intros ->. discriminate. }
    unfold parseErrorResponse, JSON_parse. rewrite Hbody, Hneq.
    repeat split.
    + intros o d -> Hd Ht. simpl. rewrite Hd. unfold js_or at 1. now rewrite Ht.
    + intros o -> Hd He Hm. simpl. rewrite Hd, He, Hm. reflexivity.
    + intros reason ->. unfold str_or. now rewrite Hneq.
Qed.

Lemma parseErrorResponse_detail_witness :
  parseErrorResponse
    {| rs_status := 429; rs_statusText := "Too Many Requests";
       rs_headers := [];
       rs_body :=
         BodyText "{...}"
           (ParseOk (JObj [("error", JStr "slow down");
                           ("detail", JStr "Rate limit exceeded")])) |}
  = JStr "Rate limit exceeded".
Proof.
  pose proof (parseErrorResponse_detail
                {| rs_status := 429; rs_statusText := "Too Many Requests";
                   rs_headers := [];
                   rs_body :=
                     BodyText "{...}"
                       (ParseOk (JObj [("error", JStr "slow down");
                                       ("detail", JStr "Rate limit exceeded")]))
                |}) as H.
  cbn [rs_body] in H. destruct H as [_ H].
  destruct H as (_ & _ & Hdetail & _); [discriminate|].
  apply (Hdetail [("error", JStr "slow down");
                  ("detail", JStr "Rate limit exceeded")]);
    reflexivity.
Defined.

(** A truthy detail that is not a string is kept as it is: the empty array
    of the body [{"detail": []}] is the detail, and its text is empty. *)
Example parseErrorResponse_empty_array :
  let detail :=
    parseErrorResponse
      {| rs_status := 400; rs_statusText := "Bad Request"; rs_headers := [];
         rs_body := BodyText "{...}" (ParseOk (JObj [("detail", JArr [])])) |}
  in
  detail = JArr [] /\ truthy detail = true /\ ToString detail = "".
Proof. repeat split. Qed.

(* ================================================================== *)
(** * Further properties: the request engine *)
(* ================================================================== *)

Lemma verdict_throw_well_formed exchange retry maxRetries attempt e :
  verdict exchange retry maxRetries attempt = VThrow e ->
  well_formed_error e.
Proof.
  assert (Hnet : forall reason,
             well_formed_error
               (new_CladoError 0 (JStr ("Network error: " ++ reason)))).
  { intros reason. repeat split; simpl; try congruence; eauto. }
  unfold verdict. cbv zeta.
  destruct exchange as [response|reason].
  2:{ destruct (retry && (attempt <? maxRetries)); intros [= <-]. apply Hnet. }
  destruct (ok response).
  - destruct (rs_body response) as [text json|reason].
    + destruct (String.eqb text ""); [discriminate|].
      destruct (JSON_parse text json); [discriminate|].
      destruct (retry && (attempt <? maxRetries)); intros [= <-]. apply Hnet.
    + destruct (retry && (attempt <? maxRetries)); intros [= <-]. apply Hnet.
  - destruct (rs_status response =? 401) eqn:E401;
      [intros [= <-]; repeat split; simpl; try congruence; eauto|].
    destruct (rs_status response =? 404) eqn:E404;
      [intros [= <-]; repeat split; simpl; try congruence; eauto|].
    destruct (rs_status response =? 422) eqn:E422;
      [intros [= <-]; repeat split; simpl; try congruence; eauto|].
    destruct (rs_status response =? 429) eqn:E429.
    + destruct (retry && (attempt <? maxRetries)); intros [= <-].
      repeat split; simpl; try congruence; eauto.
    + destruct ((rs_status response >=? 500)
                && (retry && (attempt <? maxRetries))); intros [= <-].
      unfold well_formed_error, classify. simpl.
      rewrite E401, E404, E422, E429.
      repeat split; try congruence; eauto.
Qed.

Lemma request_loop_throws_own env req retry maxRetries fuel :
  forall attempt lastError t x,
    attempt <= maxRetries \/ lastError = None ->
    fst (request_loop env fuel req retry maxRetries attempt lastError t)
    = Thrown x ->
    exists e, x = Clado e /\ well_formed_error e.
Proof.
  induction fuel as [|fuel IH]; intros attempt lastError t x Hinv;
    destruct (Z.le_gt_cases attempt maxRetries) as [Hle|Hgt].
  - cbn [request_loop]. rewrite (proj2 (Z.leb_le _ _) Hle). discriminate.
  - rewrite request_loop_exhausted by lia.
    destruct Hinv as [Hinv| ->]; [lia|]. intros [= <-].
    eexists. split; [reflexivity|].
    repeat split; simpl; try congruence; eauto.
  - rewrite request_loop_iteration by assumption.
    pose proof (verdict_retry_has_budget retry maxRetries
                  (fetch env (count is_fetch t) req) attempt) as Hbudget.
    pose proof (verdict_throw_well_formed (fetch env (count is_fetch t) req)
                  retry maxRetries attempt) as Hwf.
    cbv zeta.
    destruct (verdict (fetch env (count is_fetch t) req) retry maxRetries
                      attempt) as [value|e|retryAfter|newLast].
    + discriminate.
    + intros [= <-]. exists e. split; auto.
    + apply IH. left. lia.
    + apply IH. left. lia.
  - rewrite request_loop_exhausted by lia.
    destruct Hinv as [Hinv| ->]; [lia|]. intros [= <-].
    eexists. split; [reflexivity|].
    repeat split; simpl; try congruence; eauto.
Qed.

(** X6: whatever the network does, and for every method, body, headers,
    retry flag and whole number of retries (the budgets of this model are
    integers), a call that fails raises an error of this library, never a
    foreign one: its kind goes with its status, it carries a retry-after
    value exactly when it is a rate-limit error, and its message is the one
    of the base class. *)
Theorem request_throws_own_errors (env : Env) (url : Url) (apiKey : string)
        (options : RequestOptions) (t : Trace) (x : Exn) :
  fst (request env url apiKey options t) = Thrown x ->
  exists e, x = Clado e /\ well_formed_error e.
Proof.
  unfold request. apply request_loop_throws_own. now right.
Qed.

Lemma request_throws_own_errors_witness :
  exists e,
    Clado (new_CladoError 0 (JStr "Network error: connection refused"))
    = Clado e /\ well_formed_error e.
Proof.
  apply (request_throws_own_errors env_offline demo_url "lk_test" no_options []).
  reflexivity.
Defined.

(** X7: a call whose exchange answers with a successful status returns
    after this one fetch, without sleeping: the empty object when the body
    is empty, the parsed value when the body is JSON. *)
Theorem request_success (env : Env) (url : Url) (apiKey : string)
        (options : RequestOptions) (t : Trace) (response : Response)
        (text : string) (json : Parsed) :
  let req := fetch_request url apiKey options in
  0 <= or_else (ro_maxRetries options) DEFAULT_maxRetries ->
  fetch env (count is_fetch t) req = Responded response ->
  ok response = true ->
  rs_body response = BodyText text json ->
  (text = "" ->
   request env url apiKey options t
   = (Returned (JObj []), (t ++ [EvFetch req])%list)) /\
  (forall value, text <> "" -> json = ParseOk value ->
   request env url apiKey options t
   = (Returned value, (t ++ [EvFetch req])%list)).
Proof.
  intros req Hmax Hfetch Hok Hbody. unfold request. fold req.
  destruct (Z.to_nat (or_else (ro_maxRetries options) DEFAULT_maxRetries + 1))
    as [|fuel] eqn:E; [lia|].
  rewrite request_loop_iteration by lia. rewrite Hfetch.
  unfold verdict, JSON_parse. rewrite Hok, Hbody. split.
  - intros ->. reflexivity.
  - intros value Htext ->.
    destruct (String.eqb_spec text ""); [contradiction | reflexivity].
Qed.

Lemma request_success_witness :
  request (demo_env (fun _ _ => respond 200 "OK" []
                                  (JObj [("credits_remaining", JNum 42)])))
          demo_url "lk_test" no_options []
  = (Returned (JObj [("credits_remaining", JNum 42)]),
     [EvFetch (fetch_request demo_url "lk_test" no_options)]).
Proof.
  eapply (request_success _ demo_url "lk_test" no_options []).
  - vm_compute. discriminate.
  - reflexivity.
  - reflexivity.
  - reflexivity.
  - vm_compute. discriminate.
  - reflexivity.
Defined.

Section NetworkDown.
Variable env : Env.
Variables (req : FetchRequest) (maxRetries : Z).
Hypothesis Hdown : always_rejected env.

(** Against a network that is down, the loop spends its budget and then
    wraps the last failure. *)
Lemma request_loop_always_rejected :
  forall (k fuel : nat) attempt lastError t,
    attempt + Z.of_nat k = maxRetries ->
    (k < fuel)%nat ->
    exists reason evs,
      fetch env (count is_fetch t + k) req = Rejected reason /\
      request_loop env fuel req true maxRetries attempt lastError t =
      (Thrown (Clado (new_CladoError 0 (JStr ("Network error: " ++ reason)))),
       (t ++ evs)%list) /\
      count is_fetch evs = S k /\ count is_sleep evs = k.
Proof.
  induction k as [|k IH]; intros fuel attempt lastError t Hk Hfuel;
    (destruct fuel as [|fuel]; [lia|]);
    rewrite request_loop_iteration by lia;
    destruct (Hdown (count is_fetch t) req) as (reason & Hfetch);
    rewrite Hfetch; unfold verdict; cbv zeta; cbn [andb].
  - rewrite (proj2 (Z.ltb_ge _ _)) by lia.
    exists reason, [EvFetch req]. rewrite Nat.add_0_r.
    repeat split; auto.
  - rewrite (proj2 (Z.ltb_lt _ _)) by lia.
    destruct (IH fuel (attempt + 1) (Some (Foreign reason))
                 ((t ++ [EvFetch req]) ++ backoff_events env t attempt)%list)
      as (reason' & evs & Hlast & Heq & Hf & Hs); [lia | lia |].
    exists reason', ([EvFetch req] ++ backoff_events env t attempt ++ evs)%list.
    rewrite Heq, <- !app_assoc. repeat split.
    + rewrite <- Hlast. f_equal. rewrite !count_app. cbn. lia.
    + rewrite !count_app, Hf. reflexivity.
    + rewrite !count_app, Hs. reflexivity.
Qed.
End NetworkDown.



(** X9: when the budget of retries is not negative, a call with retrying
    disabled, or with a budget of no retry, makes exactly one network
    attempt and never sleeps, whatever the exchange gives. *)
Theorem request_single_attempt (env : Env) (url : Url) (apiKey : string)
        (options : RequestOptions) (t : Trace) :
  let maxRetries := or_else (ro_maxRetries options) DEFAULT_maxRetries in
  0 <= maxRetries ->
  or_else (ro_retry options) true = false \/ maxRetries = 0 ->
  settled (fst (request env url apiKey options t)) /\
  snd (request env url apiKey options t)
  = (t ++ [EvFetch (fetch_request url apiKey options)])%list.
Proof.
  intros maxRetries Hmax Hsingle. unfold request. fold maxRetries.
  destruct (Z.to_nat (maxRetries + 1)) as [|fuel] eqn:E; [lia|].
  rewrite request_loop_iteration by lia.
  pose proof (verdict_retry_has_budget (or_else (ro_retry options) true)
                maxRetries
                (fetch env (count is_fetch t) (fetch_request url apiKey options))
                0) as Hbudget.
  cbv zeta.
  destruct (verdict _ _ _ _) as [value|e|retryAfter|newLast];
    try (split; [exact I | reflexivity]);
    destruct Hbudget as [Hr Hlt]; destruct Hsingle; [congruence | lia
                                                     | congruence | lia].
Qed.

Lemma request_single_attempt_witness :
  snd (request env_always_500 demo_url "lk_test" no_retry [])
  = [EvFetch (fetch_request demo_url "lk_test" no_retry)].
Proof.
  apply (request_single_attempt env_always_500 demo_url "lk_test" no_retry []).
  - vm_compute. discriminate.
  - left. reflexivity.
Defined.

(** X10: a request is sent exactly when the budget is not negative.  With
    a negative [maxRetries] the call touches nothing and raises the error
    "Request failed after retries" with status 0; otherwise the first thing
    it does is a fetch. *)
Theorem request_sent_iff_budget (env : Env) (url : Url) (apiKey : string)
        (options : RequestOptions) (t : Trace) :
  let maxRetries := or_else (ro_maxRetries options) DEFAULT_maxRetries in
  (maxRetries < 0 ->
   request env url apiKey options t
   = (Thrown (Clado (new_CladoError 0 (JStr "Request failed after retries"))),
      t)) /\
  (0 <= maxRetries ->
   exists evs,
     snd (request env url apiKey options t)
     = (t ++ EvFetch (fetch_request url apiKey options) :: evs)%list).
Proof.
  intros maxRetries. unfold request. fold maxRetries. split.
  - intros Hneg. now rewrite request_loop_exhausted by lia.
  - intros Hmax.
    destruct (Z.to_nat (maxRetries + 1)) as [|fuel] eqn:E; [lia|].
    rewrite request_loop_iteration by lia. cbv zeta.
    destruct (verdict _ _ _ _) as [value|e|retryAfter|newLast].
    + now exists [].
    + now exists [].
    + match goal with
      | |- context [request_loop env ?f ?r ?b ?m ?a ?l ?t0] =>
          destruct (request_loop_bounded env r b m f a l t0) as (evs & Hsnd & _)
      end.
      rewrite Hsnd, <- !app_assoc. eexists. reflexivity.
    + match goal with
      | |- context [request_loop env ?f ?r ?b ?m ?a ?l ?t0] =>
          destruct (request_loop_bounded env r b m f a l t0) as (evs & Hsnd & _)
      end.
      rewrite Hsnd, <- !app_assoc. eexists. reflexivity.
Qed.

Lemma request_sent_iff_budget_witness :
  request env_always_500 demo_url "lk_test"
          {| ro_method := None; ro_body := JUndefined; ro_headers := None;
             ro_retry := None; ro_maxRetries := Some (-1) |} []
  = (Thrown (Clado (new_CladoError 0 (JStr "Request failed after retries"))),
     []).
Proof.
  apply (request_sent_iff_budget env_always_500 demo_url "lk_test").
  vm_compute. reflexivity.
Defined.



Section RateLimited.
Variable env : Env.
Variables (req : FetchRequest) (maxRetries seconds : Z).
Hypothesis Hlimited : always_rate_limited env seconds.

(** Against a server that always limits the rate, the loop waits the
    seconds of the header before each retry, and raises when the budget is
    spent. *)
Lemma request_loop_always_rate_limited :
  forall (k fuel : nat) attempt lastError t,
    attempt + Z.of_nat k = maxRetries ->
    (k < fuel)%nat ->
    exists e evs,
      request_loop env fuel req true maxRetries attempt lastError t =
      (Thrown (Clado e), (t ++ evs)%list) /\
      kind e = RateLimit /\ status e = 429 /\
      retryAfter e = Some (Some seconds) /\
      count is_fetch evs = S k /\
      sleeps evs = repeat (Some (inject_Z (seconds * 1000))) k.
Proof.
  induction k as [|k IH]; intros fuel attempt lastError t Hk Hfuel;
    (destruct fuel as [|fuel]; [lia|]);
    rewrite request_loop_iteration by lia;
    destruct (Hlimited (count is_fetch t) req)
      as (response & Hfetch & Hstatus & Hheader);
    rewrite Hfetch, (verdict_429 response true maxRetries attempt Hstatus),
      (retryAfter_of_seconds response seconds Hheader); cbv zeta; cbn [andb].
  - rewrite (proj2 (Z.ltb_ge _ _)) by lia.
    eexists _, [EvFetch req]. repeat split; reflexivity.
  - rewrite (proj2 (Z.ltb_lt _ _)) by lia.
    match goal with
    | |- context [request_loop env fuel req true maxRetries (attempt + 1)
                               lastError ?t0] =>
        destruct (IH fuel (attempt + 1) lastError t0)
          as (e & evs & Heq & Hkind & Hst & Hra & Hf & Hs); [lia | lia |]
    end.
    exists e,
      (EvFetch req :: EvSleep (Some (inject_Z (seconds * 1000))) :: evs).
    rewrite Heq, <- !app_assoc. repeat split; auto.
    + rewrite !count_cons, Hf. reflexivity.
    + cbn [sleeps repeat]. now rewrite Hs.
Qed.
End RateLimited.



(** X13: a server error is recovered: when an attempt answers with a
    status of 500 or more, a retry remains and the next exchange answers
    with a JSON body, the call sleeps the backoff delay once and returns
    the parsed body of the second answer. *)
Theorem request_recovers (env : Env) (url : Url) (apiKey : string)
        (options : RequestOptions) (t : Trace) (response : Response)
        (payload : JS) :
  let req := fetch_request url apiKey options in
  or_else (ro_retry options) true = true ->
  1 <= or_else (ro_maxRetries options) DEFAULT_maxRetries ->
  fetch env (count is_fetch t) req = Responded response ->
  500 <= rs_status response ->
  answers_to env (S (count is_fetch t)) req payload ->
  request env url apiKey options t =
  (Returned payload,
   (t ++ [EvFetch req] ++ backoff_events env t 0 ++ [EvFetch req])%list).
Proof.
  intros req Hretry Hmax Hfetch Hstatus
         (response2 & text & Hfetch2 & Hok2 & Hbody2 & Htext2).
  unfold request. fold req. rewrite Hretry.
  set (maxRetries := or_else (ro_maxRetries options) DEFAULT_maxRetries) in *.
  destruct (Z.to_nat (maxRetries + 1)) as [|[|fuel]] eqn:E; try lia.
  rewrite request_loop_iteration by lia. rewrite Hfetch.
  assert (Hv : verdict (Responded response) true maxRetries 0 = VBackoff None).
  { unfold verdict, ok. cbv zeta.
    replace (rs_status response <=? 299) with false
      by (symmetry; apply Z.leb_gt; lia).
    rewrite andb_false_r.
    rewrite (proj2 (Z.eqb_neq _ 401)), (proj2 (Z.eqb_neq _ 404)),
      (proj2 (Z.eqb_neq _ 422)), (proj2 (Z.eqb_neq _ 429)) by lia.
    rewrite Z.geb_leb, (proj2 (Z.leb_le 500 _)) by lia.
    now rewrite (proj2 (Z.ltb_lt 0 maxRetries)) by lia. }
  rewrite Hv. cbv zeta.
  rewrite request_loop_iteration by lia.
  assert (Hcount : count is_fetch
                     ((t ++ [EvFetch req]) ++ backoff_events env t 0)%list
                   = S (count is_fetch t)).
  { rewrite !count_app. cbn. lia. }
  rewrite Hcount, Hfetch2.
  unfold verdict, JSON_parse. rewrite Hok2, Hbody2.
  destruct (String.eqb_spec text ""); [contradiction|].
  cbv zeta. now rewrite <- !app_assoc.
Qed.

Lemma request_recovers_witness :
  let env := demo_env (fun n _ =>
               match n with
               | O => respond 503 "Service Unavailable" [] server_error
               | _ => respond 200 "OK" [] (JObj [("total", JNum 3)])
               end) in
  fst (request env demo_url "lk_test" no_options [])
  = Returned (JObj [("total", JNum 3)]).
Proof.
  intros env.
  erewrite (request_recovers env demo_url "lk_test" no_options []).
  - reflexivity.
  - reflexivity.
  - vm_compute. discriminate.
  - reflexivity.
  - vm_compute. discriminate.
  - eexists _, _. repeat split; vm_compute; discriminate.
Defined.

Lemma verdict_retry_after_inv exchange retry maxRetries attempt retryAfter :
  verdict exchange retry maxRetries attempt = VRetryAfter retryAfter ->
  exists response,
    exchange = Responded response /\
    rs_status response = 429 /\ retryAfter = retryAfter_of response.
Proof.
  unfold verdict. cbv zeta.
  destruct exchange as [response|reason];
    [|destruct (retry && (attempt <? maxRetries)); discriminate].
  destruct (ok response).
  - destruct (rs_body response) as [text json|reason].
    + destruct (String.eqb text ""); [discriminate|].
      destruct (JSON_parse text json); [discriminate|].
      destruct (retry && (attempt <? maxRetries)); discriminate.
    + destruct (retry && (attempt <? maxRetries)); discriminate.
  - destruct (rs_status response =? 401); [discriminate|].
    destruct (rs_status response =? 404); [discriminate|].
    destruct (rs_status response =? 422); [discriminate|].
    destruct (rs_status response =? 429) eqn:E.
    + destruct (retry && (attempt <? maxRetries)); [|discriminate].
      intros [= <-]. exists response. repeat split; auto. now apply Z.eqb_eq.
    + destruct ((rs_status response >=? 500)
                && (retry && (attempt <? maxRetries))); discriminate.
Qed.

(** A sleep accounted for in the rest of a run, after one more attempt, is
    accounted for in the run. *)
Lemma sleep_accounted_later env req first t round before ms :
  count is_fetch round = 1%nat ->
  sleep_accounted env req (first + 1) (t ++ round)%list before ms ->
  sleep_accounted env req first t (round ++ before)%list ms.
Proof.
  intros Hround [(earlier & response & -> & Hfetch & Hstatus & ->)
                |(earlier & -> & -> & Hq)].
  - left. exists (round ++ earlier)%list, response.
    rewrite <- app_assoc in Hfetch.
    split; [now rewrite app_assoc|]. auto.
  - right. exists (round ++ earlier)%list.
    split; [now rewrite app_assoc|]. split; [|exact Hq].
    rewrite <- app_assoc, (count_app is_fetch round), Hround.
    replace (first + Z.of_nat (1 + count is_fetch earlier))
      with (first + 1 + Z.of_nat (count is_fetch earlier)) by lia.
    reflexivity.
Qed.

Lemma request_loop_sleeps_accounted env req retry maxRetries fuel :
  forall attempt lastError t,
  exists evs,
    snd (request_loop env fuel req retry maxRetries attempt lastError t)
    = (t ++ evs)%list /\
    forall before ms after,
      evs = (before ++ EvSleep ms :: after)%list ->
      sleep_accounted env req attempt t before ms.
Proof.
  induction fuel as [|fuel IH]; intros attempt lastError t;
    destruct (Z.le_gt_cases attempt maxRetries) as [Hle|Hgt].
  - exists []. cbn [request_loop]. rewrite (proj2 (Z.leb_le _ _) Hle).
    split; [simpl; now rewrite app_nil_r|].
    intros [|? ?] ? ? H; discriminate.
  - exists []. rewrite request_loop_exhausted by lia.
    split; [simpl; now rewrite app_nil_r|].
    intros [|? ?] ? ? H; discriminate.
  - rewrite request_loop_iteration by assumption.
    pose proof (verdict_retry_after_inv (fetch env (count is_fetch t) req)
                  retry maxRetries attempt) as Hinv.
    cbv zeta.
    destruct (verdict (fetch env (count is_fetch t) req) retry maxRetries
                      attempt) as [value|e|retryAfter|newLast].
    + exists [EvFetch req]. split; [reflexivity|].
      intros [|? [|? ?]] ? ? H; discriminate.
    + exists [EvFetch req]. split; [reflexivity|].
      intros [|? [|? ?]] ? ? H; discriminate.
    + destruct (Hinv retryAfter eq_refl)
        as (response & Hfetch & Hstatus & ->).
      match goal with
      | |- context [request_loop env fuel req retry maxRetries ?a ?l ?t0] =>
          destruct (IH a l t0) as (evs & Hsnd & Hall)
      end.
      exists (EvFetch req
                :: EvSleep (seconds_to_ms (retryAfter_of response)) :: evs).
      split; [rewrite Hsnd, <- !app_assoc; reflexivity|].
      intros [|b1 [|b2 before]] ms after H; [discriminate | |].
      * cbn [app] in H. injection H as Hb1 Hms _. subst b1 ms.
        left. exists [], response. rewrite app_nil_r. auto.
      * cbn [app] in H. injection H as Hb1 Hb2 H. subst b1 b2.
        apply (sleep_accounted_later env req attempt t
                 [EvFetch req; EvSleep (seconds_to_ms (retryAfter_of response))]);
          [reflexivity|].
        rewrite <- app_assoc in Hall. now apply (Hall before ms after).
    + match goal with
      | |- context [request_loop env fuel req retry maxRetries ?a ?l ?t0] =>
          destruct (IH a l t0) as (evs & Hsnd & Hall)
      end.
      exists (EvFetch req :: (backoff_events env t attempt ++ evs))%list.
      split; [rewrite Hsnd, <- !app_assoc; reflexivity|].
      unfold backoff_events in *. cbn [app].
      intros [|b1 [|b2 [|b3 before]]] ms after H;
        [discriminate | discriminate | |].
      * cbn [app] in H. injection H as Hb1 Hb2 Hms _. subst b1 b2 ms.
        right. exists []. rewrite app_nil_r.
        split; [reflexivity|]. split.
        -- unfold count at 2. cbn [filter List.length Z.of_nat].
           now rewrite Z.add_0_r.
        -- eexists. split; [reflexivity|].
           unfold calculateBackoff_at. apply Q.le_min_r.
      * cbn [app] in H. injection H as Hb1 Hb2 Hb3 H. subst b1 b2 b3.
        match goal with
        | |- sleep_accounted _ _ _ _ (_ :: _ :: ?s :: _) _ =>
            apply (sleep_accounted_later env req attempt t
                     [EvFetch req; EvRandom; s]); [reflexivity|]
        end.
        rewrite <- !app_assoc in Hall. now apply (Hall before ms after).
  - exists []. rewrite request_loop_exhausted by lia.
    split; [simpl; now rewrite app_nil_r|].
    intros [|? ?] ? ? H; discriminate.
Qed.

(** X14: every sleep of a call is accounted for by what the call has just
    done.  Either the fetch just before it got a 429 response, and the
    sleep is the [Retry-After] of that very response, in seconds; or the
    call has just drawn [Math.random()] after a fetch, and the sleep is the
    backoff delay computed from that draw and the number of the attempt,
    which is at most 30000 ms. *)
Theorem request_sleeps_accounted (env : Env) (url : Url) (apiKey : string)
        (options : RequestOptions) (t : Trace) :
  exists evs,
    snd (request env url apiKey options t) = (t ++ evs)%list /\
    forall before ms after,
      evs = (before ++ EvSleep ms :: after)%list ->
      sleep_accounted env (fetch_request url apiKey options) 0 t before ms.
Proof. unfold request. apply request_loop_sleeps_accounted. Qed.

(* ================================================================== *)
(** * Further properties: the client *)
(* ================================================================== *)

(** X15: a client is only ever built with a non-empty API key: the key of
    the options when it is a non-empty string, the key of the environment
    otherwise, and an [Error] when both are missing or empty.  The base URL
    is the one of the options, empty or not, and the default without one. *)
Theorem new_CladoClient_key (CLADO_API_KEY : option string)
        (options : CladoClientOptions) :
  match new_CladoClient CLADO_API_KEY options with
  | inr client =>
      apiKey client <> "" /\
      (if given (co_apiKey options)
       then co_apiKey options = Some (apiKey client)
       else CLADO_API_KEY = Some (apiKey client)) /\
      baseUrl client =
        match co_baseUrl options with
        | Some url => url
        | None => "https://search.clado.ai"
        end
  | inl e =>
      e = Foreign "API key not provided and CLADO_API_KEY env var is not set"
      /\ given (co_apiKey options) = false /\ given CLADO_API_KEY = false
  end.
Proof.
  unfold new_CladoClient.
  destruct options as [[key|] url], CLADO_API_KEY as [envKey|];
    cbn [co_apiKey co_baseUrl given or_else];
    try destruct (String.eqb_spec key "") as [->|Hkey];
    try destruct (String.eqb_spec envKey "") as [->|Henv];
    cbn [negb given or_else String.eqb apiKey baseUrl co_baseUrl];
    repeat split; auto; now destruct url.
Qed.

(** A request with a budget starts with a fetch, and ends. *)
Lemma request_first_fetch env url apiKey options t :
  0 <= or_else (ro_maxRetries options) DEFAULT_maxRetries ->
  exists out evs,
    request env url apiKey options t =
    (out, (t ++ EvFetch (fetch_request url apiKey options) :: evs)%list) /\
    settled out.
Proof.
  intros Hmax.
  pose proof (request_settles env url apiKey options t) as Hsettled.
  destruct (request env url apiKey options t) as [out t1] eqn:Hrun.
  exists out.
  assert (Hsnd : exists evs,
             snd (request env url apiKey options t) =
             (t ++ EvFetch (fetch_request url apiKey options) :: evs)%list).
  { unfold request.
    destruct (Z.to_nat (or_else (ro_maxRetries options) DEFAULT_maxRetries + 1))
      as [|fuel] eqn:E; [lia|].
    rewrite request_loop_iteration by lia. cbv zeta.
    destruct (verdict _ _ _ _) as [value|e|retryAfter|newLast].
    - now exists [].
    - now exists [].
    - match goal with
      | |- context [request_loop env ?f ?r ?b ?m ?a ?l ?t0] =>
          destruct (request_loop_bounded env r b m f a l t0) as (evs & Hsnd & _)
      end.
      rewrite Hsnd, <- !app_assoc. eexists. reflexivity.
    - match goal with
      | |- context [request_loop env ?f ?r ?b ?m ?a ?l ?t0] =>
          destruct (request_loop_bounded env r b m f a l t0) as (evs & Hsnd & _)
      end.
      rewrite Hsnd, <- !app_assoc. eexists. reflexivity. }
  destruct Hsnd as (evs & Hsnd). rewrite Hrun in Hsnd. cbn [snd] in Hsnd.
  exists evs. subst t1. split; [reflexivity | exact Hsettled].
Qed.

Lemma request_wire env url apiKey options t :
  exists evs,
    snd (request env url apiKey options t) = (t ++ evs)%list /\
    settled (fst (request env url apiKey options t)) /\
    (count is_fetch evs
     <= Z.to_nat (or_else (ro_maxRetries options) DEFAULT_maxRetries + 1))%nat
    /\
    forall r, In r (fetches evs) -> r = fetch_request url apiKey options.
Proof.
  unfold request.
  destruct (request_loop_bounded env (fetch_request url apiKey options)
              (or_else (ro_retry options) true)
              (or_else (ro_maxRetries options) DEFAULT_maxRetries)
              (Z.to_nat (or_else (ro_maxRetries options) DEFAULT_maxRetries + 1))
              0 None t) as (evs & Hsnd & Hreq & Hfetch & _ & Hend).
  exists evs. repeat split; auto.
  - apply Hend. lia.
  - rewrite Z.sub_0_r in Hfetch. exact Hfetch.
Qed.

Lemma on_the_wire_get client path params :
  on_the_wire client
    (fetch_request (buildUrl (baseUrl client) path params) (apiKey client)
                   no_options).
Proof. unfold on_the_wire. cbn. repeat split; auto. Qed.

Lemma on_the_wire_post client path body :
  on_the_wire client
    (fetch_request (buildUrl (baseUrl client) path None) (apiKey client)
                   (post_options body)).
Proof.
  unfold on_the_wire, fetch_request, requestHeaders.
  cbn [post_options ro_body ro_method ro_headers or_else fr_url fr_headers
       fr_body fr_method buildUrl url_base url_query].
  destruct (truthy body); cbn; repeat split; auto.
Qed.

(** X16: whatever the call of the client that makes one request, and
    whatever the network does, the call ends after at most four attempts,
    and every one of them carries [Authorization: Bearer <key>] and
    [Accept: application/json], has [Content-Type: application/json]
    exactly when it has a body, has no other header, and is a GET without a
    body or a POST. *)
Theorem client_calls_on_the_wire (env : Env) (client : CladoClient)
        (call : ApiCall) (t : Trace) :
  exists evs,
    snd (perform env client call t) = (t ++ evs)%list /\
    settled (fst (perform env client call t)) /\
    (count is_fetch evs <= 4)%nat /\
    forall r, In r (fetches evs) -> on_the_wire client r.
Proof.
  destruct call; cbn [perform];
    unfold searchPeople, initiateDeepResearch, getDeepResearchStatus,
           cancelDeepResearch, continueDeepResearch, getContactInfo,
           scrapeLinkedInProfile, getLinkedInProfile, getPostReactions,
           getCredits; cbv zeta;
    match goal with
    | |- context [request env ?url ?key ?opts t] =>
        destruct (request_wire env url key opts t)
          as (evs & Hsnd & Hend & Hcount & Hreq)
    end;
    exists evs; (split; [exact Hsnd|]); (split; [exact Hend|]);
    (split; [exact Hcount|]);
    intros r Hr; rewrite (Hreq r Hr);
    first [apply on_the_wire_get | apply on_the_wire_post].
Qed.

Lemma occurrences_query params k :
  NoDup (keys params) ->
  occurrences k (fold_left buildUrl_entry params []) =
  match obj_get params k with
  | None | Some JUndefined | Some JNull => []
  | Some (JArr items) => map (fun item => (k, ToString item)) items
  | Some v => [(k, ToString v)]
  end.
Proof.
  intros Hnd.
  rewrite buildUrl_fold_in_order by auto. cbn [app].
  induction params as [|[key value] params IH]; [reflexivity|].
  inversion Hnd as [|? ? Hnotin Hnd']; subst.
  cbn [flat_map obj_get]. rewrite occurrences_app.
  destruct (String.eqb_spec key k) as [->|Hne].
  - rewrite occurrences_param_pairs_same.
    rewrite IH by assumption.
    rewrite (proj2 (obj_get_None_not_key params k) Hnotin), app_nil_r.
    unfold param_pairs. now destruct value.
  - rewrite occurrences_param_pairs_other by assumption.
    apply IH. assumption.
Qed.

(** X17: [getLinkedInProfile] always asks for the database: whatever the
    options of the caller, also with a [database] entry of their own, every
    request of the call has the query parameter [database] exactly once,
    with the value [true]; and the call makes at least one request. *)
Theorem getLinkedInProfile_database (env : Env) (client : CladoClient)
        (options : Obj) (t : Trace) :
  exists r evs,
    snd (getLinkedInProfile env client options t)
    = (t ++ EvFetch r :: evs)%list /\
    forall r', In r' (r :: fetches evs) ->
      url_path (fr_url r') = "/api/enrich/linkedin" /\
      occurrences "database" (url_query (fr_url r')) = [("database", "true")].
Proof.
  unfold getLinkedInProfile. cbv zeta.
  set (params := obj_set (obj_spread [] (toSnakeCase options)) "database"
                         (JBool true)).
  set (url := buildUrl (baseUrl client) "/api/enrich/linkedin" (Some params)).
  destruct (request_trace env client url t) as (evs & Hsnd).
  destruct (request_wire env url (apiKey client) no_options t)
    as (evs' & Hsnd' & _ & _ & Hreq).
  exists (fetch_request url (apiKey client) no_options), evs.
  split; [exact Hsnd|].
  assert (Hevs : evs' = (EvFetch (fetch_request url (apiKey client) no_options)
                           :: evs)%list).
  { rewrite Hsnd in Hsnd'. now apply app_inv_head in Hsnd'. }
  intros r' Hr'.
  assert (Heq : r' = fetch_request url (apiKey client) no_options).
  { destruct Hr' as [<-|Hr']; [reflexivity|].
    apply Hreq. rewrite Hevs. cbn [fetches]. now right. }
  rewrite Heq. cbn [fetch_request fr_url url buildUrl url_path url_query].
  split; [reflexivity|].
  assert (Hnd : NoDup (keys params)).
  { apply NoDup_obj_set, NoDup_obj_spread. constructor. }
  rewrite occurrences_query by exact Hnd.
  unfold params. rewrite obj_get_set_same. reflexivity.
Qed.

(* ================================================================== *)
(** * Further properties: the pagination iterator *)
(* ================================================================== *)

Lemma page_request_page client options searchId offset limit items :
  page items
       (nat_param (page_request client options searchId offset limit)
                  "offset" 0)
       (nat_param (page_request client options searchId offset limit)
                  "limit" 30)
  = page items (Z.to_nat offset) (Z.to_nat limit).
Proof.
  destruct (page_request_cursor client options searchId offset limit)
    as (Hoff & Hlim).
  unfold nat_param. rewrite Hoff, Hlim, !parseInt10_string_of_Z. reflexivity.
Qed.

Section AllPages.
Variable env : Env.
Variable client : CladoClient.
Variable options : Obj.
Variable items : list JS.
Variable search_id : string.
Hypothesis Hserver : serves_pages env items search_id.

Lemma searchPeopleAll_loop_all (limit : nat) :
  (1 <= limit)%nat ->
  forall fuel offset searchId t,
    ((List.length items - offset - 1) / limit < fuel)%nat ->
    searchPeopleAll_loop env client fuel options (Z.of_nat limit) searchId
                         (Z.of_nat offset) t
    = ((skipn offset items, Returned tt),
       (t ++ map EvFetch
               (page_requests client options (Z.of_nat limit) search_id
                  searchId (Z.of_nat offset)
                  (S ((List.length items - offset - 1) / limit))))%list).
Proof.
  intros Hlimit.
  induction fuel as [|fuel IH]; intros offset searchId t Hfuel; [lia|].
  set (req := page_request client options searchId (Z.of_nat offset)
                           (Z.of_nat limit)).
  destruct (Hserver (count is_fetch t) req)
    as (payload & Hans & Hres & Htotal & Htoken).
  unfold req in Hres. rewrite page_request_page, !Nat2Z.id in Hres.
  rewrite (searchPeopleAll_page env client fuel options (Z.of_nat limit)
             searchId (Z.of_nat offset) t payload _ _ _
             Hans Hres Htotal Htoken).
  cbv zeta. fold req. unfold page.
  rewrite length_firstn, length_skipn.
  destruct (Nat.le_gt_cases (List.length items) (offset + limit))
    as [Hlast|Hmore].
  - replace ((Z.of_nat (Nat.min limit (List.length items - offset))
              <? Z.of_nat limit)
             || (Z.of_nat offset
                 + Z.of_nat (Nat.min limit (List.length items - offset))
                 >=? Z.of_nat (List.length items))) with true
      by (symmetry; apply orb_true_iff;
          rewrite Z.ltb_lt, Z.geb_le; lia).
    rewrite Nat.div_small by lia. cbn [page_requests map].
    rewrite firstn_all2 by (rewrite length_skipn; lia).
    reflexivity.
  - replace ((Z.of_nat (Nat.min limit (List.length items - offset))
              <? Z.of_nat limit)
             || (Z.of_nat offset
                 + Z.of_nat (Nat.min limit (List.length items - offset))
                 >=? Z.of_nat (List.length items))) with false
      by (symmetry; apply orb_false_iff;
          rewrite Z.ltb_ge, Z.geb_leb, Z.leb_gt; lia).
    assert (Hdiv : ((List.length items - offset - 1) / limit
                    = S ((List.length items - (offset + limit) - 1) / limit))%nat).
    { replace (List.length items - offset - 1)%nat
        with ((List.length items - (offset + limit) - 1) + 1 * limit)%nat
        by lia.
      rewrite Nat.div_add by lia. lia. }
    replace (Nat.min limit (List.length items - offset)) with limit by lia.
    rewrite <- Nat2Z.inj_add.
    unfold yield_then.
    rewrite IH by lia.
    rewrite Hdiv. cbn [page_requests map]. fold req.
    rewrite <- Nat2Z.inj_add, <- app_assoc. cbn [app].
    replace (skipn (offset + limit) items)
      with (skipn limit (skipn offset items))
      by (rewrite skipn_skipn; f_equal; lia).
    rewrite firstn_skipn, !Nat2Z.inj_add. reflexivity.
Qed.

Lemma searchPeopleAll_loop_stuck (limit : Z) :
  limit <= 0 ->
  items <> [] ->
  forall fuel searchId t,
  exists evs,
    searchPeopleAll_loop env client fuel options limit searchId 0 t
    = (([], OutOfFuel), (t ++ evs)%list) /\
    List.length (fetches evs) = fuel /\
    (forall e, In e evs -> is_fetch e = true) /\
    forall r, In r (fetches evs) -> query_param r "offset" = Some "0".
Proof.
  intros Hlimit Hitems.
  induction fuel as [|fuel IH]; intros searchId t.
  - exists []. cbn. rewrite app_nil_r. repeat split; intros ? [].
  - set (req := page_request client options searchId 0 limit).
    destruct (Hserver (count is_fetch t) req)
      as (payload & Hans & Hres & Htotal & Htoken).
    unfold req in Hres. rewrite page_request_page in Hres.
    replace (Z.to_nat limit) with 0%nat in Hres by lia.
    unfold page in Hres. cbn [firstn] in Hres.
    rewrite (searchPeopleAll_page env client fuel options limit
               searchId 0 t payload _ _ _ Hans Hres Htotal Htoken).
    cbv zeta. fold req. cbn [List.length Z.of_nat Z.add].
    replace ((0 <? limit) || (0 >=? Z.of_nat (List.length items)))
      with false
      by (symmetry; apply orb_false_iff;
          rewrite Z.ltb_ge, Z.geb_leb, Z.leb_gt;
          destruct items; [contradiction | cbn [List.length]; lia]).
    unfold yield_then.
    destruct (IH (JStr search_id) (t ++ [EvFetch req])%list)
      as (evs & Hrun & Hlen & Honly & Hoff).
    rewrite Hrun. exists (EvFetch req :: evs).
    rewrite <- app_assoc. cbn [app fetches List.length].
    repeat split; auto.
    + intros e [<-|He]; auto.
    + intros r [<-|Hr]; auto.
      apply (page_request_cursor client options searchId 0 limit).
Qed.
End AllPages.



(** X19: with a limit of zero or less the iteration never ends against such
    a server that holds at least one item: every page is empty, so that the
    page is never shorter than the limit and the offset never reaches the
    total; whatever the number of rounds allowed, the iterator is still
    running after them, has yielded nothing, and has made one request per
    round, each at offset 0. *)
Theorem searchPeopleAll_nonpositive_limit_never_ends (env : Env)
        (client : CladoClient) (options : Obj) (items : list JS)
        (search_id : string) (limit : Z) (fuel : nat) (t : Trace) :
  serves_pages env items search_id ->
  limit_of options = Some limit ->
  limit <= 0 ->
  items <> [] ->
  exists evs,
    searchPeopleAll env client fuel options t
    = (([], OutOfFuel), (t ++ evs)%list) /\
    List.length (fetches evs) = fuel /\
    (forall e, In e evs -> is_fetch e = true) /\
    forall r, In r (fetches evs) -> query_param r "offset" = Some "0".
Proof.
  intros Hserver Hlim Hlimit Hitems.
  unfold searchPeopleAll. rewrite Hlim.
  now apply (searchPeopleAll_loop_stuck env client options items search_id).
Qed.

Lemma searchPeopleAll_nonpositive_limit_never_ends_witness :
  exists evs,
    searchPeopleAll env_people demo_client 50 engineers_by_zero []
    = (([], OutOfFuel), evs) /\
    List.length (fetches evs) = 50%nat /\
    (forall e, In e evs -> is_fetch e = true) /\
    forall r, In r (fetches evs) -> query_param r "offset" = Some "0".
Proof.
  apply (searchPeopleAll_nonpositive_limit_never_ends env_people demo_client
           engineers_by_zero people "abc-123" 0 50 []).
  - apply paging_server_serves_pages.
  - reflexivity.
  - lia.
  - discriminate.
Defined.

(* ================================================================== *)
(** * Further properties: the job poller *)
(* ================================================================== *)

(** X20: the poller has no handler of its own: after [k] polls that found
    the job running and within the timeout, whatever error the next status
    call raises is raised by [waitForDeepResearch] unchanged, with the trace
    of that call: the clock is not read again and nothing is slept. *)
Theorem waitForDeepResearch_passes_errors (env : Env) (client : CladoClient)
        (jobId : string) (options : WaitForDeepResearchOptions)
        (payloads : nat -> JS) (k fuel : nat) (e : Exn) (t' : Trace) :
  let pollInterval := or_else (pollInterval options) 2000 in
  let timeout := or_else (timeout options) 300000 in
  let start := Date_now env 0 in
  let req := status_request client jobId in
  (k < fuel)%nat ->
  (forall j, (j < k)%nat ->
             answers env j (payloads j) /\
             nonterminal (payloads j) /\
             Date_now env (S j) - start <= timeout) ->
  getDeepResearchStatus env client jobId
    (EvNow :: waiting_polls req pollInterval k) = (Thrown e, t') ->
  waitForDeepResearch env client fuel jobId options [] = (Thrown e, t').
Proof.
  intros pollInterval timeout start req Hfuel Hrun Hthrow.
  unfold waitForDeepResearch, bind, do_now. cbv beta iota.
  fold pollInterval timeout. change (count is_now []) with 0%nat.
  fold start. replace fuel with (k + (fuel - k))%nat at 1 by lia.
  rewrite (waiting_polls_run env client jobId pollInterval timeout start
             payloads k) by (intros j Hj; apply (Hrun j Hj)).
  destruct (fuel - k)%nat as [|fuel'] eqn:Efuel; [lia|].
  cbn [waitForDeepResearch_loop]. unfold bind at 1.
  fold req. cbn [app]. rewrite Hthrow. reflexivity.
Qed.

Lemma waitForDeepResearch_passes_errors_witness :
  exists e,
    kind e = NotFound /\
    waitForDeepResearch env_job_gone demo_client 5 "job-1" default_wait []
    = (Thrown (Clado e), [EvNow; EvFetch (status_request demo_client "job-1")]).
Proof.
  eexists. split; [|
    apply (waitForDeepResearch_passes_errors env_job_gone demo_client "job-1"
             default_wait (fun _ => JNull) 0 5);
    [lia | intros j Hj; lia | vm_compute; reflexivity]].
  reflexivity.
Defined.

(* ================================================================== *)
(** * Further properties: the wrapper service *)
(* ================================================================== *)

Lemma sleeps_app (t1 t2 : Trace) :
  sleeps (t1 ++ t2)%list = (sleeps t1 ++ sleeps t2)%list.
Proof.
  induction t1 as [|e t1 IH]; [reflexivity|].
  destruct e; cbn [app sleeps]; now rewrite IH.
Qed.

Section WithRetry.
Variable maxRetries : Z.
Variable fn : M JS.

Lemma withRetry_loop_exhausted fuel i lastError t :
  maxRetries < i ->
  withRetry_loop fuel maxRetries fn i lastError t =
  (Thrown (or_else lastError (Foreign "Unknown error after retries")), t).
Proof.
  intros Hlt. apply Z.leb_gt in Hlt.
  destruct fuel; cbn [withRetry_loop]; rewrite Hlt; reflexivity.
Qed.

(** One iteration whose call raises an error that the wrapper does not
    retry. *)
Lemma withRetry_loop_rethrows fuel i lastError t e t' :
  i <= maxRetries ->
  fn t = (Thrown (Clado e), t') ->
  kind e <> RateLimit ->
  status e < 500 ->
  withRetry_loop (S fuel) maxRetries fn i lastError t = (Thrown (Clado e), t').
Proof.
  intros Hle Hfn Hkind Hstatus.
  cbn [withRetry_loop]. rewrite (proj2 (Z.leb_le _ _) Hle).
  unfold try_catch. rewrite Hfn. unfold is_a.
  rewrite Z.geb_leb, (proj2 (Z.leb_gt 500 (status e))) by lia.
  destruct (kind e); try reflexivity. contradiction.
Qed.

(** The wrapper calls [fn] at most [maxRetries + 1] times. *)
Lemma withRetry_loop_bounded (n : nat) :
  (forall t, exists evs,
      snd (fn t) = (t ++ evs)%list /\
      (count is_fetch evs <= n)%nat /\
      settled (fst (fn t))) ->
  forall fuel i lastError t,
  exists evs,
    snd (withRetry_loop fuel maxRetries fn i lastError t) = (t ++ evs)%list /\
    (count is_fetch evs <= Z.to_nat (maxRetries + 1 - i) * n)%nat /\
    ((Z.to_nat (maxRetries + 1 - i) <= fuel)%nat ->
     settled (fst (withRetry_loop fuel maxRetries fn i lastError t))).
Proof.
  intros Hfn.
  induction fuel as [|fuel IH]; intros i lastError t;
    destruct (Z.le_gt_cases i maxRetries) as [Hle|Hgt].
  - exists []. cbn [withRetry_loop]. rewrite (proj2 (Z.leb_le _ _) Hle).
    rewrite app_nil_r.
    split; [reflexivity|]. split; [apply Nat.le_0_l|].
    intros Hfuel. lia.
  - exists []. rewrite withRetry_loop_exhausted by lia.
    rewrite app_nil_r.
    split; [reflexivity|]. split; [apply Nat.le_0_l|].
    intros _. exact I.
  - cbn [withRetry_loop]. rewrite (proj2 (Z.leb_le _ _) Hle).
    unfold try_catch.
    destruct (Hfn t) as (evs1 & Hsnd & Hcount & Hsettled).
    destruct (fn t) as [out t1]. cbn [fst snd] in Hsnd, Hsettled. subst t1.
    assert (Hstop : forall out' : Outcome JS,
               settled out' ->
               exists evs,
                 snd (out', (t ++ evs1)%list) = (t ++ evs)%list /\
                 (count is_fetch evs
                  <= Z.to_nat (maxRetries + 1 - i) * n)%nat /\
                 ((Z.to_nat (maxRetries + 1 - i) <= S fuel)%nat ->
                  settled (fst (out', (t ++ evs1)%list)))).
    { intros out' Hout'. exists evs1. repeat split; auto.
      replace (Z.to_nat (maxRetries + 1 - i))
        with (S (Z.to_nat (maxRetries - i))) by lia.
      cbn [Nat.mul]. generalize (Z.to_nat (maxRetries - i) * n)%nat.
      intros x. lia. }
    assert (Hgo : forall ms error,
               exists evs,
                 snd ((sleep ms ;;;
                       withRetry_loop fuel maxRetries fn (i + 1) (Some error))
                        (t ++ evs1)%list) = (t ++ evs)%list /\
                 (count is_fetch evs
                  <= Z.to_nat (maxRetries + 1 - i) * n)%nat /\
                 ((Z.to_nat (maxRetries + 1 - i) <= S fuel)%nat ->
                  settled (fst ((sleep ms ;;;
                                 withRetry_loop fuel maxRetries fn (i + 1)
                                                (Some error))
                                  (t ++ evs1)%list)))).
    { intros ms error. unfold bind, sleep, emit. cbv beta iota.
      destruct (IH (i + 1) (Some error)
                   ((t ++ evs1) ++ [EvSleep ms])%list)
        as (evs2 & Hsnd2 & Hcount2 & Hsettled2).
      exists (evs1 ++ EvSleep ms :: evs2)%list.
      split; [rewrite Hsnd2, <- !app_assoc; reflexivity|].
      split.
      - rewrite count_app, count_cons. cbn [is_fetch].
        replace (Z.to_nat (maxRetries + 1 - i))
          with (S (Z.to_nat (maxRetries + 1 - (i + 1)))) by lia.
        cbn [Nat.mul]. revert Hcount2.
        generalize (Z.to_nat (maxRetries + 1 - (i + 1)) * n)%nat.
        intros x Hcount2. lia.
      - intros Hfuel. apply Hsettled2. lia. }
    destruct out as [value|error| |]; try contradiction.
    + now apply Hstop.
    + destruct error as [e|reason]; [|now apply Hstop].
      destruct (is_a e Auth || is_a e Validation); [now apply Hstop|].
      destruct (is_a e RateLimit); [apply Hgo|].
      destruct ((status e >=? 500) && (i <? maxRetries));
        [apply Hgo | now apply Hstop].
  - exists []. rewrite withRetry_loop_exhausted by lia.
    rewrite app_nil_r.
    split; [reflexivity|]. split; [apply Nat.le_0_l|].
    intros _. exact I.
Qed.

(** Against calls that always end in a rate-limit error, the wrapper
    sleeps after every call, also after the last. *)
Lemma withRetry_loop_rate_limited (seconds : Z) (a b : nat) :
  let ms := Some (inject_Z (seconds * 1000)) in
  (forall t, exists e evs,
      fn t = (Thrown (Clado e), (t ++ evs)%list) /\
      kind e = RateLimit /\ retryAfter e = Some (Some seconds) /\
      count is_fetch evs = a /\ sleeps evs = repeat ms b) ->
  forall (k fuel : nat) i lastError t,
    i + Z.of_nat k = maxRetries + 1 ->
    (k <= fuel)%nat ->
    (k = 0%nat ->
     exists e, lastError = Some (Clado e) /\ kind e = RateLimit /\
               retryAfter e = Some (Some seconds)) ->
    exists e evs,
      withRetry_loop fuel maxRetries fn i lastError t
      = (Thrown (Clado e), (t ++ evs)%list) /\
      kind e = RateLimit /\ retryAfter e = Some (Some seconds) /\
      count is_fetch evs = (k * a)%nat /\
      sleeps evs = repeat ms (k * S b) /\
      (k = 0%nat -> evs = []) /\
      ((0 < k)%nat -> exists evs', evs = (evs' ++ [EvSleep ms])%list).
Proof.
  intros ms Hfn.
  induction k as [|k IH]; intros fuel i lastError t Hk Hfuel Hlast.
  - destruct (Hlast eq_refl) as (e & -> & Hkind & Hra).
    rewrite withRetry_loop_exhausted by lia.
    exists e, []. rewrite app_nil_r.
    repeat split; auto. intros H. inversion H.
  - destruct fuel as [|fuel]; [lia|].
    cbn [withRetry_loop]. rewrite (proj2 (Z.leb_le _ _)) by lia.
    unfold try_catch.
    destruct (Hfn t) as (e & evs1 & Hrun & Hkind & Hra & Hf & Hs).
    rewrite Hrun. unfold is_a, retryAfter_ms. rewrite Hkind, Hra.
    cbn [orb seconds_to_ms option_map].
    unfold bind, sleep, emit. cbv beta iota. fold ms.
    destruct (IH fuel (i + 1) (Some (Clado e))
                 ((t ++ evs1) ++ [EvSleep ms])%list)
      as (e' & evs2 & Hrun2 & Hkind2 & Hra2 & Hf2 & Hs2 & Hnil & Hlast2);
      [lia | lia | intros _; now exists e |].
    rewrite Hrun2.
    exists e', (evs1 ++ EvSleep ms :: evs2)%list.
    split; [rewrite <- !app_assoc; reflexivity|].
    repeat split; auto.
    + rewrite count_app, count_cons, Hf, Hf2. cbn [is_fetch]. lia.
    + rewrite sleeps_app. cbn [sleeps]. rewrite Hs, Hs2.
      change (ms :: repeat ms (k * S b)) with (repeat ms (S (k * S b))).
      rewrite <- repeat_app. f_equal. lia.
    + intros H. discriminate.
    + intros _. destruct k as [|k].
      * rewrite (Hnil eq_refl). now exists evs1.
      * destruct Hlast2 as (evs' & ->); [lia|].
        exists (evs1 ++ EvSleep ms :: evs')%list.
        now rewrite <- app_assoc.
Qed.

(** Against calls that always end in a server error, the wrapper sleeps
    between the calls only. *)
Lemma withRetry_loop_server_error (code : Z) (a b : nat) :
  500 <= code ->
  (forall t, exists e evs,
      fn t = (Thrown (Clado e), (t ++ evs)%list) /\
      kind e = Generic /\ status e = code /\
      count is_fetch evs = a /\ count is_sleep evs = b) ->
  forall (k fuel : nat) i lastError t,
    i + Z.of_nat k = maxRetries ->
    (k < fuel)%nat ->
    exists e evs,
      withRetry_loop fuel maxRetries fn i lastError t
      = (Thrown (Clado e), (t ++ evs)%list) /\
      kind e = Generic /\ status e = code /\
      count is_fetch evs = (S k * a)%nat /\
      count is_sleep evs = (S k * b + k)%nat.
Proof.
  intros Hcode Hfn.
  induction k as [|k IH]; intros fuel i lastError t Hk Hfuel;
    (destruct fuel as [|fuel]; [lia|]);
    cbn [withRetry_loop]; rewrite (proj2 (Z.leb_le _ _)) by lia;
    unfold try_catch;
    destruct (Hfn t) as (e & evs1 & Hrun & Hkind & Hstatus & Hf & Hs);
    rewrite Hrun; unfold is_a; rewrite Hkind; cbn [orb];
    rewrite Z.geb_leb, (proj2 (Z.leb_le 500 (status e))) by lia;
    cbn [andb].
  - rewrite (proj2 (Z.ltb_ge _ _)) by lia.
    exists e, evs1. repeat split; auto; lia.
  - rewrite (proj2 (Z.ltb_lt _ _)) by lia.
    unfold bind, sleep, emit. cbv beta iota.
    match goal with
    | |- context [withRetry_loop fuel maxRetries fn ?j ?l ?t0] =>
        destruct (IH fuel j l t0)
          as (e' & evs2 & Hrun2 & Hkind2 & Hstatus2 & Hf2 & Hs2); [lia | lia |]
    end.
    rewrite Hrun2.
    eexists e', (evs1 ++ EvSleep _ :: evs2)%list.
    split; [rewrite <- !app_assoc; reflexivity|].
    repeat split; auto.
    + rewrite count_app, count_cons, Hf, Hf2. cbn [is_fetch]. lia.
    + rewrite count_app, count_cons, Hs, Hs2. cbn [is_sleep]. lia.
Qed.
End WithRetry.

(** The service of the example: the key given, three retries. *)
Example new_CladoService_default :
  new_CladoService None (Some "lk_test") None = inr demo_service.
Proof. reflexivity. Qed.

(** What the wrapper runs: one request with the default options. *)
Lemma serve_request env service call :
  exists url,
    serve env service call =
    withRetry (sv_maxRetries service)
              (request env url (apiKey (sv_client service)) no_options).
Proof. destruct call; eexists; reflexivity. Qed.

(** X21: a call of the service ends, whatever the network does, and makes
    at most [4 * (maxRetries + 1)] requests: the wrapper runs the client
    call at most [maxRetries + 1] times, and each run is a request with its
    own budget of four attempts. *)
Theorem service_requests_bounded (env : Env) (service : CladoService)
        (call : ServiceCall) (t : Trace) :
  exists evs,
    snd (serve env service call t) = (t ++ evs)%list /\
    settled (fst (serve env service call t)) /\
    (count is_fetch evs <= 4 * Z.to_nat (sv_maxRetries service + 1))%nat.
Proof.
  destruct (serve_request env service call) as (url & ->).
  unfold withRetry.
  destruct (withRetry_loop_bounded (sv_maxRetries service)
              (request env url (apiKey (sv_client service)) no_options) 4)
    with (fuel := Z.to_nat (sv_maxRetries service + 1)) (i := 0)
         (lastError := @None Exn) (t := t)
    as (evs & Hsnd & Hcount & Hend).
  - intros t0.
    destruct (request_wire env url (apiKey (sv_client service)) no_options t0)
      as (evs & Hsnd & Hend & Hcount & _).
    exists evs. repeat split; auto.
  - exists evs. rewrite Z.sub_0_r in Hcount, Hend.
    repeat split; auto. lia.
Qed.







(* ================================================================== *)
(** * Further properties: profile analysis *)
(* ================================================================== *)

Lemma mem_string_In s l : mem_string s l = true <-> In s l.
Proof.
  unfold mem_string. rewrite existsb_exists. split.
  - intros (x & Hin & Heq). apply String.eqb_eq in Heq. now subst.
  - intros Hin. exists s. split; auto. apply String.eqb_refl.
Qed.

Section SetValues.
Let add (set : list string) (x : string) : list string :=
  if mem_string x set then set else (set ++ [x])%list.

Lemma Set_values_fold items : forall set,
  NoDup set ->
  let result := fold_left add items set in
  NoDup result /\
  (forall x, In x result <-> In x set \/ In x items) /\
  exists added, result = (set ++ added)%list.
Proof.
  induction items as [|x items IH]; intros set Hnd; cbn [fold_left].
  - repeat split; auto.
    + intros [H|[]]; auto.
    + exists []. now rewrite app_nil_r.
  - assert (Hadd : NoDup (add set x) /\
                   (forall y, In y (add set x) <-> In y set \/ y = x) /\
                   exists added, add set x = (set ++ added)%list).
    { unfold add. destruct (mem_string x set) eqn:E.
      - apply mem_string_In in E. repeat split; auto.
        + intros [H| ->]; auto.
        + exists []. now rewrite app_nil_r.
      - assert (Hnot : ~ In x set).
        { intros Hin. apply mem_string_In in Hin. congruence. }
        repeat split.
        + apply NoDup_app; [exact Hnd | repeat constructor; intros [] |].
          intros y Hy [<-|[]]. contradiction.
        + intros Hin. apply in_app_or in Hin.
          destruct Hin as [H|[<-|[]]]; auto.
        + intros [H| ->]; apply in_or_app; [now left | right; now left].
        + now exists [x]. }
    destruct Hadd as (Hnd' & Hin' & added1 & Hadded1).
    destruct (IH (add set x) Hnd') as (Hnd'' & Hin'' & added2 & Hadded2).
    repeat split; auto.
    + intros Hin. apply Hin'' in Hin. destruct Hin as [Hin|Hin].
      * apply Hin' in Hin. destruct Hin as [Hin| ->]; auto.
        right. now left.
      * right. now right.
    + intros [Hin|[<-|Hin]]; apply Hin''.
      * left. apply Hin'. now left.
      * left. apply Hin'. now right.
      * now right.
    + exists (added1 ++ added2)%list.
      rewrite Hadded2, Hadded1. now rewrite <- app_assoc.
Qed.

Lemma Set_values_spec items :
  NoDup (Set_values items) /\
  forall x, In x (Set_values items) <-> In x items.
Proof.
  destruct (Set_values_fold items [] (NoDup_nil _)) as (Hnd & Hin & _).
  split; [exact Hnd|].
  intros x. split.
  - intros H. apply (proj1 (Hin x)) in H. destruct H as [[]|H]. exact H.
  - intros H. apply (proj2 (Hin x)). now right.
Qed.

Lemma Set_values_app items more :
  exists added, Set_values (items ++ more) = (Set_values items ++ added)%list.
Proof.
  unfold Set_values. rewrite fold_left_app.
  destruct (Set_values_fold items [] (NoDup_nil _)) as (Hnd & _ & _).
  destruct (Set_values_fold more _ Hnd) as (_ & _ & added & Hadded).
  exists added. exact Hadded.
Qed.
End SetValues.

(** X25: the company history has no company twice; a name is in it exactly
    when it is the non-empty company name of some entry; and entries added
    at the end of the experience only add names at the end of the history,
    so that the names come in the order of their first entry.  Without an
    experience the history is empty. *)
Theorem getCompanyHistory_distinct (experience more : list Experience) :
  getCompanyHistory None = [] /\
  NoDup (getCompanyHistory (Some experience)) /\
  (forall name,
      In name (getCompanyHistory (Some experience)) <->
      name <> "" /\
      exists e, In e experience /\ company_name e = Some name) /\
  exists added,
    getCompanyHistory (Some (experience ++ more)%list)
    = (getCompanyHistory (Some experience) ++ added)%list.
Proof.
  split; [reflexivity|]. unfold getCompanyHistory.
  split; [apply Set_values_spec|]. split.
  - intros name. rewrite (proj2 (Set_values_spec _) name).
    rewrite in_map_iff. split.
    + intros (o & Hname & Hin). apply filter_In in Hin.
      destruct Hin as (Hin & Hgiven). apply in_map_iff in Hin.
      destruct Hin as (e & He & Hin).
      destruct o as [c|]; [|discriminate]. cbn in Hname, Hgiven. subst c.
      split.
      * intros ->. discriminate.
      * now exists e.
    + intros (Hne & e & Hin & He). exists (Some name). split; [reflexivity|].
      apply filter_In. split.
      * apply in_map_iff. now exists e.
      * cbn. destruct (String.eqb_spec name ""); [contradiction | reflexivity].
  - rewrite map_app, filter_app, map_app. apply Set_values_app.
Qed.

Section FirstGreatest.
Context {A : Type}.
Variable f : A -> Z.

Let pick (best current : A) : A :=
  if f current >? f best then current else best.

Lemma fold_pick l : forall init,
  let r := fold_left pick l init in
  (r = init /\ forall y, In y l -> f y <= f init) \/
  (f init < f r /\ first_greatest f r l).
Proof.
  induction l as [|x l IH]; intros init; cbn [fold_left].
  - left. split; [reflexivity | intros y []].
  - assert (Hpick : pick init x = if f init <? f x then x else init)
      by (unfold pick; now rewrite Z.gtb_ltb).
    rewrite Hpick.
    destruct (Z.ltb_spec (f init) (f x)) as [Hlt|Hge].
    + right. destruct (IH x) as [(Heq & Hall)|(Hlt' & before & after & Hl & Hb & Ha)].
      * cbv zeta in Heq. rewrite Heq. split; [exact Hlt|].
        exists [], l. repeat split; auto. intros y [].
      * split; [lia|].
        exists (x :: before), after. cbn [app]. rewrite <- Hl.
        repeat split; auto.
        intros y [<-|Hy]; auto.
    + destruct (IH init) as [(Heq & Hall)|(Hlt' & before & after & Hl & Hb & Ha)].
      * left. split; [exact Heq|].
        intros y [<-|Hy]; auto.
      * right. split; [exact Hlt'|].
        exists (x :: before), after. cbn [app]. rewrite <- Hl.
        repeat split; auto.
        intros y [<-|Hy]; [lia | auto].
Qed.

(** The fold from the first element finds the first of the greatest. *)
Lemma fold_pick_first first rest :
  first_greatest f (fold_left pick (first :: rest) first) (first :: rest).
Proof.
  destruct (fold_pick (first :: rest) first)
    as [(Heq & Hall)|(_ & Hfirst)]; [|exact Hfirst].
  cbv zeta in Heq. rewrite Heq.
  exists [], rest. repeat split; auto.
  - intros y [].
  - intros y Hy. apply Hall. now right.
Qed.
End FirstGreatest.

Lemma prefix_app key : forall s,
  String.prefix key s = true <-> exists after, s = (key ++ after)%string.
Proof.
  induction key as [|a key IH]; intros s.
  - split; [intros _; now exists s | intros _; now destruct s].
  - destruct s as [|b s]; cbn [String.prefix].
    + split; [discriminate | intros (after & H); discriminate].
    + destruct (Ascii.ascii_dec a b) as [->|Hne].
      * rewrite IH. split; intros (after & H); exists after.
        -- now rewrite H.
        -- now injection H.
      * split; [discriminate|].
        intros (after & H). injection H as Hb _. congruence.
Qed.

Lemma includes_occurs s key :
  includes s key = true <->
  exists before after, s = (before ++ key ++ after)%string.
Proof.
  induction s as [|c s IH]; cbn [includes].
  - rewrite orb_false_r, prefix_app. split.
    + intros (after & H). now exists "", after.
    + intros (before & after & H). destruct before as [|b before].
      * now exists after.
      * discriminate.
  - rewrite orb_true_iff, prefix_app, IH. split.
    + intros [(after & H)|(before & after & H)].
      * now exists "", after.
      * exists (String c before), after. cbn. now rewrite H.
    + intros (before & after & H). destruct before as [|b before].
      * left. now exists after.
      * right. injection H as _ H. now exists before, after.
Qed.

Lemma mentions_includes d title :
  mentions (Some d) title <-> includes d title = true.
Proof.
  rewrite includes_occurs. unfold mentions. split.
  - intros (d' & before & after & [= <-] & H). now exists before, after.
  - intros (before & after & H). now exists d, before, after.
Qed.

Lemma rank_of_ranks_by_title : ranks_by_title rank_of.
Proof.
  intros [d|]; cbv zeta.
  - rewrite !mentions_includes. unfold rank_of.
    cbn [find degreeRank fst snd].
    destruct (includes d "Doctor"), (includes d "PhD"),
      (includes d "Master"), (includes d "MBA"), (includes d "Bachelor"),
      (includes d "Associate");
      intuition congruence.
  - assert (Hno : forall title, ~ mentions None title)
      by (intros title (d & _ & _ & H & _); discriminate).
    repeat split; try reflexivity;
      intros; try reflexivity;
      repeat match goal with
             | H : _ \/ _ |- _ => destruct H
             | H : mentions None _ |- _ => destruct (Hno _ H)
             end.
Qed.

(** X26: [getHighestDegree] ranks a degree by the titles that occur in it:
    5 when it names a doctorate ([Doctor] or [PhD]), otherwise 4 for a
    master's degree ([Master] or [MBA]), otherwise 3 for [Bachelor],
    otherwise 2 for [Associate], and 0 without any of them or without a
    degree.  Of a non-empty education it returns the first of the entries
    whose degree has the greatest rank: every entry before it ranks strictly
    lower and no entry after it ranks higher. *)
Theorem getHighestDegree_first_greatest (education : list Education) :
  education <> [] ->
  ranks_by_title rank_of /\
  exists highest,
    getHighestDegree (Some education) = Some highest /\
    first_greatest (fun e => rank_of (degree e)) highest education.
Proof.
  intros Hne. split; [exact rank_of_ranks_by_title|].
  destruct education as [|first rest]; [contradiction|].
  eexists. split; [reflexivity|].
  apply (fold_pick_first (fun e => rank_of (degree e))).
Qed.

Lemma getHighestDegree_first_greatest_witness :
  ranks_by_title rank_of /\
  exists highest,
    getHighestDegree (Some demo_education) = Some highest /\
    first_greatest (fun e => rank_of (degree e)) highest demo_education.
Proof.
  apply (getHighestDegree_first_greatest demo_education). discriminate.
Defined.

(** The education of the example: the doctorate named first wins over the
    one named later, and over the bachelor's degree before it. *)
Example getHighestDegree_demo :
  getHighestDegree (Some demo_education)
  = Some {| degree := Some "PhD in Physics"; school_name := Some "ETH" |} /\
  map (fun e => rank_of (degree e)) demo_education = [3; 0; 5; 5].
Proof. split; reflexivity. Qed.

Lemma fold_left_total (f : Post -> option Z) posts : forall sum,
  fold_left (fun sum p => sum + or_else (f p) 0) posts sum
  = sum + total_of f posts.
Proof.
  induction posts as [|p posts IH]; intros sum; cbn [fold_left total_of fold_right].
  - lia.
  - rewrite IH. unfold total_of. lia.
Qed.

Lemma Math_round_div_nearest total n :
  0 < n -> nearest (Math_round_div total n) total n.
Proof.
  intros Hn. unfold nearest, Math_round_div.
  pose proof (Z.div_mod (2 * total + n) (2 * n) ltac:(lia)) as Hdiv.
  pose proof (Z.mod_pos_bound (2 * total + n) (2 * n) ltac:(lia)) as Hmod.
  nia.
Qed.

(** X27: of a non-empty list of posts, [analyzePostEngagement] counts the
    posts, gives as averages the totals of the reactions and of the
    comments divided by the number of posts and rounded to the nearest
    integer, a missing count being 0, and gives as top post the first of the
    posts with the most reactions. *)
Theorem analyzePostEngagement_summary (posts : list Post) :
  posts <> [] ->
  let summary := analyzePostEngagement (Some posts) in
  let n := Z.of_nat (List.length posts) in
  totalPosts summary = n /\
  nearest (avgReactions summary) (total_of totalReactionCount posts) n /\
  nearest (avgComments summary) (total_of commentsCount posts) n /\
  exists top,
    topPost summary = Some top /\
    first_greatest (fun p => or_else (totalReactionCount p) 0) top posts.
Proof.
  intros Hne. destruct posts as [|first rest]; [contradiction|].
  cbv zeta. unfold analyzePostEngagement.
  cbn [totalPosts avgReactions avgComments topPost].
  rewrite !fold_left_total, !Z.add_0_l.
  assert (Hn : 0 < Z.of_nat (List.length (first :: rest)))
    by (cbn [List.length]; lia).
  repeat split; try (apply Math_round_div_nearest; exact Hn).
  eexists. split; [reflexivity|].
  apply (fold_pick_first (fun p => or_else (totalReactionCount p) 0)).
Qed.

Lemma analyzePostEngagement_summary_witness :
  let summary := analyzePostEngagement (Some demo_posts) in
  totalPosts summary = 4 /\
  nearest (avgReactions summary) 19 4 /\
  nearest (avgComments summary) 7 4 /\
  exists top,
    topPost summary = Some top /\
    first_greatest (fun p => or_else (totalReactionCount p) 0) top demo_posts.
Proof.
  apply (analyzePostEngagement_summary demo_posts). discriminate.
Defined.

(* ================================================================== *)
(** * Further properties: the handlers of the error-handling example *)
(* ================================================================== *)

Lemma fetches_app (t1 t2 : Trace) :
  fetches (t1 ++ t2)%list = (fetches t1 ++ fetches t2)%list.
Proof.
  induction t1 as [|e t1 IH]; [reflexivity|].
  destruct e; cbn [app fetches]; now rewrite IH.
Qed.

Lemma bind_run {A B} (c : M A) (k : A -> M B) t out t1 :
  c t = (out, t1) ->
  bind c k t =
  match out with
  | Returned a => k a t1
  | Thrown e => (Thrown e, t1)
  | OutOfFuel => (OutOfFuel, t1)
  | IllTyped => (IllTyped, t1)
  end.
Proof. intros H. unfold bind. rewrite H. now destruct out. Qed.

Lemma try_catch_run {A} (c : M A) (handler : Exn -> M A) t out t1 :
  c t = (out, t1) ->
  try_catch c handler t =
  match out with
  | Thrown e => handler e t1
  | _ => (out, t1)
  end.
Proof. intros H. unfold try_catch. rewrite H. now destruct out. Qed.

Lemma try_catch_bind {A B} (c : M A) (k : A -> M B) (handler : Exn -> M B)
      t out t1 :
  c t = (out, t1) ->
  try_catch (bind c k) handler t =
  match out with
  | Returned a => try_catch (k a) handler t1
  | Thrown e => handler e t1
  | OutOfFuel => (OutOfFuel, t1)
  | IllTyped => (IllTyped, t1)
  end.
Proof. intros H. unfold try_catch, bind. rewrite H. now destruct out. Qed.

(** A request against an exchange that answers with a JSON body. *)
Lemma request_answered env url apiKey options t payload :
  0 <= or_else (ro_maxRetries options) DEFAULT_maxRetries ->
  answers_to env (count is_fetch t) (fetch_request url apiKey options)
             payload ->
  request env url apiKey options t =
  (Returned payload, (t ++ [EvFetch (fetch_request url apiKey options)])%list).
Proof.
  intros Hmax (response & text & Hfetch & Hok & Hbody & Htext).
  unfold request.
  destruct (Z.to_nat (or_else (ro_maxRetries options) DEFAULT_maxRetries + 1))
    as [|fuel] eqn:E; [lia|].
  rewrite request_loop_iteration by lia.
  rewrite Hfetch. unfold verdict, JSON_parse. rewrite Hok, Hbody.
  destruct (String.eqb_spec text ""); [contradiction | reflexivity].
Qed.

(** Every call of the client ends, adds to the trace, and makes at most
    four requests. *)
Lemma perform_run env client call t :
  exists out evs,
    perform env client call t = (out, (t ++ evs)%list) /\
    settled out /\ (count is_fetch evs <= 4)%nat.
Proof.
  assert (H : forall url options,
             ro_maxRetries options = None ->
             exists out evs,
               request env url (apiKey client) options t
               = (out, (t ++ evs)%list) /\
               settled out /\ (count is_fetch evs <= 4)%nat).
  { intros url options Hmax.
    destruct (request_wire env url (apiKey client) options t)
      as (evs & Hsnd & Hend & Hcount & _).
    rewrite Hmax in Hcount.
    destruct (request env url (apiKey client) options t) as [out t1].
    cbn [fst snd] in Hsnd, Hend. subst t1. now exists out, evs. }
  destruct call; cbn [perform]; apply H; reflexivity.
Qed.

Section SearchHandler.
Variable env : Env.
Variable client : CladoClient.
Variable query : string.

Let options : Obj := [("query", JStr query); ("limit", JNum 10)].
Let req := search_request client options.

End SearchHandler.




(** Reading the name and the headline touches nothing, and fails only with
    a [TypeError]. *)
Lemma profile_data_pure response t :
  (exists o, profile_data response t = (Returned o, t) /\
             In "name" (keys o) /\ In "headline" (keys o)) \/
  (exists reason, profile_data response t = (Thrown (Foreign reason), t)).
Proof.
  unfold profile_data, read, bind, ret, throw.
  destruct (get_prop response "profile") as [profile|]; [|right; eauto].
  destruct (get_prop profile "name") as [name|]; [|right; eauto].
  destruct (get_prop profile "headline") as [headline|]; [|right; eauto].
  left. eexists. split; [reflexivity|]. simpl. tauto.
Qed.

(** X29: [_getProfileWithGracefulDegradation] never raises an error: it
    returns [null] or an object with a name and a headline, whatever the
    network does, after at most eight requests (the live profile and the
    contact details, or the live profile and the profile of the
    database). *)
Theorem getProfileWithGracefulDegradation_never_throws (env : Env)
        (client : CladoClient) (linkedinUrl : string) (t : Trace) :
  exists v evs,
    _getProfileWithGracefulDegradation env client linkedinUrl t
    = (Returned v, (t ++ evs)%list) /\
    (v = JNull \/ has_profile_data v) /\
    (count is_fetch evs <= 8)%nat.
Proof.
  unfold _getProfileWithGracefulDegradation.
  destruct (perform_run env client
              (ScrapeLinkedInProfile [("linkedinUrl", JStr linkedinUrl);
                                      ("includePosts", JBool true)]) t)
    as (out1 & evs1 & Hrun1 & Hsettled1 & Hcount1).
  cbn [perform] in Hrun1.
  assert (Hnull : forall evs, (count is_fetch evs <= 8)%nat ->
             exists v evs',
               (Returned JNull, (t ++ evs)%list)
               = (@Returned JS v, (t ++ evs')%list) /\
               (v = JNull \/ has_profile_data v) /\
               (count is_fetch evs' <= 8)%nat).
  { intros evs Hevs. exists JNull, evs. auto. }
  assert (Hdata : forall o evs,
             In "name" (keys o) -> In "headline" (keys o) ->
             (count is_fetch evs <= 8)%nat ->
             exists v evs',
               (Returned (JObj o), (t ++ evs)%list)
               = (@Returned JS v, (t ++ evs')%list) /\
               (v = JNull \/ has_profile_data v) /\
               (count is_fetch evs' <= 8)%nat).
  { intros o evs Hn Hh Hevs. exists (JObj o), evs.
    repeat split; auto. right. now exists o. }
  rewrite (try_catch_bind _ _ _ _ _ _ Hrun1).
  destruct out1 as [profile|error| |]; try contradiction.
  - (* the live profile *)
    destruct (profile_data_pure profile (t ++ evs1)%list)
      as [(result & Hdata1 & Hname & Hheadline)|(reason & Hdata1)];
      rewrite (try_catch_bind _ _ _ _ _ _ Hdata1); [|apply Hnull; lia].
    destruct (perform_run env client
                (GetContactInfo [("linkedinUrl", JStr linkedinUrl);
                                 ("enrichEmail", JBool true);
                                 ("enrichPhone", JBool true)])
                (t ++ evs1)%list)
      as (out2 & evs2 & Hrun2 & Hsettled2 & Hcount2).
    cbn [perform] in Hrun2.
    assert (Hboth : (count is_fetch (evs1 ++ evs2)%list <= 8)%nat)
      by (rewrite count_app; lia).
    unfold try_catch at 1. rewrite (try_catch_bind _ _ _ _ _ _ Hrun2).
    rewrite <- app_assoc.
    destruct out2 as [contact|error2| |]; try contradiction;
      [|now apply Hdata].
    unfold try_catch, read, bind, ret, throw.
    destruct (get_prop contact "email") as [email|]; [|now apply Hdata].
    destruct (get_prop contact "phone") as [phone|]; [|now apply Hdata].
    apply Hdata; auto; rewrite !keys_obj_set; auto.
  - (* the fallback *)
    destruct error as [e|reason]; [|apply Hnull; lia].
    destruct (status e >=? 500); [|apply Hnull; lia].
    destruct (perform_run env client
                (GetLinkedInProfile [("linkedinUrl", JStr linkedinUrl)])
                (t ++ evs1)%list)
      as (out2 & evs2 & Hrun2 & Hsettled2 & Hcount2).
    cbn [perform] in Hrun2.
    assert (Hboth : (count is_fetch (evs1 ++ evs2)%list <= 8)%nat)
      by (rewrite count_app; lia).
    rewrite (try_catch_bind _ _ _ _ _ _ Hrun2).
    rewrite <- app_assoc.
    destruct out2 as [cached|error2| |]; try contradiction;
      [|now apply Hnull].
    destruct (profile_data_pure cached (t ++ evs1 ++ evs2)%list)
      as [(result & Hdata2 & Hname & Hheadline)|(reason & Hdata2)];
      rewrite (try_catch_bind _ _ _ _ _ _ Hdata2).
    + now apply Hdata.
    + now apply Hnull.
Qed.


(** A request does not read the clock. *)
Lemma request_loop_no_clock env req retry maxRetries fuel :
  forall attempt lastError t,
  exists evs,
    snd (request_loop env fuel req retry maxRetries attempt lastError t)
    = (t ++ evs)%list /\
    count is_now evs = 0%nat.
Proof.
  induction fuel as [|fuel IH]; intros attempt lastError t;
    destruct (Z.le_gt_cases attempt maxRetries) as [Hle|Hgt].
  - exists []. cbn [request_loop]. rewrite (proj2 (Z.leb_le _ _) Hle).
    split; [simpl; now rewrite app_nil_r | reflexivity].
  - exists []. rewrite request_loop_exhausted by lia.
    split; [simpl; now rewrite app_nil_r | reflexivity].
  - rewrite request_loop_iteration by assumption. cbv zeta.
    destruct (verdict (fetch env (count is_fetch t) req) retry maxRetries
                      attempt) as [value|e|retryAfter|newLast].
    + exists [EvFetch req]. split; reflexivity.
    + exists [EvFetch req]. split; reflexivity.
    + match goal with
      | |- context [request_loop env fuel req retry maxRetries ?a ?l ?t0] =>
          destruct (IH a l t0) as (evs & Hsnd & Hnow)
      end.
      eexists (EvFetch req :: EvSleep _ :: evs).
      split; [rewrite Hsnd, <- !app_assoc; reflexivity|].
      rewrite !count_cons, Hnow. reflexivity.
    + match goal with
      | |- context [request_loop env fuel req retry maxRetries ?a ?l ?t0] =>
          destruct (IH a l t0) as (evs & Hsnd & Hnow)
      end.
      exists (EvFetch req :: (backoff_events env t attempt ++ evs))%list.
      split; [rewrite Hsnd, <- !app_assoc; reflexivity|].
      unfold backoff_events. cbn [app].
      rewrite !count_cons, Hnow. reflexivity.
  - exists []. rewrite request_loop_exhausted by lia.
    split; [simpl; now rewrite app_nil_r | reflexivity].
Qed.

(** Every call of the client ends and leaves the clock alone. *)
Lemma perform_run_no_clock env client call t :
  exists out evs,
    perform env client call t = (out, (t ++ evs)%list) /\
    settled out /\ count is_now evs = 0%nat.
Proof.
  assert (H : forall url options,
             exists out evs,
               request env url (apiKey client) options t
               = (out, (t ++ evs)%list) /\
               settled out /\ count is_now evs = 0%nat).
  { intros url options.
    pose proof (request_settles env url (apiKey client) options t) as Hend.
    unfold request in *.
    match goal with
    | |- context [request_loop env ?f ?r ?b ?m ?a ?l t] =>
        destruct (request_loop_no_clock env r b m f a l t)
          as (evs & Hsnd & Hnow);
        destruct (request_loop env f r b m a l t) as [out t1]
    end.
    cbn [fst snd] in Hsnd, Hend. subst t1. now exists out, evs. }
  destruct call; cbn [perform]; apply H.
Qed.

Section SafeResearch.
Variable env : Env.
Variable client : CladoClient.

(** The poller ends by the time the clock shows that the timeout has
    passed: when the reading number [N] from now is past the timeout, it
    ends within [N + 1] polls. *)
Lemma waitForDeepResearch_loop_ends jobId pollInterval timeout startTime :
  forall (N fuel : nat) t,
    (N < fuel)%nat ->
    Date_now env (count is_now t + N) - startTime > timeout ->
    settled (fst (waitForDeepResearch_loop env client fuel jobId pollInterval
                                           timeout startTime t)).
Proof.
  induction N as [|N IH]; intros fuel t Hfuel Hlate;
    (destruct fuel as [|fuel]; [lia|]);
    cbn [waitForDeepResearch_loop]; unfold bind at 1;
    destruct (perform_run_no_clock env client (GetDeepResearchStatus jobId) t)
      as (out & evs & Hrun & Hsettled & Hnow);
    cbn [perform] in Hrun; rewrite Hrun;
    (destruct out as [payload|error| |]; try contradiction; [|exact I]);
    (destruct (get_prop payload "status") as [st|]; [|exact I]);
    (destruct (get_prop payload "error") as [error|]; [|exact I]);
    (destruct (is_string st "completed"); [exact I|]);
    (destruct (is_string st "failed"); [exact I|]);
    unfold bind, do_now, sleep, emit; cbv beta iota;
    rewrite count_app, Hnow, Nat.add_0_r.
  - rewrite Nat.add_0_r in Hlate.
    rewrite (proj2 (Z.gtb_gt _ _)) by lia. exact I.
  - destruct (_ >? timeout); [exact I|].
    apply IH; [lia|].
    rewrite !count_app, Hnow. cbn.
    replace (count is_now t + 0 + 1 + 0 + N)%nat
      with (count is_now t + S N)%nat by lia.
    exact Hlate.
Qed.

(** The poller returns nothing but the status of a completed job. *)
Lemma waitForDeepResearch_loop_returns jobId pollInterval timeout startTime
      fuel :
  forall t,
    match fst (waitForDeepResearch_loop env client fuel jobId pollInterval
                                        timeout startTime t) with
    | Returned v => status_is v "completed"
    | IllTyped => False
    | Thrown _ | OutOfFuel => True
    end.
Proof.
  induction fuel as [|fuel IH]; intros t; [exact I|].
  cbn [waitForDeepResearch_loop]. unfold bind at 1.
  destruct (perform_run env client (GetDeepResearchStatus jobId) t)
    as (out & evs & Hrun & Hsettled & _).
  cbn [perform] in Hrun. rewrite Hrun.
  destruct out as [payload|error| |]; try contradiction; [|exact I].
  destruct (get_prop payload "status") as [st|] eqn:Hst; [|exact I].
  destruct (get_prop payload "error") as [error|]; [|exact I].
  destruct (is_string st "completed") eqn:Hcompleted.
  - cbn. now exists st.
  - destruct (is_string st "failed"); [exact I|].
    unfold bind, do_now, sleep, emit. cbv beta iota.
    destruct (_ >? timeout); [exact I|]. apply IH.
Qed.

(** The [catch] clause ends in [null], whatever the cancellation does. *)
Lemma runDeepResearchSafely_catch_null jobId error t :
  exists evs,
    runDeepResearchSafely_catch env client jobId error t
    = (Returned JNull, (t ++ evs)%list).
Proof.
  assert (Hstay : exists evs,
             (@Returned JS JNull, t) = (Returned JNull, (t ++ evs)%list))
    by (exists []; now rewrite app_nil_r).
  unfold runDeepResearchSafely_catch.
  destruct error as [e|reason]; [|exact Hstay].
  destruct (status e =? 408); [|exact Hstay].
  destruct (truthy jobId); [|exact Hstay].
  destruct (perform_run env client (CancelDeepResearch (ToString jobId)) t)
    as (out & evs & Hrun & Hsettled & _).
  cbn [perform] in Hrun.
  unfold bind at 1. rewrite (try_catch_bind _ _ _ _ _ _ Hrun).
  exists evs. now destruct out.
Qed.

(** The call ends by the time the clock shows that the minute of the
    timeout has passed. *)
Lemma runDeepResearchSafely_ends (fuel : nat) (query : string) (t : Trace)
      (N : nat) :
  (N < fuel)%nat ->
  Date_now env (count is_now t + S N) - Date_now env (count is_now t)
    > 60000 ->
  settled (fst (_runDeepResearchSafely env client fuel query t)).
Proof.
  intros Hfuel Hlate. unfold _runDeepResearchSafely.
  destruct (perform_run_no_clock env client
              (InitiateDeepResearch [("query", JStr query);
                                     ("limit", JNum 20)]) t)
    as (out1 & evs1 & Hrun1 & Hsettled1 & Hnow1).
  cbn [perform] in Hrun1. rewrite Hrun1.
  destruct out1 as [job|error| |]; try contradiction.
  - destruct (get_prop job "job_id") as [jobId|].
    + unfold try_catch, waitForDeepResearch, bind at 1, do_now.
      cbv beta iota. cbn [one_minute pollInterval timeout or_else].
      rewrite count_app, Hnow1, Nat.add_0_r.
      pose proof (waitForDeepResearch_loop_ends (ToString jobId) 2000 60000
                    (Date_now env (count is_now t)) N fuel
                    ((t ++ evs1) ++ [EvNow])%list Hfuel) as Hends.
      destruct (waitForDeepResearch_loop env client fuel (ToString jobId)
                  2000 60000 (Date_now env (count is_now t))
                  ((t ++ evs1) ++ [EvNow])%list) as [out2 t2].
      cbn [fst] in Hends.
      assert (Hout2 : settled out2).
      { apply Hends. rewrite !count_app, Hnow1. cbn.
        replace (count is_now t + 0 + 1 + N)%nat
          with (count is_now t + S N)%nat by lia.
        exact Hlate. }
      destruct out2 as [v|error| |]; try contradiction; [exact I|].
      destruct (runDeepResearchSafely_catch_null jobId error t2)
        as (evs & ->).
      exact I.
    + destruct (runDeepResearchSafely_catch_null JNull
                  (Foreign "Cannot read properties of null (reading 'job_id')")
                  (t ++ evs1)%list) as (evs & ->).
      exact I.
  - destruct (runDeepResearchSafely_catch_null JNull error (t ++ evs1)%list)
      as (evs & ->).
    exact I.
Qed.

(** The call never raises. *)
Lemma runDeepResearchSafely_safe (fuel : nat) (query : string) (t : Trace) :
  null_or (fun v => status_is v "completed")
          (fst (_runDeepResearchSafely env client fuel query t)).
Proof.
  unfold _runDeepResearchSafely.
    destruct (perform_run env client
                (InitiateDeepResearch [("query", JStr query);
                                       ("limit", JNum 20)]) t)
      as (out1 & evs1 & Hrun1 & Hsettled1 & _).
    cbn [perform] in Hrun1. rewrite Hrun1.
    destruct out1 as [job|error| |]; try contradiction.
    + destruct (get_prop job "job_id") as [jobId|].
      * unfold try_catch, waitForDeepResearch, bind at 1, do_now.
        cbv beta iota.
        match goal with
        | |- context [waitForDeepResearch_loop env client fuel ?j ?p ?o ?s ?t0] =>
            pose proof (waitForDeepResearch_loop_returns j p o s fuel t0)
              as Hloop;
            destruct (waitForDeepResearch_loop env client fuel j p o s t0)
              as [out2 t2]
        end.
        cbn [fst] in Hloop.
        destruct out2 as [v|error| |]; cbn [fst null_or]; auto.
        destruct (runDeepResearchSafely_catch_null jobId error t2)
          as (evs & ->).
        cbn. now left.
      * destruct (runDeepResearchSafely_catch_null JNull
                    (Foreign "Cannot read properties of null (reading 'job_id')")
                    (t ++ evs1)%list) as (evs & ->).
        cbn. now left.
    + destruct (runDeepResearchSafely_catch_null JNull error (t ++ evs1)%list)
        as (evs & ->).
      cbn. now left.
Qed.

(** X30: [_runDeepResearchSafely] never raises an error: whatever the
    number of polls it is allowed, it is then still polling the job or has
    ended in the status of a completed job or in [null].  It ends, in one
    of these two, within [N + 1] polls when the clock reading number [N + 1]
    after the start is past the minute of the timeout.  When the job is
    started with an id and its first poll finds it in progress after the
    minute of the timeout, the one thing done after the poller gives up is a
    request to cancel that job, and the result is [null] whatever the answer
    to it. *)
Theorem runDeepResearchSafely_never_throws (fuel : nat) (query : string)
        (t : Trace) :
  null_or (fun v => status_is v "completed")
          (fst (_runDeepResearchSafely env client fuel query t)) /\
  (forall N,
      (N < fuel)%nat ->
      Date_now env (count is_now t + S N) - Date_now env (count is_now t)
        > 60000 ->
      exists v,
        fst (_runDeepResearchSafely env client fuel query t) = Returned v /\
        (v = JNull \/ status_is v "completed")) /\
  (forall job id payload,
      answers_to env (count is_fetch t) (research_request client query) job ->
      get_prop job "job_id" = Some (JStr id) ->
      id <> "" ->
      answers env (S (count is_fetch t)) payload ->
      nonterminal payload ->
      Date_now env (S (count is_now t)) - Date_now env (count is_now t)
        > 60000 ->
      (1 <= fuel)%nat ->
      exists out evs,
        _runDeepResearchSafely env client fuel query t
        = (Returned JNull,
           ((t ++ [EvFetch (research_request client query); EvNow;
                   EvFetch (status_request client id); EvNow])
              ++ EvFetch (cancel_request client id) :: evs)%list) /\
        cancelDeepResearch env client id
          (t ++ [EvFetch (research_request client query); EvNow;
                 EvFetch (status_request client id); EvNow])%list
        = (out, ((t ++ [EvFetch (research_request client query); EvNow;
                        EvFetch (status_request client id); EvNow])
                   ++ EvFetch (cancel_request client id) :: evs)%list)).
Proof.
  split; [apply runDeepResearchSafely_safe|]. split.
  - intros N Hfuel Hlate.
    pose proof (runDeepResearchSafely_safe fuel query t) as Hsafe.
    pose proof (runDeepResearchSafely_ends fuel query t N Hfuel Hlate)
      as Hends.
    destruct (fst (_runDeepResearchSafely env client fuel query t))
      as [v|error| |]; try contradiction.
    now exists v.
  - intros job id payload Hjob Hid Hne Hpoll (st & Hst & Hc & Hf) Hlate Hfuel.
    destruct fuel as [|fuel']; [lia|].
    destruct (get_prop_both _ _ Hst) as (error & Herror).
    unfold _runDeepResearchSafely, initiateDeepResearch. cbv zeta.
    rewrite (request_answered env _ _ _ t job)
      by (try exact Hjob; cbn; unfold DEFAULT_maxRetries; lia).
    fold (research_request client query).
    rewrite Hid. cbn [ToString].
    set (t1 := (t ++ [EvFetch (research_request client query)])%list).
    assert (Hf1 : count is_fetch (t1 ++ [EvNow])%list = S (count is_fetch t)).
    { unfold t1. rewrite !count_app. cbn. lia. }
    assert (Hn1 : count is_now t1 = count is_now t).
    { unfold t1. rewrite count_app. cbn. lia. }
    assert (Hn2 : count is_now (t1 ++ [EvNow])%list = S (count is_now t)).
    { rewrite count_app, Hn1. cbn. lia. }
    assert (Hwait :
              waitForDeepResearch env client (S fuel') id one_minute t1 =
              (Thrown (Clado (new_CladoError 408
                                (JStr ("Deep research job timed out after "
                                         ++ string_of_Z 60000 ++ "ms")))),
               (((t1 ++ [EvNow]) ++ [EvFetch (status_request client id)])
                  ++ [EvNow])%list)).
    { unfold waitForDeepResearch, bind at 1, do_now. cbv beta iota.
      cbn [one_minute pollInterval timeout or_else].
      rewrite (poll_iteration env client id 2000 60000 _ fuel'
                 (t1 ++ [EvNow])%list payload st error);
        [|rewrite Hf1; exact (Hpoll) | exact Hst | exact Herror].
      cbv zeta. rewrite Hc, Hf, Hn1, Hn2.
      rewrite (proj2 (Z.gtb_gt _ _)) by lia. reflexivity. }
    rewrite (try_catch_run _ _ _ _ _ Hwait).
    unfold runDeepResearchSafely_catch.
    cbn [new_CladoError status Z.eqb Pos.eqb truthy].
    replace (String.eqb id "") with false
      by (destruct (String.eqb_spec id ""); congruence).
    cbn [negb].
    set (t2 := (((t1 ++ [EvNow]) ++ [EvFetch (status_request client id)])
                  ++ [EvNow])%list).
    assert (Ht2 : t2 = (t ++ [EvFetch (research_request client query); EvNow;
                              EvFetch (status_request client id); EvNow])%list).
    { unfold t2, t1. now rewrite <- !app_assoc. }
    destruct (request_first_fetch env
                (buildUrl (baseUrl client)
                          ("/api/search/deep_research/" ++ id ++ "/cancel")
                          None)
                (apiKey client) (post_options JUndefined) t2)
      as (out & evs & Hcancel & Hsettled);
      [cbn; unfold DEFAULT_maxRetries; lia|].
    fold (cancel_request client id) in Hcancel.
    fold (cancelDeepResearch env client id) in Hcancel.
    exists out, evs. rewrite <- Ht2.
    split; [|exact Hcancel].
    unfold bind at 1. rewrite (try_catch_bind _ _ _ _ _ _ Hcancel).
    now destruct out.
Qed.
End SafeResearch.

Lemma runDeepResearchSafely_never_throws_witness :
  (exists v,
      fst (_runDeepResearchSafely env_slow_job demo_client 3 "ML engineers" [])
      = Returned v /\
      (v = JNull \/ status_is v "completed")) /\
  exists out evs,
    _runDeepResearchSafely env_slow_job demo_client 3 "ML engineers" []
    = (Returned JNull,
       ([EvFetch (research_request demo_client "ML engineers"); EvNow;
         EvFetch (status_request demo_client "job-1"); EvNow]
          ++ EvFetch (cancel_request demo_client "job-1") :: evs)%list) /\
    cancelDeepResearch env_slow_job demo_client "job-1"
      [EvFetch (research_request demo_client "ML engineers"); EvNow;
       EvFetch (status_request demo_client "job-1"); EvNow]
    = (out, ([EvFetch (research_request demo_client "ML engineers"); EvNow;
              EvFetch (status_request demo_client "job-1"); EvNow]
               ++ EvFetch (cancel_request demo_client "job-1") :: evs)%list).
Proof.
  split.
  - apply (proj1 (proj2 (runDeepResearchSafely_never_throws env_slow_job
                           demo_client 3 "ML engineers" [])) 0%nat).
    + lia.
    + vm_compute. reflexivity.
  - apply (proj2 (proj2 (runDeepResearchSafely_never_throws env_slow_job
                           demo_client 3 "ML engineers" []))
             (JObj [("job_id", JStr "job-1"); ("status", JStr "pending")])
             "job-1"
             (JObj [("job_id", JStr "job-1"); ("status", JStr "processing")])).
    + eexists _, _. repeat split. apply demo_stringify_object_nonempty.
    + reflexivity.
    + discriminate.
    + intros req. eexists _, _. repeat split.
      apply demo_stringify_object_nonempty.
    + eexists. repeat split.
    + vm_compute. reflexivity.
    + lia.
Defined.
